(** * css-colors-analyzer: the color model, the extractor, the aggregator
      and the watch loop of [analyzer.py], embedded and verified.

    Python values are modelled as follows.
    - [int] is [Z]; [float] is the kernel's binary64 [float], so every
      arithmetic step rounds exactly as CPython's does.
    - [str] is [string]; a character is a code point below 256 (Latin-1),
      which is the range in which the character classes of [re] are written
      out below.  Text with code points above 255 is outside the model:
      there [\d], [\s] and [\w] take more characters, and with
      [re.IGNORECASE] a letter of a pattern also takes characters that
      [str.lower] does not turn into it (U+017F for [s], U+0130 and U+0131
      for [i]).  A theorem that would not hold there asks for what it needs
      of the text ([names_are_keys]).
    - A [dict] is an association list in insertion order.
    - A raised exception is the [Raise] case of [result]. *)

From Stdlib Require Import ZArith List Bool Ascii String Lia.
From Stdlib Require Import Floats Uint63.
Import ListNotations.

Local Open Scope string_scope.
Local Open Scope Z_scope.

(** ** Exceptions *)

Inductive exn : Type :=
| ValueError (msg : string)
| OverflowError (msg : string)
| ZeroDivisionError (msg : string)
| IndexError (msg : string)
| AttributeError (msg : string)
| TypeError (msg : string)
| OSError (msg : string).

(** [str(e)] *)
Definition exn_str (e : exn) : string :=
  match e with
  | ValueError m | OverflowError m | ZeroDivisionError m
  | IndexError m | AttributeError m | TypeError m | OSError m => m
  end.

Inductive result (A : Type) : Type :=
| Ok (a : A)
| Raise (e : exn).
Arguments Ok {A} a.
Arguments Raise {A} e.

Definition bind {A B : Type} (c : result A) (k : A -> result B) : result B :=
  match c with
  | Ok a => k a
  | Raise e => Raise e
  end.

Notation "x <- c ;; k" := (bind c (fun x => k))
  (at level 61, c at next level, right associativity).
Notation "' p <- c ;; k" := (bind c (fun p => k))
  (at level 61, p pattern, c at next level, right associativity).

Fixpoint mapM {A B : Type} (f : A -> result B) (l : list A) : result (list B) :=
  match l with
  | [] => Ok []
  | a :: l' => b <- f a ;; bs <- mapM f l' ;; Ok (b :: bs)
  end.

(** ** Keys with a boolean equality *)

Class Eqb (K : Type) : Type := {
  eqb : K -> K -> bool;
  eqb_spec : forall x y, reflect (x = y) (eqb x y)
}.

#[export] Instance string_Eqb : Eqb string :=
  {| eqb := String.eqb; eqb_spec := String.eqb_spec |}.

Definition option_eqb {K : Type} `{Eqb K} (x y : option K) : bool :=
  match x, y with
  | Some a, Some b => eqb a b
  | None, None => true
  | _, _ => false
  end.

Lemma option_eqb_spec {K : Type} `{Eqb K} (x y : option K) :
  reflect (x = y) (option_eqb x y).
Proof.
  destruct x as [a|], y as [b|]; simpl; try (constructor; congruence).
  destruct (eqb_spec a b); constructor; congruence.
Qed.

#[export] Instance option_Eqb {K : Type} `{Eqb K} : Eqb (option K) :=
  {| eqb := option_eqb; eqb_spec := option_eqb_spec |}.

(** ** Insertion-ordered dictionaries and lists used as sets *)

Section Dict.
Context {K V : Type} `{Eqb K}.

Definition dict : Type := list (K * V).

(** [d.get(k)] *)
Fixpoint d_get (k : K) (d : dict) : option V :=
  match d with
  | [] => None
  | (k', v) :: d' => if eqb k k' then Some v else d_get k d'
  end.

(** [k in d] *)
Definition d_mem (k : K) (d : dict) : bool :=
  match d_get k d with Some _ => true | None => false end.

(** [d[k] = v]: an existing key keeps its place, a new one goes last. *)
Fixpoint d_set (k : K) (v : V) (d : dict) : dict :=
  match d with
  | [] => [(k, v)]
  | (k', v') :: d' =>
      if eqb k k' then (k', v) :: d' else (k', v') :: d_set k v d'
  end.

Definition d_keys (d : dict) : list K := map fst d.
End Dict.
Arguments dict K V : clear implicits.

(** [x in l] for a list *)
Fixpoint mem {K : Type} `{Eqb K} (x : K) (l : list K) : bool :=
  match l with
  | [] => false
  | y :: l' => eqb x y || mem x l'
  end.

(** [if x not in l: l.append(x)] *)
Definition append_new {K : Type} `{Eqb K} (x : K) (l : list K) : list K :=
  if mem x l then l else (l ++ [x])%list.

(** ** Numbers *)

Module PyFloat.
Local Open Scope float_scope.

(** The integer part of [abs x], for a finite [x] below [2^62]: with
    [abs x = m * 2^(e - 2101)] and [m * 2^53] the 53-bit mantissa, the
    mantissa is shifted right by [53 - (e - 2101)] places. *)
Definition trunc63 (x : float) : int :=
  let (m, e) := frshiftexp (abs x) in
  (normfr_mantissa m >> (2154 - e))%uint63.

(** [int(x)]: truncation toward zero; NaN and the infinities raise. *)
Definition int_of_float (x : float) : result Z :=
  if is_nan x then Raise (ValueError "cannot convert float NaN to integer")
  else if is_infinity x
  then Raise (OverflowError "cannot convert float infinity to integer")
  else
    let (m, e) := frshiftexp (abs x) in
    let mag := Z.shiftr (Uint63.to_Z (normfr_mantissa m))
                        (2154 - Uint63.to_Z e) in
    Ok (if x <? 0 then (- mag)%Z else mag).

(** [float(n)] for [0 <= n]: round to nearest, ties to even.  Above 63
    bits the low bits are folded into a sticky bit first. *)
Definition float_of_nonneg (n : Z) : float :=
  if (n <? 2 ^ 63)%Z then of_uint63 (Uint63.of_Z n)
  else
    let sh := (Z.log2 n - 62)%Z in
    let top := Z.shiftr n sh in
    let sticky := if (n mod 2 ^ sh =? 0)%Z then 0%Z else 1%Z in
    ldshiftexp (of_uint63 (Uint63.of_Z (Z.lor top sticky)))
               (Uint63.of_Z (sh + 2101)).

Definition float_of_int (n : Z) : result float :=
  let f := float_of_nonneg (Z.abs n) in
  if is_infinity f
  then Raise (OverflowError "int too large to convert to float")
  else Ok (if (n <? 0)%Z then - f else f).

(** [x / y] on floats *)
Definition truediv (x y : float) : result float :=
  if y =? 0 then Raise (ZeroDivisionError "float division by zero")
  else Ok (x / y).

(** [n / y] for an int [n] and a float [y] *)
Definition int_truediv (n : Z) (y : float) : result float :=
  x <- float_of_int n ;; truediv x y.

(** [x % 1.0]: C's [fmod], which is exact, then moved into [[0, 1]]
    when negative; a zero result is [+0.0]. *)
Definition mod1 (x : float) : float :=
  if is_nan x || is_infinity x then nan
  else
    let a := abs x in
    if a <? 0x1p52 then
      let frac := a - of_uint63 (trunc63 a) in
      let md := if x <? 0 then - frac else frac in
      if md =? 0 then 0 else if md <? 0 then md + 1 else md
    else 0.

(** [max(a, b, c)] and [min(a, b, c)]: the first extremal item wins. *)
Definition max3 (a b c : float) : float :=
  let m := if a <? b then b else a in
  if m <? c then c else m.

Definition min3 (a b c : float) : float :=
  let m := if b <? a then b else a in
  if c <? m then c else m.
End PyFloat.

(** ** The [colorsys] module of the Python library

    Modelled from CPython's [Lib/colorsys.py] (the saturation above
    [l = 0.5] divides by [2.0-maxc-minc], as every release does except
    3.11.0 to 3.11.4). *)

Module colorsys.
Import PyFloat.
Local Open Scope float_scope.

Definition ONE_THIRD : float := 1 / 3.
Definition ONE_SIXTH : float := 1 / 6.
Definition TWO_THIRD : float := 2 / 3.

Definition rgb_to_hls (r g b : float) : result (float * float * float) :=
  let maxc := max3 r g b in
  let minc := min3 r g b in
  let sumc := maxc + minc in
  let rangec := maxc - minc in
  let l := sumc / 2 in
  if minc =? maxc then Ok (0, l, 0)
  else
    s <- (if l <=? 0.5 then truediv rangec sumc
          else truediv rangec (2 - maxc - minc)) ;;
    rc <- truediv (maxc - r) rangec ;;
    gc <- truediv (maxc - g) rangec ;;
    bc <- truediv (maxc - b) rangec ;;
    let h := if r =? maxc then bc - gc
             else if g =? maxc then 2 + rc - bc
             else 4 + gc - rc in
    Ok (mod1 (h / 6), l, s).

Definition _v (m1 m2 hue : float) : float :=
  let hue := mod1 hue in
  if hue <? ONE_SIXTH then m1 + (m2 - m1) * hue * 6
  else if hue <? 0.5 then m2
  else if hue <? TWO_THIRD then m1 + (m2 - m1) * (TWO_THIRD - hue) * 6
  else m1.

Definition hls_to_rgb (h l s : float) : float * float * float :=
  if s =? 0 then (l, l, l)
  else
    let m2 := if l <=? 0.5 then l * (1 + s) else l + s - (l * s) in
    let m1 := 2 * l - m2 in
    (_v m1 m2 (h + ONE_THIRD), _v m1 m2 h, _v m1 m2 (h - ONE_THIRD)).
End colorsys.

(** ** Characters and strings *)

Definition code (c : ascii) : N := N_of_ascii c.

Definition between (lo hi : N) (c : ascii) : bool :=
  ((lo <=? code c) && (code c <=? hi))%N.

(** [\d] on code points below 256 *)
Definition is_digit (c : ascii) : bool := between 48 57 c.

(** [[0-9a-fA-F]] *)
Definition is_hexdigit (c : ascii) : bool :=
  between 48 57 c || between 97 102 c || between 65 70 c.

(** [\s] and [str.isspace] on code points below 256 *)
Definition is_space (c : ascii) : bool :=
  between 9 13 c || between 28 32 c || (code c =? 133)%N || (code c =? 160)%N.

(** [\w] on code points below 256: [str.isalnum] or the underscore *)
Definition is_word (c : ascii) : bool :=
  between 48 57 c || between 65 90 c || between 97 122 c || (code c =? 95)%N
  || (code c =? 170)%N || (code c =? 178)%N || (code c =? 179)%N
  || (code c =? 181)%N || (code c =? 185)%N || (code c =? 186)%N
  || between 188 190 c || between 192 214 c || between 216 246 c
  || between 248 255 c.

(** [str.lower] on one code point below 256 *)
Definition lower_char (c : ascii) : ascii :=
  if between 65 90 c || (between 192 222 c && negb (code c =? 215)%N)
  then ascii_of_N (code c + 32) else c.

Fixpoint lower (s : string) : string :=
  match s with
  | EmptyString => EmptyString
  | String c s' => String (lower_char c) (lower s')
  end.

(** [s[1:]] *)
Definition tail (s : string) : string :=
  match s with
  | EmptyString => EmptyString
  | String _ s' => s'
  end.

(** ** Numbers and their text *)

Definition hexval (c : ascii) : option Z :=
  if between 48 57 c then Some (Z.of_N (code c) - 48)
  else if between 97 102 c then Some (Z.of_N (code c) - 87)
  else if between 65 70 c then Some (Z.of_N (code c) - 55)
  else None.

Definition hexchar (d : Z) : ascii :=
  ascii_of_N (Z.to_N (if d <? 10 then d + 48 else d + 87)).

Fixpoint hex_digits (fuel : nat) (n : Z) (acc : string) : string :=
  match fuel with
  | O => acc
  | S fuel' =>
      let acc := String (hexchar (n mod 16)) acc in
      if n <? 16 then acc else hex_digits fuel' (n / 16) acc
  end.

(** [format(n, 'x')] for [0 <= n] *)
Definition hex_of_nonneg (n : Z) : string :=
  hex_digits (S (Z.to_nat (Z.log2 n))) n EmptyString.

(** [f'{n:02x}']: lowercase hexadecimal, the sign first, zeros up to a
    width of two characters. *)
Definition format_02x (n : Z) : string :=
  if n <? 0 then "-" ++ hex_of_nonneg (- n)
  else
    let d := hex_of_nonneg n in
    if (String.length d <? 2)%nat then "0" ++ d else d.

Fixpoint dec_digits (fuel : nat) (n : Z) (acc : string) : string :=
  match fuel with
  | O => acc
  | S fuel' =>
      let acc := String (ascii_of_N (Z.to_N (n mod 10 + 48))) acc in
      if n <? 10 then acc else dec_digits fuel' (n / 10) acc
  end.

(** [str(n)] for [0 <= n] *)
Definition str_of_nonneg (n : Z) : string :=
  dec_digits (S (Z.to_nat (Z.log2 n))) n EmptyString.

(** ** [repr] of a string

    The text of a [ValueError] of [int] shows the argument this way. *)

Definition backslash : ascii := ascii_of_N 92.
Definition single_quote : ascii := ascii_of_N 39.
Definition double_quote : ascii := ascii_of_N 34.

(** [str.isprintable] on one code point below 256 *)
Definition is_printable (c : ascii) : bool :=
  between 32 126 c || (between 161 255 c && negb (code c =? 173)%N).

Fixpoint has_char (q : ascii) (s : string) : bool :=
  match s with
  | EmptyString => false
  | String c s' => (code c =? code q)%N || has_char q s'
  end.

Definition repr_char (quote c : ascii) : string :=
  if (code c =? code quote)%N || (code c =? 92)%N
  then String backslash (String c EmptyString)
  else if (code c =? 9)%N then String backslash "t"
  else if (code c =? 10)%N then String backslash "n"
  else if (code c =? 13)%N then String backslash "r"
  else if is_printable c then String c EmptyString
  else String backslash
         (String "x" (String (hexchar (Z.of_N (code c) / 16))
                        (String (hexchar (Z.of_N (code c) mod 16)) EmptyString))).

Fixpoint repr_chars (quote : ascii) (s : string) : string :=
  match s with
  | EmptyString => String quote EmptyString
  | String c s' => repr_char quote c ++ repr_chars quote s'
  end.

Definition repr (s : string) : string :=
  let quote := if has_char single_quote s && negb (has_char double_quote s)
               then double_quote else single_quote in
  String quote (repr_chars quote s).

(** ** [int] of a string

    [int(s, base)] as CPython does it.  For a base that is no power of
    two, a string with more than 4300 digits is refused: the default of
    [sys.set_int_max_str_digits], in CPython since 3.11 and in the
    security releases of 3.7 to 3.10 that came with it. *)

(** White space around the literal: that of the C locale, and the two
    spaces above 127, which [int] first turns into blanks. *)
Definition is_int_space (c : ascii) : bool :=
  between 9 13 c || (code c =? 32)%N || (code c =? 133)%N || (code c =? 160)%N.

Fixpoint skip_spaces (s : string) : string :=
  match s with
  | String c s' => if is_int_space c then skip_spaces s' else s
  | EmptyString => EmptyString
  end.

(** The sign of an [int] literal and what follows it *)
Definition split_sign (t : string) : bool * string :=
  match t with
  | String "-" t' => (true, t')
  | String "+" t' => (false, t')
  | _ => (false, t)
  end.

(** With base 16 a [0x] or [0X] is skipped, and one underscore after it. *)
Definition skip_prefix (base : Z) (t : string) : string :=
  match t with
  | String "0" (String x t') =>
      if (base =? 16) && ((code x =? 120) || (code x =? 88))%N
      then match t' with String "_" t'' => t'' | _ => t' end
      else t
  | _ => t
  end.

(** The digits that start [s], single underscores allowed between two of
    them: their value, how many they are and what follows them; nothing
    when two underscores meet or one ends the digits. *)
Fixpoint scan_digits (base : Z) (s : string) (acc digits : Z)
         (after_underscore : bool) : option (Z * Z * string) :=
  let stop := if after_underscore then None else Some (acc, digits, s) in
  match s with
  | EmptyString => stop
  | String c s' =>
      if (code c =? 95)%N
      then if after_underscore then None
           else scan_digits base s' acc digits true
      else match hexval c with
           | Some d =>
               if d <? base
               then scan_digits base s' (base * acc + d) (digits + 1) false
               else stop
           | None => stop
           end
  end.

Definition base_str (base : Z) : string :=
  if base =? 16 then "16" else "10".

Definition invalid_literal (base : Z) (s : string) : exn :=
  ValueError ("invalid literal for int() with base " ++ base_str base ++ ": "
              ++ substring 0 200 (repr s)).

Definition exceeds_limit (digits : Z) : exn :=
  ValueError ("Exceeds the limit (4300 digits) for integer string conversion: value has "
              ++ str_of_nonneg digits
              ++ " digits; use sys.set_int_max_str_digits() to increase the limit").

(** [int(s, base)] for base 10 and 16: white space, a sign, with base 16
    a [0x] prefix, the digits, white space. *)
Definition int_of_str (base : Z) (s : string) : result Z :=
  let (neg, t) := split_sign (skip_spaces s) in
  let t := skip_prefix base t in
  match t with
  | String "_" _ => Raise (invalid_literal base s)
  | _ =>
      match scan_digits base t 0 0 false with
      | None => Raise (invalid_literal base s)
      | Some (n, digits, rest) =>
          if negb (base =? 16) && (4300 <? digits)
          then Raise (exceeds_limit digits)
          else if digits =? 0 then Raise (invalid_literal base s)
          else match skip_spaces rest with
               | EmptyString => Ok (if neg then - n else n)
               | String _ _ => Raise (invalid_literal base s)
               end
      end
  end.

(** [int(s, 16)] *)
Definition int16 (s : string) : result Z := int_of_str 16 s.

(** [int(v)] for a group of a match, a string or [None] *)
Definition int_of_group (v : option string) : result Z :=
  match v with
  | Some s => int_of_str 10 s
  | None =>
      Raise (TypeError "int() argument must be a string, a bytes-like object or a real number, not 'NoneType'")
  end.

(** ** The color model *)

Definition double_chars (s : string) : string :=
  (fix go (s : string) : string :=
     match s with
     | EmptyString => EmptyString
     | String c s' => String c (String c (go s'))
     end) s.

Definition normalize_hex_color (hex_color : string) : string :=
  let hex_color := lower hex_color in
  if (String.length hex_color =? 4)%nat
  then "#" ++ double_chars (tail hex_color)
  else hex_color.

Definition hex_to_rgb (hex_color : string) : result (Z * Z * Z) :=
  let hex_color := tail (normalize_hex_color hex_color) in
  r <- int16 (substring 0 2 hex_color) ;;
  g <- int16 (substring 2 2 hex_color) ;;
  b <- int16 (substring 4 2 hex_color) ;;
  Ok (r, g, b).

Definition rgb_to_hsl (r g b : Z) : result (Z * Z * Z) :=
  r <- PyFloat.int_truediv r 255 ;;
  g <- PyFloat.int_truediv g 255 ;;
  b <- PyFloat.int_truediv b 255 ;;
  '(h, l, s) <- colorsys.rgb_to_hls r g b ;;
  h <- PyFloat.int_of_float (h * 360) ;;
  s <- PyFloat.int_of_float (s * 100) ;;
  l <- PyFloat.int_of_float (l * 100) ;;
  Ok (h, s, l).

Definition determine_color_category (hex_color : string) : result string :=
  rgb <- hex_to_rgb hex_color ;;
  let '(r, g, b) := rgb in
  hsl <- rgb_to_hsl r g b ;;
  let '(h, s, l) := hsl in
  if s <? 10 then
    if l <? 10 then Ok "black"
    else if l >? 90 then Ok "white"
    else Ok "gray"
  else if (h <? 15) || (h >=? 345) then Ok "red"
  else if h <? 45 then Ok "orange"
  else if h <? 75 then Ok "yellow"
  else if h <? 165 then Ok "green"
  else if h <? 195 then Ok "teal"
  else if h <? 255 then Ok "blue"
  else if h <? 315 then Ok "purple"
  else Ok "pink".

Definition format_of_color (color : string) : string :=
  if prefix "#" color then "hex"
  else if prefix "rgb(" color then "rgb"
  else if prefix "rgba(" color then "rgba"
  else if prefix "hsl(" color then "hsl"
  else if prefix "hsla(" color then "hsla"
  else "named".

(** ** Regular expressions: the fragment of [re] that the patterns use

    The matcher backtracks as [re] does: in [r1|r2] the left branch is
    tried first, [*], [+] and [?] are greedy, and a match object is the
    first success in that order.  Continuations carry what follows, so a
    failure further right makes a loop give characters back. *)

Inductive regex : Type :=
| Eps                              (* the empty pattern *)
| Chr (c : ascii)                  (* a literal character *)
| Cls (p : ascii -> bool)          (* a character class *)
| Star (p : ascii -> bool)         (* [p*] *)
| Plus (p : ascii -> bool)         (* [p+] *)
| Rep (n : nat) (p : ascii -> bool)  (* [p{n}] *)
| Opt (r : regex)                  (* [r?] *)
| Seq (r1 r2 : regex)
| Alt (r1 r2 : regex)
| Grp (i : nat) (r : regex)        (* capturing group number [i] *)
| Bnd.                             (* [\b] *)

Declare Scope regex_scope.
Delimit Scope regex_scope with re.
Bind Scope regex_scope with regex.
Infix "+++" := Seq (at level 60, right associativity) : regex_scope.

(** A literal string *)
Fixpoint lit (s : string) : regex :=
  match s with
  | EmptyString => Eps
  | String c s' => Seq (Chr c) (lit s')
  end.

(** [r1|r2|...|rn] *)
Fixpoint alts (l : list regex) : regex :=
  match l with
  | [] => Cls (fun _ => false)
  | [r] => r
  | r :: l' => Alt r (alts l')
  end.

(** The number of capturing groups, [Pattern.groups] *)
Fixpoint ngroups (r : regex) : nat :=
  match r with
  | Opt r => ngroups r
  | Seq r1 r2 | Alt r1 r2 => (ngroups r1 + ngroups r2)%nat
  | Grp _ r => S (ngroups r)
  | _ => O
  end.

(** The group numbers in the order of their opening parentheses *)
Fixpoint group_numbers (r : regex) : list nat :=
  match r with
  | Opt r => group_numbers r
  | Seq r1 r2 | Alt r1 r2 => (group_numbers r1 ++ group_numbers r2)%list
  | Grp i r => i :: group_numbers r
  | _ => []
  end.

(** A match object: [group(0)] and [groups()] *)
Record match_object : Type := {
  group0 : string;
  groups : list (option string)
}.

Section Matcher.
(** [re.IGNORECASE] *)
Variable ignorecase : bool.

(** A character of the pattern against one of the text.  Below 256,
    ignoring case is comparing in lowercase. *)
Definition chr_matches (c a : ascii) : bool :=
  if ignorecase then Ascii.eqb (lower_char c) (lower_char a)
  else Ascii.eqb c a.

(** [\b]: exactly one of the characters on the two sides is a word
    character; the ends of the text count as non-word. *)
Definition at_boundary (pv : option ascii) (s : string) : bool :=
  xorb (match pv with Some a => is_word a | None => false end)
       (match s with String a _ => is_word a | EmptyString => false end).

(** What was consumed between the text [s] and its suffix [s'] *)
Definition taken (s s' : string) : string :=
  substring 0 (String.length s - String.length s') s.

Section Run.
Context {R : Type}.

Definition cont : Type :=
  option ascii -> string -> list (nat * string) -> option R.

Fixpoint star (p : ascii -> bool) (pv : option ascii) (s : string)
         (k : option ascii -> string -> option R) : option R :=
  match s with
  | String a s' =>
      if p a then
        match star p (Some a) s' k with
        | Some x => Some x
        | None => k pv s
        end
      else k pv s
  | EmptyString => k pv s
  end.

Fixpoint rep (n : nat) (p : ascii -> bool) (pv : option ascii) (s : string)
         (k : option ascii -> string -> option R) : option R :=
  match n with
  | O => k pv s
  | S n' =>
      match s with
      | String a s' => if p a then rep n' p (Some a) s' k else None
      | EmptyString => None
      end
  end.

Fixpoint rmatch (r : regex) (pv : option ascii) (s : string)
         (cs : list (nat * string)) (k : cont) : option R :=
  match r with
  | Eps => k pv s cs
  | Chr c =>
      match s with
      | String a s' => if chr_matches c a then k (Some a) s' cs else None
      | EmptyString => None
      end
  | Cls p =>
      match s with
      | String a s' => if p a then k (Some a) s' cs else None
      | EmptyString => None
      end
  | Star p => star p pv s (fun pv' s' => k pv' s' cs)
  | Plus p =>
      match s with
      | String a s' =>
          if p a then star p (Some a) s' (fun pv' s' => k pv' s' cs)
          else None
      | EmptyString => None
      end
  | Rep n p => rep n p pv s (fun pv' s' => k pv' s' cs)
  | Opt r =>
      match rmatch r pv s cs k with
      | Some x => Some x
      | None => k pv s cs
      end
  | Seq r1 r2 =>
      rmatch r1 pv s cs (fun pv' s' cs' => rmatch r2 pv' s' cs' k)
  | Alt r1 r2 =>
      match rmatch r1 pv s cs k with
      | Some x => Some x
      | None => rmatch r2 pv s cs k
      end
  | Grp i r =>
      rmatch r pv s cs (fun pv' s' cs' => k pv' s' ((i, taken s s') :: cs'))
  | Bnd => if at_boundary pv s then k pv s cs else None
  end.
End Run.

Fixpoint capture (i : nat) (cs : list (nat * string)) : option string :=
  match cs with
  | [] => None
  | (j, t) :: cs' => if (i =? j)%nat then Some t else capture i cs'
  end.

(** The match of [r] that starts at the text [s], which [pv] precedes *)
Definition match_at (r : regex) (pv : option ascii) (s : string)
  : option match_object :=
  rmatch r pv s []
    (fun _ s' cs =>
       Some {| group0 := taken s s';
               groups := map (fun i => capture i cs) (seq 1 (ngroups r)) |}).

(** [re.finditer]: the matches from left to right, none overlapping.
    [skip] counts the characters of the last match still to be passed.
    (The patterns below match no empty string.) *)
Fixpoint scan (r : regex) (pv : option ascii) (s : string) (skip : nat)
  : list match_object :=
  match skip with
  | S n =>
      match s with
      | String a s' => scan r (Some a) s' n
      | EmptyString => []
      end
  | O =>
      match match_at r pv s with
      | Some m =>
          m :: match s with
               | String a s' =>
                   scan r (Some a) s' (String.length (group0 m) - 1)
               | EmptyString => []
               end
      | None =>
          match s with
          | String a s' => scan r (Some a) s' 0
          | EmptyString => []
          end
      end
  end.

Definition finditer (r : regex) (content : string) : list match_object :=
  scan r None content 0.
End Matcher.

(** ** The patterns *)

Local Open Scope regex_scope.

Definition ws : regex := Star is_space.
Definition num : regex := Plus is_digit.
Definition comma : regex := ws +++ Chr "," +++ ws.

(** [(0?\.\d+|1(\.0)?|0)], the fourth group, which holds the fifth *)
Definition alpha : regex :=
  Grp 4 (Alt (Opt (Chr "0") +++ Chr "." +++ num)
        (Alt (Chr "1" +++ Opt (Grp 5 (lit ".0")))
             (Chr "0"))).

(** [#([0-9a-fA-F]{3}|[0-9a-fA-F]{6})\b] *)
Definition HEX_COLOR_REGEX : regex :=
  Chr "#" +++ Grp 1 (Alt (Rep 3 is_hexdigit) (Rep 6 is_hexdigit)) +++ Bnd.

(** [rgb\(\s*(\d+)\s*,\s*(\d+)\s*,\s*(\d+)\s*\)] *)
Definition RGB_COLOR_REGEX : regex :=
  lit "rgb(" +++ ws +++ Grp 1 num +++ comma +++ Grp 2 num +++ comma
  +++ Grp 3 num +++ ws +++ Chr ")".

(** [rgba\(\s*(\d+)\s*,\s*(\d+)\s*,\s*(\d+)\s*,\s*(0?\.\d+|1(\.0)?|0)\s*\)] *)
Definition RGBA_COLOR_REGEX : regex :=
  lit "rgba(" +++ ws +++ Grp 1 num +++ comma +++ Grp 2 num +++ comma
  +++ Grp 3 num +++ comma +++ alpha +++ ws +++ Chr ")".

(** [hsl\(\s*(\d+)\s*,\s*(\d+)%\s*,\s*(\d+)%\s*\)] *)
Definition HSL_COLOR_REGEX : regex :=
  lit "hsl(" +++ ws +++ Grp 1 num +++ comma +++ Grp 2 num +++ Chr "%"
  +++ comma +++ Grp 3 num +++ Chr "%" +++ ws +++ Chr ")".

(** [hsla\(\s*(\d+)\s*,\s*(\d+)%\s*,\s*(\d+)%\s*,\s*(0?\.\d+|1(\.0)?|0)\s*\)] *)
Definition HSLA_COLOR_REGEX : regex :=
  lit "hsla(" +++ ws +++ Grp 1 num +++ comma +++ Grp 2 num +++ Chr "%"
  +++ comma +++ Grp 3 num +++ Chr "%" +++ comma +++ alpha +++ ws +++ Chr ")".

Local Close Scope regex_scope.

Definition NAMED_COLORS : dict string string := [
  ("aliceblue", "#f0f8ff"); ("antiquewhite", "#faebd7"); ("aqua", "#00ffff");
    ("aquamarine", "#7fffd4"); ("azure", "#f0ffff"); ("beige", "#f5f5dc");
    ("bisque", "#ffe4c4"); ("black", "#000000");
    ("blanchedalmond", "#ffebcd"); ("blue", "#0000ff");
    ("blueviolet", "#8a2be2"); ("brown", "#a52a2a");
    ("burlywood", "#deb887"); ("cadetblue", "#5f9ea0");
    ("chartreuse", "#7fff00"); ("chocolate", "#d2691e");
    ("coral", "#ff7f50"); ("cornflowerblue", "#6495ed");
    ("cornsilk", "#fff8dc"); ("crimson", "#dc143c"); ("cyan", "#00ffff");
    ("darkblue", "#00008b"); ("darkcyan", "#008b8b");
    ("darkgoldenrod", "#b8860b"); ("darkgray", "#a9a9a9");
    ("darkgreen", "#006400"); ("darkgrey", "#a9a9a9");
    ("darkkhaki", "#bdb76b"); ("darkmagenta", "#8b008b");
    ("darkolivegreen", "#556b2f"); ("darkorange", "#ff8c00");
    ("darkorchid", "#9932cc"); ("darkred", "#8b0000");
    ("darksalmon", "#e9967a"); ("darkseagreen", "#8fbc8f");
    ("darkslateblue", "#483d8b"); ("darkslategray", "#2f4f4f");
    ("darkslategrey", "#2f4f4f"); ("darkturquoise", "#00ced1");
    ("darkviolet", "#9400d3"); ("deeppink", "#ff1493");
    ("deepskyblue", "#00bfff"); ("dimgray", "#696969");
    ("dimgrey", "#696969"); ("dodgerblue", "#1e90ff");
    ("firebrick", "#b22222"); ("floralwhite", "#fffaf0");
    ("forestgreen", "#228b22"); ("fuchsia", "#ff00ff");
    ("gainsboro", "#dcdcdc"); ("ghostwhite", "#f8f8ff"); ("gold", "#ffd700");
    ("goldenrod", "#daa520"); ("gray", "#808080"); ("green", "#008000");
    ("greenyellow", "#adff2f"); ("grey", "#808080"); ("honeydew", "#f0fff0");
    ("hotpink", "#ff69b4"); ("indianred", "#cd5c5c"); ("indigo", "#4b0082");
    ("ivory", "#fffff0"); ("khaki", "#f0e68c"); ("lavender", "#e6e6fa");
    ("lavenderblush", "#fff0f5"); ("lawngreen", "#7cfc00");
    ("lemonchiffon", "#fffacd"); ("lightblue", "#add8e6");
    ("lightcoral", "#f08080"); ("lightcyan", "#e0ffff");
    ("lightgoldenrodyellow", "#fafad2"); ("lightgray", "#d3d3d3");
    ("lightgreen", "#90ee90"); ("lightgrey", "#d3d3d3");
    ("lightpink", "#ffb6c1"); ("lightsalmon", "#ffa07a");
    ("lightseagreen", "#20b2aa"); ("lightskyblue", "#87cefa");
    ("lightslategray", "#778899"); ("lightslategrey", "#778899");
    ("lightsteelblue", "#b0c4de"); ("lightyellow", "#ffffe0");
    ("lime", "#00ff00"); ("limegreen", "#32cd32"); ("linen", "#faf0e6");
    ("magenta", "#ff00ff"); ("maroon", "#800000");
    ("mediumaquamarine", "#66cdaa"); ("mediumblue", "#0000cd");
    ("mediumorchid", "#ba55d3"); ("mediumpurple", "#9370db");
    ("mediumseagreen", "#3cb371"); ("mediumslateblue", "#7b68ee");
    ("mediumspringgreen", "#00fa9a"); ("mediumturquoise", "#48d1cc");
    ("mediumvioletred", "#c71585"); ("midnightblue", "#191970");
    ("mintcream", "#f5fffa"); ("mistyrose", "#ffe4e1");
    ("moccasin", "#ffe4b5"); ("navajowhite", "#ffdead"); ("navy", "#000080");
    ("oldlace", "#fdf5e6"); ("olive", "#808000"); ("olivedrab", "#6b8e23");
    ("orange", "#ffa500"); ("orangered", "#ff4500"); ("orchid", "#da70d6");
    ("palegoldenrod", "#eee8aa"); ("palegreen", "#98fb98");
    ("paleturquoise", "#afeeee"); ("palevioletred", "#db7093");
    ("papayawhip", "#ffefd5"); ("peachpuff", "#ffdab9"); ("peru", "#cd853f");
    ("pink", "#ffc0cb"); ("plum", "#dda0dd"); ("powderblue", "#b0e0e6");
    ("purple", "#800080"); ("rebeccapurple", "#663399"); ("red", "#ff0000");
    ("rosybrown", "#bc8f8f"); ("royalblue", "#4169e1");
    ("saddlebrown", "#8b4513"); ("salmon", "#fa8072");
    ("sandybrown", "#f4a460"); ("seagreen", "#2e8b57");
    ("seashell", "#fff5ee"); ("sienna", "#a0522d"); ("silver", "#c0c0c0");
    ("skyblue", "#87ceeb"); ("slateblue", "#6a5acd");
    ("slategray", "#708090"); ("slategrey", "#708090"); ("snow", "#fffafa");
    ("springgreen", "#00ff7f"); ("steelblue", "#4682b4"); ("tan", "#d2b48c");
    ("teal", "#008080"); ("thistle", "#d8bfd8"); ("tomato", "#ff6347");
    ("turquoise", "#40e0d0"); ("violet", "#ee82ee"); ("wheat", "#f5deb3");
    ("white", "#ffffff"); ("whitesmoke", "#f5f5f5"); ("yellow", "#ffff00");
    ("yellowgreen", "#9acd32")
].

(** ['|'.join(r'\b' + color + r'\b' for color in NAMED_COLORS.keys())] *)
Definition NAMED_COLOR_REGEX : regex :=
  alts (map (fun color => Seq Bnd (Seq (lit color) Bnd)) (d_keys NAMED_COLORS)).

(** ** The extractor *)

(** [for x in l: body], the state threaded, an exception ending the loop *)
Fixpoint for_each {A S : Type} (l : list A) (body : S -> A -> result S) (s : S)
  : result S :=
  match l with
  | [] => Ok s
  | a :: l' => s' <- body s a ;; for_each l' body s'
  end.

(** [a, b, c = l] *)
Definition unpack3 {A : Type} (l : list A) : result (A * A * A) :=
  match l with
  | [a; b; c] => Ok (a, b, c)
  | _ :: _ :: _ :: _ :: _ =>
      Raise (ValueError "too many values to unpack (expected 3)")
  | _ => Raise (ValueError "not enough values to unpack (expected 3)")
  end.

(** [a, b, c, d = l] *)
Definition unpack4 {A : Type} (l : list A) : result (A * A * A * A) :=
  match l with
  | [a; b; c; d] => Ok (a, b, c, d)
  | _ :: _ :: _ :: _ :: _ :: _ =>
      Raise (ValueError "too many values to unpack (expected 4)")
  | _ => Raise (ValueError "not enough values to unpack (expected 4)")
  end.

(** The result of one file: canonical value to spellings.  A key is a
    string or, from [NAMED_COLORS.get], [None]. *)
Definition color_matches : Type := dict (option string) (list string).

(** [if key not in color_matches: color_matches[key] = []] and then
    [if color not in color_matches[key]: color_matches[key].append(color)] *)
Definition record_color (key : option string) (color : string)
           (cm : color_matches) : color_matches :=
  let cm := if d_mem key cm then cm else d_set key [] cm in
  match d_get key cm with
  | Some l => if mem color l then cm else d_set key (l ++ [color])%list cm
  | None => cm
  end.

(** [f'#{r:02x}{g:02x}{b:02x}'] *)
Definition hex_value_of (r g b : Z) : string :=
  "#" ++ format_02x r ++ format_02x g ++ format_02x b.

(** The body of the two HSL loops, from the three integers on *)
Definition hsl_hex_value (h s l : Z) : result string :=
  h <- PyFloat.int_truediv h 360 ;;
  s <- PyFloat.int_truediv s 100 ;;
  l <- PyFloat.int_truediv l 100 ;;
  let '(r, g, b) := colorsys.hls_to_rgb h l s in
  r <- PyFloat.int_of_float (r * 255) ;;
  g <- PyFloat.int_of_float (g * 255) ;;
  b <- PyFloat.int_of_float (b * 255) ;;
  Ok (hex_value_of r g b).

Definition extract_hex (cm : color_matches) (m : match_object)
  : result color_matches :=
  let color := lower (group0 m) in
  let normalized := normalize_hex_color color in
  Ok (record_color (Some normalized) color cm).

Definition extract_rgb (cm : color_matches) (m : match_object)
  : result color_matches :=
  let color := group0 m in
  ints <- mapM int_of_group (groups m) ;;
  '(r, g, b) <- unpack3 ints ;;
  Ok (record_color (Some (hex_value_of r g b)) color cm).

Definition extract_rgba (cm : color_matches) (m : match_object)
  : result color_matches :=
  let color := group0 m in
  '(r, g, b, a) <- unpack4 (groups m) ;;
  r <- int_of_group r ;;
  g <- int_of_group g ;;
  b <- int_of_group b ;;
  Ok (record_color (Some (hex_value_of r g b)) color cm).

Definition extract_hsl (cm : color_matches) (m : match_object)
  : result color_matches :=
  let color := group0 m in
  ints <- mapM int_of_group (groups m) ;;
  '(h, s, l) <- unpack3 ints ;;
  hex_value <- hsl_hex_value h s l ;;
  Ok (record_color (Some hex_value) color cm).

Definition extract_hsla (cm : color_matches) (m : match_object)
  : result color_matches :=
  let color := group0 m in
  '(h, s, l, a) <- unpack4 (groups m) ;;
  h <- int_of_group h ;;
  s <- int_of_group s ;;
  l <- int_of_group l ;;
  hex_value <- hsl_hex_value h s l ;;
  Ok (record_color (Some hex_value) color cm).

Definition extract_named (cm : color_matches) (m : match_object)
  : result color_matches :=
  let color := lower (group0 m) in
  let hex_value := d_get color NAMED_COLORS in
  Ok (record_color hex_value color cm).

Definition extract_colors_from_content (content : string)
  : result color_matches :=
  let cm : color_matches := [] in
  cm <- for_each (finditer false HEX_COLOR_REGEX content) extract_hex cm ;;
  cm <- for_each (finditer false RGB_COLOR_REGEX content) extract_rgb cm ;;
  cm <- for_each (finditer false RGBA_COLOR_REGEX content) extract_rgba cm ;;
  cm <- for_each (finditer false HSL_COLOR_REGEX content) extract_hsl cm ;;
  cm <- for_each (finditer false HSLA_COLOR_REGEX content) extract_hsla cm ;;
  for_each (finditer true NAMED_COLOR_REGEX content) extract_named cm.

(** ** Files *)

(** Reading a path: the text, or the exception [open] or [read] raised *)
Definition filesystem : Type := string -> result string.

(** [analyze_file]: the colors of one file and what it printed to
    [sys.stderr] *)
Definition analyze_file (fs : filesystem) (file_path : string)
  : color_matches * list string :=
  match (content <- fs file_path ;; extract_colors_from_content content) with
  | Ok cm => (cm, [])
  | Raise e => ([], ["Error analyzing " ++ file_path ++ ": " ++ exn_str e])
  end.

(** ** The aggregator *)

Record ColorRecord : Type := {
  name : string;
  count : Z;
  variations : list string;
  unique : bool;
  color_format : string;
  category : string;
  locations : list string
}.

Definition color_data_t : Type := dict string ColorRecord.

(** [variations[0]] *)
Definition first_of (l : list string) : result string :=
  match l with
  | v :: _ => Ok v
  | [] => Raise (IndexError "list index out of range")
  end.

(** [for variation in variations: if variation not in vs: vs.append(variation)] *)
Definition merge_variations (vs new : list string) : list string :=
  fold_left (fun vs v => append_new v vs) new vs.

(** The body of the loop over [file_colors.items()] *)
Definition add_color (file_str : string) (color_data : color_data_t)
           (item : option string * list string) : result color_data_t :=
  let (normalized_value, file_variations) := item in
  match normalized_value with
  | Some nv =>
      match d_get nv color_data with
      | None =>
          v0 <- first_of file_variations ;;
          let color_format := format_of_color v0 in
          category <- determine_color_category nv ;;
          Ok (d_set nv {| name := nv;
                          count := 1;
                          variations := file_variations;
                          unique := true;
                          color_format := color_format;
                          category := category;
                          locations := [file_str] |} color_data)
      | Some r =>
          Ok (d_set nv {| name := name r;
                          count := count r + 1;
                          variations := merge_variations (variations r) file_variations;
                          unique := false;
                          color_format := color_format r;
                          category := category r;
                          locations := append_new file_str (locations r) |}
                    color_data)
      end
  | None =>
      (* [None] is no key of [color_data]; [determine_color_category(None)]
         fails at [None.lower()] *)
      v0 <- first_of file_variations ;;
      Raise (AttributeError "'NoneType' object has no attribute 'lower'")
  end.

(** The loop over the files: the aggregate and the lines on [sys.stderr] *)
Fixpoint aggregate (fs : filesystem) (files : list string)
         (color_data : color_data_t) (err : list string)
  : result color_data_t * list string :=
  match files with
  | [] => (Ok color_data, err)
  | file_path :: files' =>
      let (file_colors, lines) := analyze_file fs file_path in
      let err := (err ++ lines)%list in
      match for_each file_colors (add_color file_path) color_data with
      | Ok color_data' => aggregate fs files' color_data' err
      | Raise e => (Raise e, err)
      end
  end.

(** The grouping by category *)
Definition organize (color_data : color_data_t)
  : dict string (list ColorRecord) :=
  fold_left
    (fun organized_data kv =>
       let color_info := snd kv in
       let category := category color_info in
       let organized_data :=
         if d_mem category organized_data then organized_data
         else d_set category [] organized_data in
       match d_get category organized_data with
       | Some l => d_set category (l ++ [color_info])%list organized_data
       | None => organized_data
       end)
    color_data [].

Definition process_files (fs : filesystem) (files : list string)
  : result (dict string (list ColorRecord)) * list string :=
  let (r, err) := aggregate fs files [] [] in
  (color_data <- r ;; Ok (organize color_data), err).

(** ** The watch loop *)

(** What the run lets out: a line on [sys.stdout], a line on
    [sys.stderr], a file written. *)
Inductive event : Type :=
| Stdout (text : string)
| Stderr (text : string)
| Written (path : string) (text : string).

(** The file system at one instant: [os.path.getmtime] and the reads *)
Record world : Type := {
  getmtime : string -> result float;
  contents : filesystem
}.

Section Watch.
(** [json.dumps(color_data, indent=indent)] of the Python library *)
Variable json_dumps : dict string (list ColorRecord) -> option Z -> string.

Definition generate_color_report (color_data : dict string (list ColorRecord))
           (pretty : bool) : string :=
  let indent := if pretty then Some 2 else None in
  json_dumps color_data indent.

(** The file system over time: instant 0 is seen by the start of
    [watch_files], instant [i] by the [i]-th pass of its loop. *)
Variable env : nat -> world.

(** [last_modification_times.get(file_path, 0)] *)
Definition last_time (last : dict string float) (file_path : string) : float :=
  match d_get file_path last with
  | Some t => t
  | None => 0%float
  end.

(** The loop before [while True] *)
Definition record_times (files : list string) : dict string float :=
  fold_left
    (fun last file_path =>
       match getmtime (env 0) file_path with
       | Ok t => d_set file_path t last
       | Raise _ => d_set file_path 0%float last
       end)
    files [].

(** The body of the [for] loop of one pass *)
Definition check_file (w : world) (st : bool * dict string float)
           (file_path : string) : bool * dict string float :=
  let (files_changed, last) := st in
  match getmtime w file_path with
  | Ok mtime =>
      if (last_time last file_path <? mtime)%float
      then (true, d_set file_path mtime last)
      else (files_changed, last)
  | Raise _ => (files_changed, last)
  end.

Definition check_files (w : world) (files : list string)
           (last : dict string float) : bool * dict string float :=
  fold_left (check_file w) files (false, last).

(** What one report lets out *)
Definition emit (output_path : option string) (report : string) : list event :=
  match output_path with
  | Some (String c p) =>
      [Written (String c p) report;
       Stdout ("Updated color analysis to " ++ String c p)]
  | _ => [Stdout report]
  end.

(** [n] passes of [while True], the first at instant [i]: the events,
    and the exception if one ended the loop. *)
Fixpoint watch_loop (n i : nat) (files : list string)
         (output_path : option string) (pretty : bool)
         (last : dict string float) : list event * option exn :=
  match n with
  | O => ([], None)
  | S n' =>
      let (files_changed, last) := check_files (env i) files last in
      if files_changed then
        let (r, err) := process_files (contents (env i)) files in
        match r with
        | Ok color_data =>
            let report := generate_color_report color_data pretty in
            let (evs, x) :=
              watch_loop n' (S i) files output_path pretty last in
            ((map Stderr err ++ emit output_path report ++ evs)%list, x)
        | Raise e => (map Stderr err, Some e)
        end
      else watch_loop n' (S i) files output_path pretty last
  end.

(** [watch_files], observed for [n] passes of its loop *)
Definition watch_files (files : list string) (output_path : option string)
           (pretty : bool) (n : nat) : list event * option exn :=
  watch_loop n 1 files output_path pretty (record_times files).
End Watch.

(** ** Finding the files

    A path is the list of its components, as [pathlib] holds it.  What
    the file system holds below a directory is a tree, each directory
    listing its entries in the order in which [os.walk] meets them;
    links and directories that cannot be read are left out. *)

#[warnings="-register-all"]
Inductive entry : Type :=
| File (name : string)
| Dir (name : string) (entries : list entry).

(** What a path names *)
Inductive target : Type :=
| Missing
| IsFile
| IsDir (entries : list entry).

(** [name.rfind('.')] *)
Fixpoint rfind_dot (name : string) : option nat :=
  match name with
  | EmptyString => None
  | String c name' =>
      match rfind_dot name' with
      | Some i => Some (S i)
      | None => if Ascii.eqb c "." then Some O else None
      end
  end.

(** [PurePath.suffix] of a path whose last component is [name] *)
Definition suffix (name : string) : string :=
  match rfind_dot name with
  | Some i =>
      if (0 <? i)%nat && (i <? String.length name - 1)%nat
      then substring i (String.length name - i) name
      else ""
  | None => ""
  end.

(** The files of a directory, [filenames] in [os.walk] *)
Definition filenames (es : list entry) : list string :=
  flat_map (fun e => match e with File n => [n] | Dir _ _ => [] end) es.

(** [os.walk(path)], top down: a directory, then the directories below
    it in turn, each with its files. *)
Fixpoint walk_entry (root : list string) (e : entry)
  : list (list string * list string) :=
  match e with
  | File _ => []
  | Dir d es =>
      let root' := (root ++ [d])%list in
      (root', filenames es) :: flat_map (walk_entry root') es
  end.

Definition walk (path : list string) (es : list entry)
  : list (list string * list string) :=
  (path, filenames es) :: flat_map (walk_entry path) es.

(** [path.suffix.lower() in extensions] *)
Definition has_extension (extensions : list string) (name : string) : bool :=
  mem (lower (suffix name)) extensions.

Definition find_files (path : list string) (t : target)
           (extensions : list string) : list (list string) :=
  match t with
  | IsFile =>
      if has_extension extensions (last path "") then [path] else []
  | IsDir es =>
      flat_map
        (fun '(root, names) =>
           flat_map
             (fun filename =>
                let file_path := (root ++ [filename])%list in
                if has_extension extensions filename then [file_path] else [])
             names)
        (walk path es)
  | Missing => []
  end.

(** ** The files of a run *)

(** How [main] goes on after its arguments: it leaves with an exit code,
    after the help or some lines on [sys.stderr], or it has the list of
    files to process. *)
Inductive started : Type :=
| Exit (code : Z) (help : bool) (stderr : list string)
| Run (files : list (list string)).

Definition file_extensions : list string :=
  [".css"; ".scss"; ".less"; ".styl"; ".tsx"; ".jsx"; ".js"; ".ts"].

(** The truth value of an optional argument: given and not empty *)
Definition given (arg : option string) : option string :=
  match arg with
  | Some (String c s) => Some (String c s)
  | _ => None
  end.

Section Main.
(** [Path(s)] as its components *)
Variable parts : string -> list string.
(** What a path names in the file system *)
Variable lookup : list string -> target.

(** [main] from the check of the arguments to the list of files *)
Definition main_files (input dir : option string) : started :=
  match given input, given dir with
  | None, None => Exit 1 true []
  | input, dir =>
      let files :=
        match input with
        | Some i =>
            match lookup (parts i) with
            | IsFile => inl [parts i]
            | _ => inr ("Error: " ++ i ++ " is not a file")
            end
        | None => inl []
        end in
      match files with
      | inr line => Exit 1 false [line]
      | inl files =>
          let files :=
            match dir with
            | Some d =>
                match lookup (parts d) with
                | IsDir es =>
                    inl (files ++ find_files (parts d) (IsDir es) file_extensions)%list
                | _ => inr ("Error: " ++ d ++ " is not a directory")
                end
            | None => inl files
            end in
          match files with
          | inr line => Exit 1 false [line]
          | inl [] => Exit 1 false ["No files found to analyze"]
          | inl files => Run files
          end
      end
  end.
End Main.


(** * What the theorems speak of

    The definitions below are not part of the program: they word the
    properties, decide them over finite ranges, or are the inputs at which
    a theorem is witnessed. *)

(** ** Strings *)

(** Every character of [s] satisfies [p] *)
Fixpoint all_chars (p : ascii -> bool) (s : string) : bool :=
  match s with
  | EmptyString => true
  | String c s' => p c && all_chars p s'
  end.

(** [s] does not start with a character that satisfies [p] *)
Definition starts_without (p : ascii -> bool) (s : string) : Prop :=
  match s with
  | String c _ => p c = false
  | EmptyString => True
  end.

(** The character before the end of [w], which [pv] precedes *)
Fixpoint last_of (pv : option ascii) (w : string) : option ascii :=
  match w with
  | EmptyString => pv
  | String c w' => last_of (Some c) w'
  end.

Definition all_ascii : list ascii := map ascii_of_nat (seq 0 256).

(** A canonical color: [#] and six lowercase hexadecimal digits *)
Definition is_lower_hexdigit (c : ascii) : bool :=
  between 48 57 c || between 97 102 c.

Definition canonical (s : string) : bool :=
  match s with
  | String "#" t => (String.length t =? 6)%nat && all_chars is_lower_hexdigit t
  | _ => false
  end.

(** [#] and six hex digits *)
Definition valid_hex6 (s : string) : bool :=
  match s with
  | String "#" t =>
      (String.length t =? 6)%nat && forallb is_hexdigit (list_ascii_of_string t)
  | _ => false
  end.

(** One or more decimal digits *)
Definition is_number (d : string) : bool :=
  match d with
  | EmptyString => false
  | String _ _ => all_chars is_digit d
  end.

(** The number that a string of decimal digits writes *)
Fixpoint decimal (d : string) (acc : Z) : Z :=
  match d with
  | EmptyString => acc
  | String c d' => decimal d' (10 * acc + (Z.of_N (code c) - 48))
  end.

Definition digit_facts (c : ascii) : bool :=
  implb (is_digit c)
        (negb (is_space c) && negb (is_int_space c) && negb (code c =? 95)%N
         && match hexval c with
            | Some v => (v =? Z.of_N (code c) - 48) && (v <? 10)
            | None => false
            end
         && match split_sign (String c EmptyString) with
            | (false, String _ EmptyString) => true
            | _ => false
            end).

(** ** The matcher *)

(** [r] matches the empty string *)
Fixpoint nullable (r : regex) : bool :=
  match r with
  | Eps | Star _ | Opt _ | Bnd => true
  | Chr _ | Cls _ | Plus _ => false
  | Rep n _ => (n =? 0)%nat
  | Seq r1 r2 => nullable r1 && nullable r2
  | Alt r1 r2 => nullable r1 || nullable r2
  | Grp _ r => nullable r
  end.

(** The characters a match of [r] can start with *)
Fixpoint first (ic : bool) (r : regex) (c : ascii) : bool :=
  match r with
  | Eps | Bnd => false
  | Chr a => chr_matches ic a c
  | Cls p | Star p | Plus p => p c
  | Rep n p => negb (n =? 0)%nat && p c
  | Opt r | Grp _ r => first ic r c
  | Seq r1 r2 => first ic r1 c || (nullable r1 && first ic r2 c)
  | Alt r1 r2 => first ic r1 c || first ic r2 c
  end.

Definition no_first (ic : bool) (r : regex) (p : ascii -> bool) : bool :=
  forallb (fun c => implb (p c) (negb (first ic r c))) all_ascii.

(** ** Literals of the HSL pattern *)

(** [hsl(] [h] [,] [s] [%,] [l] [%)] with any white space the pattern allows *)
Definition hsl_literal (w1 hs w2 w3 ss w4 w5 ls w6 : string) : string :=
  "hsl(" ++ w1 ++ hs ++ w2 ++ "," ++ w3 ++ ss ++ "%" ++ w4 ++ ","
  ++ w5 ++ ls ++ "%" ++ w6 ++ ")".

(** What follows [hsl(] in such a literal *)
Definition hsl_body (w1 hs w2 w3 ss w4 w5 ls w6 : string) : string :=
  w1 ++ hs ++ w2 ++ "," ++ w3 ++ ss ++ "%" ++ w4 ++ ","
  ++ w5 ++ ls ++ "%" ++ w6 ++ ")".

(** The characters of an HSL literal after its [hsl(] *)
Definition body_char (c : ascii) : bool :=
  is_space c || is_digit c || Ascii.eqb c "," || Ascii.eqb c "%"
  || Ascii.eqb c ")".

(** The characters of an HSL literal *)
Definition literal_char (c : ascii) : bool :=
  body_char c || Ascii.eqb c "h" || Ascii.eqb c "s" || Ascii.eqb c "l"
  || Ascii.eqb c "(".

(** ** Truncation, and the finite ranges of the conversions *)

(** [x], which is not negative, cut to the integer [z]: [z <= x < z + 1] *)
Definition cut_to (x : float) (z : Z) : Prop :=
  (PyFloat.float_of_nonneg z <=? x)%float = true /\
  (x <? PyFloat.float_of_nonneg (z + 1))%float = true.

(** The same, decided on machine integers together with [z <= hi] *)
Definition cut_within (x : float) (hi : int) : bool :=
  negb (is_nan x) && negb (is_infinity x) && negb (x <? 0)%float &&
  (let (m, e) := frshiftexp (abs x) in
   (e <=? 2154)%uint63 &&
   (let t := (normfr_mantissa m >> (2154 - e))%uint63 in
    (t <=? hi)%uint63 &&
    (of_uint63 t <=? x)%float && (x <? of_uint63 (t + 1))%float)).

Definition channel_values : list Z := map Z.of_nat (seq 0 256).

(** [n / 255.0] *)
Definition scaled (n : Z) : result float := PyFloat.int_truediv n 255.

Definition in_unit (x : result float) : bool :=
  match x with
  | Ok f => (0 <=? f)%float && (f <=? 1)%float
  | Raise _ => false
  end.

Definition hsl_within (fr fg fb : result float) : bool :=
  match fr, fg, fb with
  | Ok r, Ok g, Ok b =>
      match colorsys.rgb_to_hls r g b with
      | Ok (h, l, s) =>
          cut_within (h * 360) 359 && cut_within (s * 100) 100
          && cut_within (l * 100) 100
      | Raise _ => false
      end
  | _, _, _ => false
  end.

Definition scaled_values : list (result float) := map scaled channel_values.

(** [n / 255.0] as a float *)
Definition channel (n : Z) : float :=
  match scaled n with Ok f => f | Raise _ => nan end.

Definition channels : list (Z * float) :=
  map (fun n => (n, channel n)) channel_values.

Definition channel_floats : list float := map snd channels.

Definition is_ok {A : Type} (x : result A) : bool :=
  match x with Ok _ => true | Raise _ => false end.

(** The saturation of [colorsys.rgb_to_hls], from the largest and the
    smallest component *)
Definition saturation_of (maxc minc : float) : result float :=
  if ((maxc + minc) / 2 <=? 0.5)%float
  then PyFloat.truediv (maxc - minc) (maxc + minc)
  else PyFloat.truediv (maxc - minc) (2 - maxc - minc).

(** The hue of [colorsys.rgb_to_hls] when the components are not all equal *)
Definition hue_of (r g b : float) : float :=
  let maxc := PyFloat.max3 r g b in
  let minc := PyFloat.min3 r g b in
  let rangec := (maxc - minc)%float in
  let rc := ((maxc - r) / rangec)%float in
  let gc := ((maxc - g) / rangec)%float in
  let bc := ((maxc - b) / rangec)%float in
  let h := (if r =? maxc then bc - gc
            else if g =? maxc then 2 + rc - bc
            else 4 + gc - rc)%float in
  PyFloat.mod1 (h / 6).

(** Lightness and saturation are in range for a largest and a smallest
    component. *)
Definition pair_within (maxc minc : float) : bool :=
  cut_within ((maxc + minc) / 2 * 100) 100 &&
  (if (minc =? maxc)%float then true
   else negb (maxc - minc =? 0)%float &&
        match saturation_of maxc minc with
        | Ok s => cut_within (s * 100) 100
        | Raise _ => false
        end).

(** The hue is in range for three components. *)
Definition hue_within (r g b : float) : bool :=
  (PyFloat.min3 r g b =? PyFloat.max3 r g b)%float
  || cut_within (hue_of r g b * 360) 359.

Definition hue_values : list (result float) :=
  map (fun n => PyFloat.int_truediv (Z.of_nat n) 360) (seq 0 361).

Definition percent_values : list (result float) :=
  map (fun n => PyFloat.int_truediv (Z.of_nat n) 100) (seq 0 101).

Definition rgb_channels_within (fh fs fl : result float) : bool :=
  match fh, fs, fl with
  | Ok h, Ok s, Ok l =>
      let '(r, g, b) := colorsys.hls_to_rgb h l s in
      cut_within (r * 255) 255 && cut_within (g * 255) 255
      && cut_within (b * 255) 255
  | _, _, _ => false
  end.

(** [int(s, 16)] on two hex digits *)
Definition byte_of_pair (c1 c2 : ascii) : bool :=
  implb (is_hexdigit c1 && is_hexdigit c2)
        (match int16 (String (lower_char c1) (String (lower_char c2) EmptyString)) with
         | Ok v => (0 <=? v) && (v <=? 255)
         | Raise _ => false
         end).

(** ** Categories *)

(** The categories as the specification words them: the hue intervals *)
Definition hue_bucket (h : Z) : option string :=
  if ((345 <=? h) && (h <? 360)) || ((0 <=? h) && (h <? 15)) then Some "red"
  else if (15 <=? h) && (h <? 45) then Some "orange"
  else if (45 <=? h) && (h <? 75) then Some "yellow"
  else if (75 <=? h) && (h <? 165) then Some "green"
  else if (165 <=? h) && (h <? 195) then Some "teal"
  else if (195 <=? h) && (h <? 255) then Some "blue"
  else if (255 <=? h) && (h <? 315) then Some "purple"
  else if (315 <=? h) && (h <? 345) then Some "pink"
  else None.

Definition categorize_hsl (h s l : Z) : option string :=
  if s <? 10 then
    if l <? 10 then Some "black"
    else if l >? 90 then Some "white"
    else Some "gray"
  else hue_bucket h.

Definition categories : list string :=
  ["red"; "orange"; "yellow"; "green"; "teal"; "blue"; "purple"; "pink";
   "gray"; "black"; "white"].

(** The hue chain of [determine_color_category] *)
Definition hue_chain (h : Z) : result string :=
  if (h <? 15) || (h >=? 345) then Ok "red"
  else if h <? 45 then Ok "orange"
  else if h <? 75 then Ok "yellow"
  else if h <? 165 then Ok "green"
  else if h <? 195 then Ok "teal"
  else if h <? 255 then Ok "blue"
  else if h <? 315 then Ok "purple"
  else Ok "pink".

Definition hue_agrees (h : Z) : bool :=
  match hue_bucket h, hue_chain h with
  | Some c, Ok c' => String.eqb c c' && mem c categories
  | _, _ => false
  end.

(** ** The HSL conversion as the specification words it *)

(** Modelled from the spec: the nearest integer to [x], a half going away
    from zero. *)
Definition round_to_nearest (x : float) : result Z :=
  z <- PyFloat.int_of_float x ;;
  f <- PyFloat.float_of_int z ;;
  Ok (if (0.5 <=? abs (x - f))%float
      then if (x <? 0)%float then z - 1 else z + 1
      else z).

(** Modelled from the spec: the HSL conversion with each channel rounded
    to the nearest integer after scaling by 255. *)
Definition spec_hsl_hex_value (h s l : Z) : result string :=
  h <- PyFloat.int_truediv h 360 ;;
  s <- PyFloat.int_truediv s 100 ;;
  l <- PyFloat.int_truediv l 100 ;;
  let '(r, g, b) := colorsys.hls_to_rgb h l s in
  r <- round_to_nearest (r * 255) ;;
  g <- round_to_nearest (g * 255) ;;
  b <- round_to_nearest (b * 255) ;;
  Ok (hex_value_of r g b).

(** ** The aggregator *)

(** What a later contribution keeps of a record *)
Definition same_identity (r r' : ColorRecord) : Prop :=
  name r' = name r /\ color_format r' = color_format r /\
  category r' = category r.

(** The files of the list, each once, whose colors include [key] *)
Definition files_with_color (fs : filesystem) (files : list string)
           (key : string) : list string :=
  nodup string_dec
        (filter (fun f => d_mem (Some key) (fst (analyze_file fs f))) files).

(** The file at [file_path] holds the color [key] *)
Definition holds (fs : filesystem) (key : string) (file_path : string) : bool :=
  d_mem (Some key) (fst (analyze_file fs file_path)).

(** What the records say of the files processed so far *)
Definition counted (fs : filesystem) (done : list string) (cd : color_data_t)
  : Prop :=
  forall k,
    match d_get k cd with
    | Some r =>
        count r = Z.of_nat (List.length (filter (holds fs k) done)) /\
        1 <= count r /\
        unique r = (count r =? 1) /\
        NoDup (locations r) /\
        (forall f, In f (locations r) <-> In f done /\ holds fs k f = true)
    | None => filter (holds fs k) done = []
    end.

(** ** The watch loop *)

Section WatchStatements.
Variable env : nat -> world.
Variable files : list string.

(** Some tracked file shows, when the pass examines it, a time above
    the one on record for it. *)
Definition advanced (w : world) (last : dict string float) : Prop :=
  exists before f after mtime,
    files = (before ++ f :: after)%list /\
    getmtime w f = Ok mtime /\
    (last_time (snd (check_files w before last)) f <? mtime)%float = true.

(** The times on record after [j] passes that started at instant [i]
    with [last] on record *)
Fixpoint recorded (i : nat) (last : dict string float) (j : nat)
  : dict string float :=
  match j with
  | O => last
  | S j' => snd (check_files (env (i + j')) files (recorded i last j'))
  end.
End WatchStatements.

(** ** Inputs *)

Definition two_files : filesystem :=
  fun p =>
    if String.eqb p "a.css" then Ok "color: rgb(255, 0, 0);"
    else if String.eqb p "b.css" then Ok "color: RED; border: #ff0000"
    else Raise (OSError "[Errno 2] No such file or directory").

Definition one_unreadable : filesystem :=
  fun p =>
    if String.eqb p "a.css" then Ok "a { color: #FFF }"
    else if String.eqb p "c.css" then Ok "b { color: white }"
    else Raise (OSError "[Errno 13] Permission denied: 'b.css'").

Definition style_css : filesystem :=
  fun p =>
    if String.eqb p "style.css" then Ok "a { color: rgb(999999,0,0) }"
    else Raise (OSError "[Errno 2] No such file or directory").

Definition white_css : filesystem :=
  fun p =>
    if String.eqb p "a.css" then Ok "a { color: #fff }"
    else Raise (OSError "[Errno 2] No such file or directory").

Definition alpha_css : filesystem :=
  fun p =>
    if String.eqb p "a.css" then Ok "a { color: #fff; background: rgba(255, 0, 0, 0.5) }"
    else Raise (OSError "[Errno 2] No such file or directory").

Definition still_world : nat -> world :=
  fun _ => {| getmtime := fun _ => Ok 100%float;
              contents := fun _ => Ok "a { color: red }" |}.

(** ** Keys and channels *)

(** [f'{n:02x}'] is two lowercase hexadecimal digits that [int(_, 16)]
    reads back as [n]. *)
Definition byte_round_trip (n : Z) : bool :=
  match format_02x n with
  | String c1 (String c2 EmptyString) =>
      is_lower_hexdigit c1 && is_lower_hexdigit c2
      && Ascii.eqb (lower_char c1) c1 && Ascii.eqb (lower_char c2) c2
      && match int16 (String c1 (String c2 EmptyString)) with
         | Ok v => v =? n
         | Raise _ => false
         end
  | _ => false
  end.

(** [int(_, 16)] of two hexadecimal digits is a number that [:02x] writes
    as the two digits in lowercase. *)
Definition pair_round_trip (c1 c2 : ascii) : bool :=
  implb (is_hexdigit c1 && is_hexdigit c2)
        (match int16 (String (lower_char c1) (String (lower_char c2) EmptyString)) with
         | Ok v =>
             String.eqb (format_02x v)
                        (String (lower_char c1) (String (lower_char c2) EmptyString))
         | Raise _ => false
         end).

(** [f'{n:02x}'] is two lowercase hexadecimal digits *)
Definition two_hex_digits (n : Z) : bool :=
  (String.length (format_02x n) =? 2)%nat
  && all_chars is_lower_hexdigit (format_02x n).

(** [#] and three hex digits *)
Definition valid_hex3 (s : string) : bool :=
  match s with
  | String "#" t =>
      (String.length t =? 3)%nat && forallb is_hexdigit (list_ascii_of_string t)
  | _ => false
  end.

Definition lower_char_facts (c : ascii) : bool :=
  Ascii.eqb (lower_char (lower_char c)) (lower_char c)
  && implb (is_hexdigit c) (is_lower_hexdigit (lower_char c))
  && implb (is_lower_hexdigit c) (Ascii.eqb (lower_char c) c).

(** The category of the gray with the three channels at [v] *)
Definition gray_category (v : Z) : string :=
  if v <=? 25 then "black" else if 233 <=? v then "white" else "gray".

Definition gray_facts (v : Z) : bool :=
  match rgb_to_hsl v v v, determine_color_category (hex_value_of v v v) with
  | Ok (h, s, l), Ok c =>
      (h =? 0) && (s =? 0) && (l =? v * 100 / 255) && String.eqb c (gray_category v)
  | _, _ => false
  end.

(** ** The aggregate *)

(** The entries of a file's colors: each holds at least one spelling and
    none twice. *)
Definition well_formed (cm : color_matches) : Prop :=
  forall key vs,
    d_get key cm = Some vs -> (exists v0 tl, vs = v0 :: tl) /\ NoDup vs.

(** The file at [file_path] spells the color [key] as [v] *)
Definition spells (fs : filesystem) (key v : string) (file_path : string)
  : Prop :=
  exists vs,
    d_get (Some key) (fst (analyze_file fs file_path)) = Some vs /\ In v vs.

(** What the records say of the spellings in the files processed so far *)
Definition spelled (fs : filesystem) (done : list string) (cd : color_data_t)
  : Prop :=
  forall k r,
    d_get k cd = Some r ->
    NoDup (variations r) /\
    (forall v, In v (variations r) <-> exists f, In f done /\ spells fs k v f).

Definition in_category (c : string) (r : ColorRecord) : bool :=
  String.eqb (category r) c.

(** The records of category [c], in the order of the aggregate *)
Definition of_category (c : string) (cd : color_data_t) : list ColorRecord :=
  filter (in_category c) (map snd cd).

(** The categories in the order in which the aggregate first shows them *)
Definition category_order (cd : color_data_t) : list string :=
  fold_left (fun seen kv => append_new (category (snd kv)) seen) cd [].

Definition saturated_css : filesystem :=
  fun p =>
    if String.eqb p "a.css" then Ok "a{color:hsl(0,200%,50%)}"
    else Raise (OSError "[Errno 2] No such file or directory").

(** ** The watch loop *)

(** No time that [w] shows for [f] is above the one on record. *)
Definition settled (w : world) (last : dict string float) (f : string) : Prop :=
  forall mtime,
    getmtime w f = Ok mtime -> (last_time last f <? mtime)%float = false.

(** ** What a pattern can match

    [matches ic r pv s cs pv' s' cs']: the pattern [r] can take a prefix
    of the text [s], which [pv] precedes, and leave [s'], which [pv']
    precedes, the groups [cs] becoming [cs'].  The matcher finds one such
    prefix, the first in the order of [re]. *)
Fixpoint matches (ic : bool) (r : regex) (pv : option ascii) (s : string)
         (cs : list (nat * string)) (pv' : option ascii) (s' : string)
         (cs' : list (nat * string)) {struct r} : Prop :=
  match r with
  | Eps => pv' = pv /\ s' = s /\ cs' = cs
  | Chr c =>
      exists a, s = String a s' /\ chr_matches ic c a = true /\
                pv' = Some a /\ cs' = cs
  | Cls p =>
      exists a, s = String a s' /\ p a = true /\ pv' = Some a /\ cs' = cs
  | Star p =>
      exists w, s = w ++ s' /\ all_chars p w = true /\
                pv' = last_of pv w /\ cs' = cs
  | Plus p =>
      exists w, s = w ++ s' /\ w <> EmptyString /\ all_chars p w = true /\
                pv' = last_of pv w /\ cs' = cs
  | Rep n p =>
      exists w, s = w ++ s' /\ String.length w = n /\ all_chars p w = true /\
                pv' = last_of pv w /\ cs' = cs
  | Opt r =>
      matches ic r pv s cs pv' s' cs' \/ (pv' = pv /\ s' = s /\ cs' = cs)
  | Seq r1 r2 =>
      exists pv1 s1 cs1,
        matches ic r1 pv s cs pv1 s1 cs1 /\ matches ic r2 pv1 s1 cs1 pv' s' cs'
  | Alt r1 r2 =>
      matches ic r1 pv s cs pv' s' cs' \/ matches ic r2 pv s cs pv' s' cs'
  | Grp i r =>
      exists cs0, matches ic r pv s cs pv' s' cs0 /\ cs' = (i, taken s s') :: cs0
  | Bnd => at_boundary pv s = true /\ pv' = pv /\ s' = s /\ cs' = cs
  end.

(** ** The colors of a text *)

(** The formats of the spellings that the extractor can record *)
Definition recorded_formats : list string := ["hex"; "rgb"; "hsl"; "named"].

(** A name of [NAMED_COLORS] is in lowercase, its color is canonical and
    its format is [named]. *)
Definition named_facts (kv : string * string) : bool :=
  String.eqb (lower (fst kv)) (fst kv)
  && String.eqb (format_of_color (fst kv)) "named"
  && match d_get (fst kv) NAMED_COLORS with
     | Some hex => canonical hex
     | None => false
     end.

(** The numbers that the groups of a match write *)
Definition numbers (m : match_object) : list Z :=
  map (fun g => match g with Some d => decimal d 0 | None => 0 end) (groups m).

(** No group of the match is longer than the 4300 digits that [int]
    takes. *)
Definition short_numbers (m : match_object) : bool :=
  forallb (fun g => match g with
                    | Some d => (String.length d <=? 4300)%nat
                    | None => true
                    end) (groups m).

(** Every key is a canonical color. *)
Definition canonical_keys (cm : color_matches) : Prop :=
  forall key, In key (d_keys cm) -> exists k, key = Some k /\ canonical k = true.

(** Every key is a string and every spelling has one of the four
    formats. *)
Definition plain_entries (cm : color_matches) : Prop :=
  forall key vs,
    d_get key cm = Some vs ->
    (exists k, key = Some k) /\
    (forall v, In v vs -> In (format_of_color v) recorded_formats).

(** Every match of the pattern of the names is, in lowercase, a name of
    [NAMED_COLORS], so that [NAMED_COLORS.get] finds it.  (Every text of
    code points below 256 is so; beyond them the pattern also matches
    text that [str.lower] leaves no name, and the key is then [None].) *)
Definition names_are_keys (content : string) : Prop :=
  forall m,
    In m (finditer true NAMED_COLOR_REGEX content) ->
    d_mem (lower (group0 m)) NAMED_COLORS = true.

(** The dictionary holds the spelling [color] under [key]. *)
Definition has_spelling (key : option string) (color : string)
           (cm : color_matches) : Prop :=
  exists vs, d_get key cm = Some vs /\ In color vs.

Definition sample_css : string :=
  "a{color:#FFF;fill:rgb(255, 0,128);top:hsl(200,50%,50%) red}".

(** The one match of the HSL pattern in [sample_css] *)
Definition sample_hsl_match : match_object :=
  {| group0 := "hsl(200,50%,50%)";
     groups := [Some "200"; Some "50"; Some "50"] |}.

(** ** Finding the files *)

(** [p] leads from a directory with the entries [es] to a file below it. *)
Inductive file_at : list entry -> list string -> Prop :=
| file_here es n : In (File n) es -> file_at es [n]
| file_below es d sub p :
    In (Dir d sub) es -> file_at sub p -> file_at es (d :: p).

Definition no_dot (s : string) : bool :=
  all_chars (fun c => negb (Ascii.eqb c ".")) s.

Fixpoint depth (e : entry) : nat :=
  match e with
  | File _ => O
  | Dir _ es => S (fold_right (fun e' n => Nat.max (depth e') n) O es)
  end.

(** The body of the two loops of [find_files] *)
Definition found (extensions : list string)
           (walked : list (list string * list string)) : list (list string) :=
  flat_map
    (fun '(root, names) =>
       flat_map
         (fun filename =>
            let file_path := (root ++ [filename])%list in
            if has_extension extensions filename then [file_path] else [])
         names)
    walked.

Definition style_tree : list entry :=
  [File "a.css"; File ".css"; Dir "lib" [File "B.SCSS"; File "notes.txt"]].

(** ** Texts without colors *)

(** Neither [#] nor a letter of the English alphabet *)
Definition colorless (c : ascii) : bool :=
  negb (between 65 90 c || between 97 122 c || (code c =? 35)%N).

(** ** Literals of the RGB pattern *)

(** [rgb(] [r] [,] [g] [,] [b] [)] with any white space the pattern allows *)
Definition rgb_literal (w1 rs w2 w3 gs w4 w5 bs w6 : string) : string :=
  "rgb(" ++ w1 ++ rs ++ w2 ++ "," ++ w3 ++ gs ++ w4 ++ ","
  ++ w5 ++ bs ++ w6 ++ ")".

(** What follows [rgb(] in such a literal *)
Definition rgb_body (w1 rs w2 w3 gs w4 w5 bs w6 : string) : string :=
  w1 ++ rs ++ w2 ++ "," ++ w3 ++ gs ++ w4 ++ "," ++ w5 ++ bs ++ w6 ++ ")".

(** The characters of an RGB literal *)
Definition rgb_char (c : ascii) : bool :=
  body_char c || Ascii.eqb c "r" || Ascii.eqb c "g" || Ascii.eqb c "b"
  || Ascii.eqb c "(".

(** ** Runs on files in range *)

(** Every record is filed under its key, a canonical color, with one of
    the eleven categories. *)
Definition canonical_records (cd : color_data_t) : Prop :=
  forall k r,
    d_get k cd = Some r ->
    canonical k = true /\ name r = k /\ In (category r) categories.

(** ** Literals of the hex pattern *)

(** [#] or a hexadecimal digit *)
Definition hexish (c : ascii) : bool := is_hexdigit c || Ascii.eqb c "#".

Definition hexish_facts (c : ascii) : bool :=
  implb (hexish c) (hexish (lower_char c))
  && implb (is_hexdigit c) (is_word c).

(** Some letter of the name is no hexadecimal digit. *)
Definition not_hexish (kv : string * string) : bool :=
  negb (all_chars hexish (fst kv)).

(** ** A name alone *)

(** A letter of the English alphabet *)
Definition is_letter (c : ascii) : bool := between 65 90 c || between 97 122 c.

Definition letter_facts (c : ascii) : bool :=
  implb (between 97 122 (lower_char c)) (is_letter c)
  && implb (is_letter c) (is_word c && negb (Ascii.eqb c "(") && negb (Ascii.eqb c "#")).

(** A name is made of small letters of the English alphabet, and of one
    at least. *)
Definition small_letters (kv : string * string) : bool :=
  all_chars (between 97 122) (fst kv)
  && match fst kv with EmptyString => false | String _ _ => true end.

(** * Dictionaries *)

Section DictFacts.
Context {K V : Type} `{Eqb K}.

Lemma eqb_refl (k : K) : eqb k k = true.
Proof. destruct (eqb_spec k k); congruence. Qed.

Lemma eqb_neq (k k' : K) : k <> k' -> eqb k k' = false.
Proof. destruct (eqb_spec k k'); congruence. Qed.

Lemma d_get_set_same (k : K) (v : V) (d : dict K V) :
  d_get k (d_set k v d) = Some v.
Proof.
  induction d as [|[k' v'] d IH]; simpl.
  - now rewrite eqb_refl.
  - destruct (eqb_spec k k') as [->|Hne]; simpl.
    + now rewrite eqb_refl.
    + now rewrite (eqb_neq _ _ Hne).
Qed.

Lemma d_get_set_other (k k' : K) (v : V) (d : dict K V) :
  k' <> k -> d_get k' (d_set k v d) = d_get k' d.
Proof.
  intros Hne. induction d as [|[k0 v0] d IH]; simpl.
  - now rewrite (eqb_neq _ _ Hne).
  - destruct (eqb_spec k k0) as [->|Hk]; simpl.
    + now rewrite (eqb_neq _ _ Hne).
    + destruct (eqb k' k0); auto.
Qed.
End DictFacts.

Lemma bind_Ok {A B} (c : result A) (k : A -> result B) (b : B) :
  bind c k = Ok b -> exists a, c = Ok a /\ k a = Ok b.
Proof. destruct c; simpl; intros; [eauto | discriminate]. Qed.

(** * The aggregator *)

Lemma add_color_frame file_str cd item cd' k r :
  add_color file_str cd item = Ok cd' ->
  d_get k cd = Some r ->
  exists r', d_get k cd' = Some r' /\ same_identity r r'.
Proof.
  unfold add_color. destruct item as [[nv|] vs].
  - destruct (d_get nv cd) as [r0|] eqn:Hnv.
    + intros [= <-] Hk. destruct (eqb_spec k nv) as [->|Hne].
      * rewrite d_get_set_same. rewrite Hk in Hnv. injection Hnv as ->.
        eexists; split; [reflexivity|]. now repeat split.
      * rewrite d_get_set_other by assumption.
        exists r. split; [assumption|]. now repeat split.
    + intros Hb Hk.
      apply bind_Ok in Hb as (v0 & _ & Hb).
      apply bind_Ok in Hb as (c & _ & [= <-]).
      destruct (eqb_spec k nv) as [->|Hne]; [congruence|].
      rewrite d_get_set_other by assumption.
      exists r. split; [assumption|]. now repeat split.
  - intros Hb. apply bind_Ok in Hb as (v0 & _ & Hb). discriminate.
Qed.

Lemma same_identity_trans r1 r2 r3 :
  same_identity r1 r2 -> same_identity r2 r3 -> same_identity r1 r3.
Proof. unfold same_identity. intuition congruence. Qed.

Lemma for_each_add_color_frame file_str items : forall cd cd' k r,
  for_each items (add_color file_str) cd = Ok cd' ->
  d_get k cd = Some r ->
  exists r', d_get k cd' = Some r' /\ same_identity r r'.
Proof.
  induction items as [|item items IH]; simpl; intros cd cd' k r Hrun Hk.
  - injection Hrun as <-. exists r. split; [assumption|]. now repeat split.
  - apply bind_Ok in Hrun as (cd1 & Hstep & Hrun).
    destruct (add_color_frame _ _ _ _ _ _ Hstep Hk) as (r1 & Hk1 & Hs1).
    destruct (IH _ _ _ _ Hrun Hk1) as (r2 & Hk2 & Hs2).
    exists r2. split; [assumption|]. eapply same_identity_trans; eassumption.
Qed.

Lemma aggregate_frame fs files : forall cd err cd' err' k r,
  aggregate fs files cd err = (Ok cd', err') ->
  d_get k cd = Some r ->
  exists r', d_get k cd' = Some r' /\ same_identity r r'.
Proof.
  induction files as [|f files IH]; simpl; intros cd err cd' err' k r Hrun Hk.
  - injection Hrun as <- <-. exists r. split; [assumption|]. now repeat split.
  - destruct (analyze_file fs f) as [file_colors lines].
    destruct (for_each file_colors (add_color f) cd) as [cd1|e] eqn:Hf;
      [|discriminate].
    destruct (for_each_add_color_frame _ _ _ _ _ _ Hf Hk) as (r1 & Hk1 & Hs1).
    destruct (IH _ _ _ _ _ _ Hrun Hk1) as (r2 & Hk2 & Hs2).
    exists r2. split; [assumption|]. eapply same_identity_trans; eassumption.
Qed.

(** A record is made from the first item of its key *)
Lemma for_each_add_color_absent file_str items : forall cd cd' k,
  for_each items (add_color file_str) cd = Ok cd' ->
  d_get k cd = None ->
  d_get (Some k) items = None ->
  d_get k cd' = None.
Proof.
  induction items as [|[key vs] items IH]; cbn [for_each d_get];
    intros cd cd' k Hrun Hk Hit.
  - now injection Hrun as <-.
  - apply bind_Ok in Hrun as (cd1 & Hstep & Hrun).
    revert Hit. destruct (eqb_spec (Some k) key) as [<-|Hne]; [discriminate|].
    intros Hit.
    apply (IH _ _ _ Hrun); [|assumption].
    unfold add_color in Hstep. destruct key as [nv|].
    + assert (k <> nv) by congruence.
      destruct (d_get nv cd) as [r0|].
      * injection Hstep as <-. now rewrite d_get_set_other.
      * apply bind_Ok in Hstep as (v0 & _ & Hstep).
        apply bind_Ok in Hstep as (c & _ & [= <-]).
        now rewrite d_get_set_other.
    + apply bind_Ok in Hstep as (v0 & _ & Hstep). discriminate.
Qed.

Lemma for_each_add_color_created file_str items : forall cd cd' k vs,
  for_each items (add_color file_str) cd = Ok cd' ->
  d_get k cd = None ->
  d_get (Some k) items = Some vs ->
  exists r v0 tl,
    vs = v0 :: tl /\ d_get k cd' = Some r /\ name r = k /\
    color_format r = format_of_color v0 /\
    determine_color_category k = Ok (category r).
Proof.
  induction items as [|[key vs0] items IH]; cbn [for_each d_get];
    intros cd cd' k vs Hrun Hk Hit.
  - discriminate.
  - apply bind_Ok in Hrun as (cd1 & Hstep & Hrun).
    revert Hit. destruct (eqb_spec (Some k) key) as [<-|Hne]; intros Hit.
    + injection Hit as ->. unfold add_color in Hstep. rewrite Hk in Hstep.
      apply bind_Ok in Hstep as (v0 & Hv0 & Hstep).
      apply bind_Ok in Hstep as (c & Hc & [= <-]).
      destruct vs as [|v tl]; [discriminate|]. injection Hv0 as ->.
      destruct (for_each_add_color_frame _ _ _ _ k _ Hrun (d_get_set_same _ _ _))
        as (r' & Hk' & Hn & Hf & Hcat).
      exists r', v0, tl. simpl in *. repeat split; try congruence.
    + apply (IH _ _ _ _ Hrun); [|assumption].
      unfold add_color in Hstep. destruct key as [nv|].
      * assert (k <> nv) by congruence.
        destruct (d_get nv cd) as [r0|].
        -- injection Hstep as <-. now rewrite d_get_set_other.
        -- apply bind_Ok in Hstep as (v0 & _ & Hstep).
           apply bind_Ok in Hstep as (c & _ & [= <-]).
           now rewrite d_get_set_other.
      * apply bind_Ok in Hstep as (v0 & _ & Hstep). discriminate.
Qed.

Lemma aggregate_created fs files : forall cd err cd' err' k r,
  aggregate fs files cd err = (Ok cd', err') ->
  d_get k cd = None ->
  d_get k cd' = Some r ->
  exists before f after v0 tl,
    files = (before ++ f :: after)%list /\
    (forall g, In g before -> d_get (Some k) (fst (analyze_file fs g)) = None) /\
    d_get (Some k) (fst (analyze_file fs f)) = Some (v0 :: tl) /\
    name r = k /\
    color_format r = format_of_color v0 /\
    determine_color_category k = Ok (category r).
Proof.
  induction files as [|f files IH]; simpl; intros cd err cd' err' k r Hrun Hk Hk'.
  - injection Hrun as <- <-. congruence.
  - destruct (analyze_file fs f) as [file_colors lines] eqn:Hf.
    destruct (for_each file_colors (add_color f) cd) as [cd1|e] eqn:Hfe;
      [|discriminate].
    destruct (d_get (Some k) file_colors) as [vs|] eqn:Hit.
    + destruct (for_each_add_color_created _ _ _ _ _ _ Hfe Hk Hit)
        as (r1 & v0 & tl & -> & Hk1 & Hn & Hfm & Hc).
      destruct (aggregate_frame _ _ _ _ _ _ _ _ Hrun Hk1)
        as (r2 & Hk2 & Hn2 & Hf2 & Hc2).
      assert (r2 = r) by congruence. subst r2.
      exists [], f, files, v0, tl. rewrite Hf. simpl.
      repeat split; try congruence; try tauto.
    + pose proof (for_each_add_color_absent _ _ _ _ _ Hfe Hk Hit) as Hk1.
      destruct (IH _ _ _ _ _ _ Hrun Hk1 Hk')
        as (before & g & after & v0 & tl & -> & Hb & Hg & Hn & Hfm & Hc).
      exists (f :: before), g, after, v0, tl. repeat split; try assumption.
      intros g' [<-|Hin]; [now rewrite Hf|auto].
Qed.

Lemma aggregate_app fs before : forall after cd err,
  aggregate fs (before ++ after) cd err =
  match aggregate fs before cd err with
  | (Ok cd1, err1) => aggregate fs after cd1 err1
  | (Raise e, err1) => (Raise e, err1)
  end.
Proof.
  induction before as [|f before IH]; intros after cd err; cbn [aggregate app].
  - reflexivity.
  - destruct (analyze_file fs f) as [file_colors lines].
    destruct (for_each file_colors (add_color f) cd) as [cd1|e]; [apply IH|reflexivity].
Qed.

(** The lines already on [sys.stderr] play no part in what follows. *)
Lemma aggregate_err fs files : forall cd err,
  aggregate fs files cd err =
  (fst (aggregate fs files cd []), (err ++ snd (aggregate fs files cd []))%list).
Proof.
  induction files as [|f files IH]; intros cd err; cbn [aggregate].
  - cbn. now rewrite app_nil_r.
  - destruct (analyze_file fs f) as [file_colors lines].
    destruct (for_each file_colors (add_color f) cd) as [cd1|e].
    + rewrite (IH cd1 (err ++ lines)%list), (IH cd1 ([] ++ lines)%list).
      cbn. now rewrite app_assoc.
    + reflexivity.
Qed.

(** C8: the record of a color in the aggregate has for [color_format] the
    format of the first variation that the first file holding the color
    gave for it, for [name] the color and for [category] its category;
    and whatever files are processed after, the record of the color keeps
    these three fields. *)
Theorem color_format_fixed_at_first_sight :
  forall fs files cd err k r,
    aggregate fs files [] [] = (Ok cd, err) ->
    d_get k cd = Some r ->
    (exists before f after v0 tl,
        files = (before ++ f :: after)%list /\
        (forall g, In g before ->
                   d_get (Some k) (fst (analyze_file fs g)) = None) /\
        d_get (Some k) (fst (analyze_file fs f)) = Some (v0 :: tl) /\
        name r = k /\
        color_format r = format_of_color v0 /\
        determine_color_category k = Ok (category r)) /\
    (forall later cd2 err2,
        aggregate fs (files ++ later) [] [] = (Ok cd2, err2) ->
        exists r2,
          d_get k cd2 = Some r2 /\ name r2 = name r /\
          color_format r2 = color_format r /\ category r2 = category r).
Proof.
  intros fs files cd err k r Hrun Hk. split.
  - eapply aggregate_created; [eassumption|reflexivity|assumption].
  - intros later cd2 err2 Hlater.
    rewrite aggregate_app, Hrun in Hlater.
    eapply aggregate_frame; eassumption.
Qed.

(** C8 at a color first written [rgb(255, 0, 0)], then [RED] and
    [#ff0000] in a later file: the format stays [rgb] *)
Lemma color_format_fixed_witness :
  exists cd err r,
    aggregate two_files ["a.css"] [] [] = (Ok cd, err) /\
    d_get "#ff0000" cd = Some r /\
    color_format r = "rgb" /\
    forall cd2 err2,
      aggregate two_files ["a.css"; "b.css"] [] [] = (Ok cd2, err2) ->
      exists r2, d_get "#ff0000" cd2 = Some r2 /\ color_format r2 = "rgb".
Proof.
  destruct (aggregate two_files ["a.css"] [] [])
    as [[cd|e] err] eqn:Hrun; [|vm_compute in Hrun; discriminate].
  destruct (d_get "#ff0000" cd) as [r|] eqn:Hk.
  - destruct (color_format_fixed_at_first_sight _ _ _ _ _ _ Hrun Hk)
      as [_ Hlater].
    assert (Hrgb : color_format r = "rgb").
    { vm_compute in Hrun. injection Hrun as <- _.
      vm_compute in Hk. injection Hk as <-. reflexivity. }
    exists cd, err, r. split; [reflexivity|]. split; [exact Hk|].
    split; [exact Hrgb|].
    intros cd2 err2 Hrun2.
    destruct (Hlater ["b.css"] cd2 err2 Hrun2) as (r2 & Hget & _ & Hfmt & _).
    exists r2. split; [exact Hget|]. now rewrite Hfmt.
  - exfalso. vm_compute in Hrun. injection Hrun as <- _.
    vm_compute in Hk. discriminate.
Defined.

(** C9: when reading a file raises, [analyze_file] returns no colors for
    it and one line on [sys.stderr] that names the path and the cause;
    the loop goes on to the files after it with the aggregate unchanged;
    and the report of the run is the report of the run without that
    file. *)
Theorem read_failure_is_skipped :
  forall fs file_path e,
    fs file_path = Raise e ->
    let line := "Error analyzing " ++ file_path ++ ": " ++ exn_str e in
    analyze_file fs file_path = ([], [line]) /\
    (forall after cd err,
        aggregate fs (file_path :: after) cd err =
        aggregate fs after cd (err ++ [line])%list) /\
    (forall before after,
        fst (process_files fs (before ++ file_path :: after)) =
        fst (process_files fs (before ++ after))).
Proof.
  intros fs file_path e Hread line.
  assert (Han : analyze_file fs file_path = ([], [line])).
  { unfold analyze_file. rewrite Hread. reflexivity. }
  assert (Hstep : forall after cd err,
             aggregate fs (file_path :: after) cd err =
             aggregate fs after cd (err ++ [line])%list).
  { intros after cd err. cbn [aggregate]. rewrite Han. reflexivity. }
  repeat split; try assumption.
  intros before after. unfold process_files.
  rewrite !aggregate_app.
  destruct (aggregate fs before [] []) as [[cd1|e1] err1]; [|reflexivity].
  rewrite Hstep.
  rewrite (aggregate_err fs after cd1 (err1 ++ [line])%list).
  rewrite (aggregate_err fs after cd1 err1).
  reflexivity.
Qed.

(** C9 at a file that cannot be opened between two that can *)
Lemma read_failure_witness :
  analyze_file one_unreadable "b.css" =
    ([], ["Error analyzing b.css: [Errno 13] Permission denied: 'b.css'"]) /\
  fst (process_files one_unreadable ["a.css"; "b.css"; "c.css"]) =
  fst (process_files one_unreadable ["a.css"; "c.css"]).
Proof.
  destruct (read_failure_is_skipped one_unreadable "b.css" _ eq_refl)
    as (Han & _ & Hrun).
  split; [exact Han|]. exact (Hrun ["a.css"] ["c.css"]).
Defined.

(** C3, at the input where the code departs from it: when the list of
    files names [a.css] twice, the record of [#ffffff] ends with
    [count = 2], though one file only holds the color, as [locations]
    itself says. *)
Theorem repeated_path_counts_twice :
  exists r,
    process_files white_css ["a.css"; "a.css"] = (Ok [("white", [r])], []) /\
    name r = "#ffffff" /\ count r = 2 /\ locations r = ["a.css"] /\
    files_with_color white_css ["a.css"; "a.css"] "#ffffff" = ["a.css"].
Proof. eexists. repeat apply conj; vm_compute; reflexivity. Qed.

(** C4, at the input where the code departs from it: after [a.css] alone
    [unique] is true; after [a.css] a second time it is false, though the
    color has still been seen in that one file only. *)
Theorem repeated_path_ends_unique :
  exists r1 r2,
    process_files white_css ["a.css"] = (Ok [("white", [r1])], []) /\
    process_files white_css ["a.css"; "a.css"] = (Ok [("white", [r2])], []) /\
    unique r1 = true /\ unique r2 = false /\
    files_with_color white_css ["a.css"] "#ffffff" = ["a.css"] /\
    files_with_color white_css ["a.css"; "a.css"] "#ffffff" = ["a.css"].
Proof. do 2 eexists. repeat apply conj; vm_compute; reflexivity. Qed.

Section KeyFacts.
Context {K V : Type} `{Eqb K}.

Lemma d_get_None_keys (k : K) (d : dict K V) :
d_get k d = None <-> ~ In k (d_keys d).
Proof.
induction d as [|[k' v] d IH]; cbn [d_get d_keys map fst In].
- tauto.
- destruct (eqb_spec k k') as [->|Hne].
  + split; [discriminate|]. intros Hn. exfalso. apply Hn. now left.
  + unfold d_keys in IH. rewrite IH. split; [|tauto].
    intros Hn [Heq|Hin]; [congruence|tauto].
Qed.

Lemma d_keys_set (k : K) (v : V) (d : dict K V) :
d_keys (d_set k v d) = if d_mem k d then d_keys d else (d_keys d ++ [k])%list.
Proof.
unfold d_mem. induction d as [|[k' v'] d IH]; cbn [d_set d_get d_keys map fst app].
- reflexivity.
- destruct (eqb_spec k k') as [->|Hne]; cbn [map fst]; [reflexivity|].
  unfold d_keys in IH. rewrite IH. now destruct (d_get k d).
Qed.

Lemma d_set_NoDup (k : K) (v : V) (d : dict K V) :
NoDup (d_keys d) -> NoDup (d_keys (d_set k v d)).
Proof.
intros Hd. rewrite d_keys_set. unfold d_mem.
destruct (d_get k d) eqn:Hk; [assumption|].
apply d_get_None_keys in Hk.
apply NoDup_app; [assumption|repeat constructor; intros []|].
intros x Hx [<-|[]]. contradiction.
Qed.
End KeyFacts.

Lemma for_each_invariant {A S : Type} (Inv : S -> Prop) (body : S -> A -> result S) l :
  (forall s a s', Inv s -> body s a = Ok s' -> Inv s') ->
  forall s s', Inv s -> for_each l body s = Ok s' -> Inv s'.
Proof.
  intros Hb. induction l as [|a l IH]; cbn [for_each]; intros s s' Hs Hrun.
  - now injection Hrun as <-.
  - apply bind_Ok in Hrun as (s1 & H1 & Hrun). eauto.
Qed.

Lemma record_color_NoDup key color (cm : color_matches) :
  NoDup (d_keys cm) -> NoDup (d_keys (record_color key color cm)).
Proof.
  intros Hcm. unfold record_color. cbv zeta.
  match goal with
  | |- context [d_get key ?c] =>
      assert (H1 : NoDup (d_keys c))
        by (destruct (d_mem key cm); [assumption|now apply d_set_NoDup]);
      revert H1; generalize c
  end.
  intros cm1 H1.
  destruct (d_get key cm1) as [l|]; [|assumption].
  destruct (mem color l); [assumption|now apply d_set_NoDup].
Qed.

(** The keys that the extractor returns are pairwise distinct. *)
Lemma extract_keys_NoDup content cm :
  extract_colors_from_content content = Ok cm -> NoDup (d_keys cm).
Proof.
  unfold extract_colors_from_content. intros H.
  assert (Hstep : forall (body : color_matches -> match_object -> result color_matches),
             (forall cm m cm', body cm m = Ok cm' ->
                               exists key color, cm' = record_color key color cm) ->
             forall l cm cm', NoDup (d_keys cm) -> for_each l body cm = Ok cm' ->
                              NoDup (d_keys cm')).
  { intros body Hb l. apply for_each_invariant.
    intros s a s' Hs Ha. destruct (Hb _ _ _ Ha) as (key & color & ->).
    now apply record_color_NoDup. }
  apply bind_Ok in H as (cm1 & H1 & H). apply bind_Ok in H as (cm2 & H2 & H).
  apply bind_Ok in H as (cm3 & H3 & H). apply bind_Ok in H as (cm4 & H4 & H).
  apply bind_Ok in H as (cm5 & H5 & H6).
  eapply Hstep in H1; [| |constructor].
  2:{ intros c m c' [= <-]. eauto. }
  eapply Hstep in H2; [| |exact H1].
  2:{ unfold extract_rgb. intros c m c' E.
      apply bind_Ok in E as (ints & _ & E). apply bind_Ok in E as ([[r g] b] & _ & [= <-]).
      eauto. }
  eapply Hstep in H3; [| |exact H2].
  2:{ unfold extract_rgba. intros c m c' E.
      apply bind_Ok in E as ([[[r g] b] a] & _ & E).
      apply bind_Ok in E as (r' & _ & E). apply bind_Ok in E as (g' & _ & E).
      apply bind_Ok in E as (b' & _ & [= <-]). eauto. }
  eapply Hstep in H4; [| |exact H3].
  2:{ unfold extract_hsl. intros c m c' E.
      apply bind_Ok in E as (ints & _ & E). apply bind_Ok in E as ([[h s] l] & _ & E).
      apply bind_Ok in E as (hv & _ & [= <-]). eauto. }
  eapply Hstep in H5; [| |exact H4].
  2:{ unfold extract_hsla. intros c m c' E.
      apply bind_Ok in E as ([[[h s] l] a] & _ & E).
      apply bind_Ok in E as (h' & _ & E). apply bind_Ok in E as (s' & _ & E).
      apply bind_Ok in E as (l' & _ & E). apply bind_Ok in E as (hv & _ & [= <-]).
      eauto. }
  eapply Hstep in H6; [exact H6| |exact H5].
  intros c m c' [= <-]. eauto.
Qed.

Lemma analyze_file_NoDup fs file_path :
  NoDup (d_keys (fst (analyze_file fs file_path))).
Proof.
  unfold analyze_file.
  destruct (bind (fs file_path) _) as [cm|e] eqn:E; cbn [fst]; [|constructor].
  apply bind_Ok in E as (content & _ & E). eapply extract_keys_NoDup, E.
Qed.

Lemma mem_spec {K : Type} `{Eqb K} (x : K) (l : list K) :
  mem x l = true <-> In x l.
Proof.
  induction l as [|y l IH]; cbn [mem In]; [split; [discriminate|tauto]|].
  destruct (eqb_spec x y) as [->|Hne]; cbn [orb]; [tauto|].
  rewrite IH. split; [tauto|]. intros [Heq|Hin]; [congruence|assumption].
Qed.

Lemma append_new_In {K : Type} `{Eqb K} (x y : K) (l : list K) :
  In y (append_new x l) <-> y = x \/ In y l.
Proof.
  unfold append_new. destruct (mem x l) eqn:Hm.
  - apply mem_spec in Hm. split; [tauto|]. intros [->|Hin]; assumption.
  - rewrite in_app_iff. cbn [In]. split; [intros [?|[?|[]]]; auto|].
    intros [->|?]; auto.
Qed.

Lemma append_new_NoDup {K : Type} `{Eqb K} (x : K) (l : list K) :
  NoDup l -> NoDup (append_new x l).
Proof.
  intros Hl. unfold append_new. destruct (mem x l) eqn:Hm; [assumption|].
  apply NoDup_app; [assumption|repeat constructor; intros []|].
  intros y Hy [<-|[]]. apply mem_spec in Hy. congruence.
Qed.

(** What one item of a file does to the record of another color *)
Lemma add_color_other file_str cd key vs cd' k :
  add_color file_str cd (key, vs) = Ok cd' ->
  key <> Some k ->
  d_get k cd' = d_get k cd.
Proof.
  unfold add_color. intros Hstep Hne. destruct key as [nv|].
  - assert (k <> nv) by congruence.
    destruct (d_get nv cd) as [r0|].
    + injection Hstep as <-. now rewrite d_get_set_other.
    + apply bind_Ok in Hstep as (v0 & _ & Hstep).
      apply bind_Ok in Hstep as (c & _ & [= <-]).
      now rewrite d_get_set_other.
  - apply bind_Ok in Hstep as (v0 & _ & Hstep). discriminate.
Qed.

(** What one file does to the record of a color *)
Lemma file_step file_str items : forall cd cd' k,
  NoDup (d_keys items) ->
  for_each items (add_color file_str) cd = Ok cd' ->
  match d_get (Some k) items, d_get k cd with
  | None, before => d_get k cd' = before
  | Some vs, Some r =>
      exists r', d_get k cd' = Some r' /\ count r' = count r + 1 /\
                 unique r' = false /\
                 locations r' = append_new file_str (locations r)
  | Some vs, None =>
      exists r', d_get k cd' = Some r' /\ count r' = 1 /\
                 unique r' = true /\ locations r' = [file_str]
  end.
Proof.
  induction items as [|[key vs0] items IH]; cbn [for_each d_get d_keys map fst];
    intros cd cd' k Hnd Hrun.
  - injection Hrun as <-. now destruct (d_get k cd).
  - apply bind_Ok in Hrun as (cd1 & Hstep & Hrun).
    apply NoDup_cons_iff in Hnd as [Hfresh Hnd].
    specialize (IH cd1 cd' k Hnd Hrun).
    destruct (eqb_spec (Some k) key) as [<-|Hne].
    + apply d_get_None_keys in Hfresh. rewrite Hfresh in IH.
      unfold add_color in Hstep. destruct (d_get k cd) as [r|].
      * injection Hstep as <-. rewrite d_get_set_same in IH.
        eexists. split; [exact IH|]. now repeat split.
      * apply bind_Ok in Hstep as (v0 & _ & Hstep).
        apply bind_Ok in Hstep as (c & _ & [= <-]).
        rewrite d_get_set_same in IH.
        eexists. split; [exact IH|]. now repeat split.
    + rewrite (add_color_other _ _ _ _ _ k Hstep) in IH by congruence.
      exact IH.
Qed.

Lemma counted_step fs done cd f cd' :
  counted fs done cd ->
  for_each (fst (analyze_file fs f)) (add_color f) cd = Ok cd' ->
  counted fs (done ++ [f]) cd'.
Proof.
  intros Hinv Hrun k.
  pose proof (file_step f _ cd cd' k (analyze_file_NoDup fs f) Hrun) as Hstep.
  specialize (Hinv k). rewrite filter_app.
  change (filter (holds fs k) [f])
    with (if holds fs k f then [f] else @nil string).
  assert (Hholds : holds fs k f
                   = match d_get (Some k) (fst (analyze_file fs f)) with
                     | Some _ => true
                     | None => false
                     end) by reflexivity.
  destruct (d_get (Some k) (fst (analyze_file fs f))) as [vs|].
  - rewrite Hholds. destruct (d_get k cd) as [r|].
    + destruct Hstep as (r' & Hget & Hc & Hu & Hl). rewrite Hget.
      destruct Hinv as (Hcount & Hpos & Huniq & Hnd & Hloc).
      rewrite Hc, Hu, Hl, List.length_app, Hcount. cbn [List.length].
      split; [lia|]. split; [lia|]. split.
      { symmetry. apply Z.eqb_neq. lia. }
      split; [now apply append_new_NoDup|].
      intros g. rewrite append_new_In, in_app_iff, Hloc. cbn [In].
      split.
      * intros [->|[Hin Hh]]; tauto.
      * intros [[Hin|[<-|[]]] Hh]; tauto.
    + destruct Hstep as (r' & Hget & Hc & Hu & Hl). rewrite Hget.
      rewrite Hc, Hu, Hl, List.length_app, Hinv. cbn [List.length app].
      split; [reflexivity|]. split; [lia|]. split; [reflexivity|].
      split; [repeat constructor; intros []|].
      intros g. rewrite in_app_iff. cbn [In]. split.
      * intros [<-|[]]. tauto.
      * intros [[Hin|[<-|[]]] Hh]; [|tauto].
        exfalso. assert (Hg : In g (filter (holds fs k) done))
          by (apply filter_In; tauto).
        rewrite Hinv in Hg. exact Hg.
  - rewrite Hholds, Hstep, app_nil_r. destruct (d_get k cd) as [r|]; [|exact Hinv].
    destruct Hinv as (Hcount & Hpos & Huniq & Hnd & Hloc).
    split; [exact Hcount|]. split; [exact Hpos|]. split; [exact Huniq|].
    split; [exact Hnd|].
    intros g. rewrite Hloc, in_app_iff. cbn [In]. split; [tauto|].
    intros [[Hin|[<-|[]]] Hh]; [tauto|congruence].
Qed.

Lemma aggregate_counted fs files : forall done cd err cd' err',
  counted fs done cd ->
  aggregate fs files cd err = (Ok cd', err') ->
  counted fs (done ++ files) cd'.
Proof.
  induction files as [|f files IH]; cbn [aggregate]; intros done cd err cd' err' Hinv Hrun.
  - injection Hrun as <- <-. now rewrite app_nil_r.
  - pose proof (counted_step fs done cd f) as Hstep.
    destruct (analyze_file fs f) as [file_colors lines]. cbn [fst] in Hstep.
    destruct (for_each file_colors (add_color f) cd) as [cd1|e]; [|discriminate].
    replace (done ++ f :: files)%list with ((done ++ [f]) ++ files)%list
      by now rewrite <- app_assoc.
    eapply IH; [|exact Hrun]. now apply Hstep.
Qed.

(** What [count], [unique] and [locations] are in the aggregate of any
    list of files: [count] is the number of entries of the list whose
    file holds the color, a path listed twice counting twice; [unique] is
    true exactly when that number is 1; and [locations] holds each path
    that holds the color, once. *)
Theorem count_is_entries_holding :
  forall fs files cd err k r,
    aggregate fs files [] [] = (Ok cd, err) ->
    d_get k cd = Some r ->
    count r = Z.of_nat (List.length (filter (holds fs k) files)) /\
    (unique r = true <-> count r = 1) /\
    NoDup (locations r) /\
    (forall f, In f (locations r) <-> In f files /\ holds fs k f = true).
Proof.
  intros fs files cd err k r Hrun Hk.
  assert (H0 : counted fs [] []) by (intros k'; reflexivity).
  pose proof (aggregate_counted fs files [] [] [] cd err H0 Hrun k) as H.
  cbn [app] in H. rewrite Hk in H.
  destruct H as (Hc & _ & Hu & Hnd & Hloc).
  split; [exact Hc|]. split; [|split; assumption].
  rewrite Hu. apply Z.eqb_eq.
Qed.

(** The aggregate of [a.css] listed twice *)
Lemma count_is_entries_holding_witness :
  exists cd err r,
    aggregate white_css ["a.css"; "a.css"] [] [] = (Ok cd, err) /\
    d_get "#ffffff" cd = Some r /\
    count r = 2 /\ (unique r = true <-> count r = 1) /\
    NoDup (locations r).
Proof.
  destruct (aggregate white_css ["a.css"; "a.css"] [] [])
    as [[cd|e] err] eqn:Hrun; [|vm_compute in Hrun; discriminate].
  destruct (d_get "#ffffff" cd) as [r|] eqn:Hk.
  - exists cd, err, r. split; [reflexivity|]. split; [exact Hk|].
    destruct (count_is_entries_holding _ _ _ _ _ _ Hrun Hk) as (Hc & Hu & Hnd & _).
    split; [|split; assumption].
    rewrite Hc. vm_compute. reflexivity.
  - exfalso. vm_compute in Hrun. injection Hrun as <- _.
    vm_compute in Hk. discriminate.
Defined.

(** * The watch loop *)

Section WatchFacts.
Variable json_dumps : dict string (list ColorRecord) -> option Z -> string.
Variable env : nat -> world.
Variable files : list string.
Variable output_path : option string.
Variable pretty : bool.

Lemma check_files_snoc w l f last :
  check_files w (l ++ [f]) last = check_file w (check_files w l last) f.
Proof. unfold check_files. now rewrite fold_left_app. Qed.

Lemma check_files_flag w : forall l last,
  fst (check_files w l last) = true <->
  exists before f after mtime,
    l = (before ++ f :: after)%list /\
    getmtime w f = Ok mtime /\
    (last_time (snd (check_files w before last)) f <? mtime)%float = true.
Proof.
  induction l as [|f l IH] using rev_ind; intros last.
  - cbn. split; [discriminate|].
    intros (before & f & after & m & Heq & _). now destruct before.
  - rewrite check_files_snoc. specialize (IH last).
    destruct (check_files w l last) as [flag st] eqn:Hl. cbn [fst snd] in IH.
    unfold check_file at 1.
    split.
    + destruct (getmtime w f) as [mtime|e] eqn:Hm.
      * destruct (last_time st f <? mtime)%float eqn:Hlt.
        -- intros _. exists l, f, [], mtime. rewrite Hl. now repeat split.
        -- cbn. intros Hflag. apply IH in Hflag
             as (before & g & after & m & -> & Hg & Hlt').
           exists before, g, (after ++ [f])%list, m.
           rewrite <- app_assoc. now repeat split.
      * cbn. intros Hflag. apply IH in Hflag
          as (before & g & after & m & -> & Hg & Hlt').
        exists before, g, (after ++ [f])%list, m.
        rewrite <- app_assoc. now repeat split.
    + intros (before & g & after & m & Heq & Hg & Hlt).
      destruct after as [|a after] using rev_ind.
      * apply app_inj_tail in Heq as [-> ->].
        rewrite Hl in Hlt. cbn [snd] in Hlt. rewrite Hg, Hlt. reflexivity.
      * clear IHafter.
        rewrite app_comm_cons, app_assoc in Heq.
        apply app_inj_tail in Heq as [-> ->].
        assert (Hflag : flag = true).
        { apply IH. exists before, g, after, m. now repeat split. }
        subst flag. destruct (getmtime w a) as [ma|e]; [|reflexivity].
        now destruct (last_time st a <? ma)%float.
Qed.

Lemma advanced_iff w last :
  fst (check_files w files last) = true <-> advanced files w last.
Proof. apply check_files_flag. Qed.

(** A pass that sees no file advance changes nothing and lets nothing out. *)
Lemma check_files_quiet w : forall l last,
  (forall f mtime, In f l -> getmtime w f = Ok mtime ->
                   (last_time last f <? mtime)%float = false) ->
  check_files w l last = (false, last).
Proof.
  induction l as [|f l IH] using rev_ind; intros last Hq.
  - reflexivity.
  - rewrite check_files_snoc, IH.
    + unfold check_file. destruct (getmtime w f) as [mtime|e] eqn:Hm; [|reflexivity].
      rewrite (Hq f mtime); [reflexivity| |assumption].
      apply in_or_app. right. now left.
    + intros g m Hin. apply Hq. apply in_or_app. now left.
Qed.

Lemma recorded_shift i last : forall j,
  recorded env files (S i) (snd (check_files (env i) files last)) j =
  recorded env files i last (S j).
Proof.
  induction j as [|j IH].
  - cbn. now rewrite Nat.add_0_r.
  - cbn [recorded]. rewrite IH. cbn [recorded].
    now rewrite Nat.add_succ_r.
Qed.

Lemma emit_nonempty report : emit output_path report <> [].
Proof. unfold emit. destruct output_path as [[|c p]|]; discriminate. Qed.

(** Whatever the loop lets out, or its end, comes from a pass in which
    a file had advanced. *)
Lemma watch_loop_cause : forall n i last,
  watch_loop json_dumps env n i files output_path pretty last <> ([], None) ->
  exists j, (j < n)%nat /\
            fst (check_files (env (i + j)) files (recorded env files i last j)) = true.
Proof.
  induction n as [|n IH]; intros i last Hrun.
  - now contradiction Hrun.
  - cbn [watch_loop] in Hrun.
    destruct (check_files (env i) files last) as [flag last'] eqn:Hc.
    destruct flag.
    + exists O. split; [lia|]. cbn. now rewrite Nat.add_0_r, Hc.
    + destruct (IH (S i) last' Hrun) as (j & Hj & Hflag).
      exists (S j). split; [lia|].
      replace last' with (snd (check_files (env i) files last)) in Hflag
        by now rewrite Hc.
      rewrite recorded_shift in Hflag.
      now rewrite Nat.add_succ_r.
Qed.

(** And a pass in which a file had advanced lets a report out, unless
    the aggregation raises, which ends the loop. *)
Lemma watch_loop_effect : forall n i last j,
  (j < n)%nat ->
  fst (check_files (env (i + j)) files (recorded env files i last j)) = true ->
  watch_loop json_dumps env n i files output_path pretty last <> ([], None).
Proof.
  induction n as [|n IH]; intros i last j Hj Hflag; [lia|].
  cbn [watch_loop].
  destruct (check_files (env i) files last) as [flag last'] eqn:Hc.
  destruct flag.
  - destruct (process_files (contents (env i)) files) as [[cd|e] err].
    + destruct (watch_loop json_dumps env n (S i) files output_path pretty last') as [evs x].
      intros [= Hevs _].
      apply app_eq_nil in Hevs as [_ Hevs].
      apply app_eq_nil in Hevs as [Hevs _].
      now apply emit_nonempty in Hevs.
    + discriminate.
  - destruct j as [|j].
    + cbn in Hflag. rewrite Nat.add_0_r, Hc in Hflag. discriminate.
    + apply (IH (S i) last' j); [lia|].
      replace last' with (snd (check_files (env i) files last))
        by now rewrite Hc.
      rewrite recorded_shift. now rewrite Nat.add_succ_r in Hflag.
Qed.

Lemma watch_loop_quiet : forall n i last,
  (forall j f mtime, In f files -> getmtime (env (i + j)) f = Ok mtime ->
                     (last_time last f <? mtime)%float = false) ->
  watch_loop json_dumps env n i files output_path pretty last = ([], None).
Proof.
  induction n as [|n IH]; intros i last Hq; [reflexivity|].
  cbn [watch_loop]. rewrite check_files_quiet.
  - apply IH. intros j f m Hin.
    replace (S i + j)%nat with (i + S j)%nat by lia. now apply Hq.
  - intros f m Hin. specialize (Hq O f m Hin). now rewrite Nat.add_0_r in Hq.
Qed.

(** C10: before the first pass of its loop [watch_files] has let nothing
    out; after [n] passes it has let something out, or has ended on an
    exception, exactly when in one of these passes a tracked file showed
    a modification time strictly above the one on record for it; and if
    no file ever shows a time above the one recorded at the start,
    nothing is ever let out. *)
Theorem watch_reports_only_after_an_advance :
  watch_files json_dumps env files output_path pretty 0 = ([], None) /\
  (forall n,
      watch_files json_dumps env files output_path pretty n <> ([], None) <->
      exists j, (j < n)%nat /\
                advanced files (env (S j)) (recorded env files 1 (record_times env files) j)) /\
  ((forall j f mtime,
       In f files -> getmtime (env (S j)) f = Ok mtime ->
       (last_time (record_times env files) f <? mtime)%float = false) ->
   forall n,
     watch_files json_dumps env files output_path pretty n = ([], None)).
Proof.
  split; [reflexivity|]. split.
  - intros n. unfold watch_files. split.
    + intros Hrun. apply watch_loop_cause in Hrun as (j & Hj & Hflag).
      exists j. split; [assumption|]. now apply advanced_iff.
    + intros (j & Hj & Hadv). apply (watch_loop_effect n 1 _ j Hj).
      now apply advanced_iff.
  - intros Hq n. apply watch_loop_quiet. exact Hq.
Qed.
End WatchFacts.

(** C10 where the files never change *)
Lemma watch_quiet_witness :
  watch_files (fun _ _ => "{}") still_world ["a.css"; "b.css"] None false 3
  = ([], None).
Proof.
  destruct (watch_reports_only_after_an_advance
              (fun _ _ => "{}") still_world ["a.css"; "b.css"] None false)
    as (_ & _ & Hq).
  apply Hq. intros j f mtime Hin [= <-].
  destruct Hin as [<-|[<-|[]]]; reflexivity.
Defined.

(** * Truncation and the color model *)

Lemma cut_within_sound x hi :
  Uint63.to_Z hi < 4611686018427387903 ->
  cut_within x hi = true ->
  exists z, PyFloat.int_of_float x = Ok z /\ 0 <= z <= Uint63.to_Z hi /\ cut_to x z.
Proof.
  intros Hbig. unfold cut_within, PyFloat.int_of_float, cut_to.
  destruct (is_nan x); [discriminate|].
  destruct (is_infinity x); [discriminate|].
  destruct (x <? 0)%float; [discriminate|]. cbn [negb andb].
  destruct (frshiftexp (abs x)) as [m e].
  destruct (lebP e 2154) as [He|]; [|discriminate]. cbn [andb].
  set (t := (normfr_mantissa m >> (2154 - e))%uint63).
  destruct (lebP t hi) as [Ht|]; [|discriminate].
  cbn [andb]. intros Hcmp. apply andb_prop in Hcmp as [Hlo Hhi].
  assert (Hshift : Z.shiftr (Uint63.to_Z (normfr_mantissa m)) (2154 - Uint63.to_Z e)
                   = Uint63.to_Z t).
  { unfold t. rewrite lsr_spec, sub_spec.
    change (Uint63.to_Z 2154) with 2154 in *.
    pose proof (to_Z_bounded e) as Hb.
    rewrite Z.mod_small by (change wB with 9223372036854775808; lia).
    rewrite Z.shiftr_div_pow2 by lia. reflexivity. }
  exists (Uint63.to_Z t). rewrite Hshift.
  pose proof (to_Z_bounded t) as Hb.
  split; [reflexivity|]. split; [lia|].
  unfold PyFloat.float_of_nonneg.
  assert (H63 : 2 ^ 63 = 9223372036854775808) by reflexivity.
  rewrite H63.
  destruct (Z.ltb_spec (Uint63.to_Z t) 9223372036854775808) as [_|]; [|lia].
  destruct (Z.ltb_spec (Uint63.to_Z t + 1) 9223372036854775808) as [_|]; [|lia].
  rewrite of_to_Z.
  replace (Uint63.of_Z (Uint63.to_Z t + 1)) with (t + 1)%uint63; [now split|].
  apply to_Z_inj. rewrite add_spec, of_Z_spec. reflexivity.
Qed.

Lemma channel_values_spec n : 0 <= n <= 255 -> In n channel_values.
Proof.
  intros Hn. unfold channel_values.
  replace n with (Z.of_nat (Z.to_nat n)) by lia.
  apply in_map, in_seq. lia.
Qed.

Lemma scaled_values_spec n : 0 <= n <= 255 -> In (scaled n) scaled_values.
Proof. intros Hn. apply in_map, channel_values_spec, Hn. Qed.

Lemma scaled_values_ok : forallb is_ok scaled_values = true.
Proof. vm_compute. reflexivity. Qed.

Lemma scaled_values_in_unit : forallb in_unit scaled_values = true.
Proof. vm_compute. reflexivity. Qed.

(** The floats [n / 255.0] are ordered as the integers [n]. *)
Lemma channels_ordered :
  forallb (fun p =>
     forallb (fun q => Bool.eqb (snd p <? snd q)%float (fst p <? fst q)) channels)
    channels = true.
Proof. vm_compute. reflexivity. Qed.

Lemma all_pairs_within :
  forallb (fun p =>
     forallb (fun q => (fst p <? fst q) || pair_within (snd p) (snd q)) channels)
    channels = true.
Proof. vm_compute. reflexivity. Qed.

Lemma all_hues_within :
  forallb (fun r =>
     forallb (fun g =>
        forallb (fun b => hue_within r g b) channel_floats) channel_floats)
    channel_floats = true.
Proof. vm_compute. reflexivity. Qed.

Lemma gray_within :
  cut_within (0 * 360) 359 = true /\ cut_within (0 * 100) 100 = true.
Proof. split; vm_compute; reflexivity. Qed.

Lemma channel_in n : 0 <= n <= 255 -> In (n, channel n) channels.
Proof.
  intros Hn. unfold channels.
  apply (in_map (fun n => (n, channel n))). now apply channel_values_spec.
Qed.

Lemma channel_in_floats n : 0 <= n <= 255 -> In (channel n) channel_floats.
Proof.
  intros Hn. unfold channel_floats.
  apply (in_map snd _ (n, channel n)). now apply channel_in.
Qed.

Lemma scaled_channel n :
  0 <= n <= 255 -> scaled n = Ok (channel n) /\ in_unit (scaled n) = true.
Proof.
  intros Hn. pose proof (scaled_values_spec n Hn) as Hin.
  pose proof scaled_values_ok as Hok. pose proof scaled_values_in_unit as Hu.
  rewrite forallb_forall in Hok, Hu.
  specialize (Hok _ Hin). specialize (Hu _ Hin). split; [|exact Hu].
  unfold channel. now destruct (scaled n).
Qed.

Lemma channel_ltb i j :
  0 <= i <= 255 -> 0 <= j <= 255 ->
  (channel i <? channel j)%float = (i <? j).
Proof.
  intros Hi Hj. pose proof channels_ordered as H.
  rewrite forallb_forall in H. specialize (H _ (channel_in i Hi)).
  rewrite forallb_forall in H. specialize (H _ (channel_in j Hj)).
  now apply Bool.eqb_prop in H.
Qed.

Lemma max3_channel r g b :
  0 <= r <= 255 -> 0 <= g <= 255 -> 0 <= b <= 255 ->
  PyFloat.max3 (channel r) (channel g) (channel b)
  = channel (Z.max r (Z.max g b)).
Proof.
  intros Hr Hg Hb. unfold PyFloat.max3.
  rewrite (channel_ltb r g Hr Hg).
  destruct (Z.ltb_spec r g);
    [rewrite (channel_ltb g b Hg Hb); destruct (Z.ltb_spec g b)
    |rewrite (channel_ltb r b Hr Hb); destruct (Z.ltb_spec r b)];
    f_equal; lia.
Qed.

Lemma min3_channel r g b :
  0 <= r <= 255 -> 0 <= g <= 255 -> 0 <= b <= 255 ->
  PyFloat.min3 (channel r) (channel g) (channel b)
  = channel (Z.min r (Z.min g b)).
Proof.
  intros Hr Hg Hb. unfold PyFloat.min3.
  rewrite (channel_ltb g r Hg Hr).
  destruct (Z.ltb_spec g r);
    [rewrite (channel_ltb b g Hb Hg); destruct (Z.ltb_spec b g)
    |rewrite (channel_ltb b r Hb Hr); destruct (Z.ltb_spec b r)];
    f_equal; lia.
Qed.

(** [colorsys.rgb_to_hls] in terms of the three functions above *)
Lemma rgb_to_hls_parts r g b :
  colorsys.rgb_to_hls r g b =
  let maxc := PyFloat.max3 r g b in
  let minc := PyFloat.min3 r g b in
  let l := ((maxc + minc) / 2)%float in
  if (minc =? maxc)%float then Ok (0%float, l, 0%float)
  else
    s <- saturation_of maxc minc ;;
    if (maxc - minc =? 0)%float
    then Raise (ZeroDivisionError "float division by zero")
    else Ok (hue_of r g b, l, s).
Proof.
  unfold colorsys.rgb_to_hls, saturation_of, hue_of. cbv zeta.
  destruct (PyFloat.min3 r g b =? PyFloat.max3 r g b)%float; [reflexivity|].
  match goal with
  | |- bind ?c _ = bind ?c _ => destruct c as [s|e]; [|reflexivity]
  end.
  cbn [bind]. unfold PyFloat.truediv.
  destruct (PyFloat.max3 r g b - PyFloat.min3 r g b =? 0)%float; reflexivity.
Qed.

Lemma rgb_within r g b :
  0 <= r <= 255 -> 0 <= g <= 255 -> 0 <= b <= 255 ->
  in_unit (scaled r) = true /\ in_unit (scaled g) = true /\
  in_unit (scaled b) = true /\
  hsl_within (scaled r) (scaled g) (scaled b) = true.
Proof.
  intros Hr Hg Hb.
  destruct (scaled_channel r Hr) as [Er Ur].
  destruct (scaled_channel g Hg) as [Eg Ug].
  destruct (scaled_channel b Hb) as [Eb Ub].
  repeat (split; [assumption|]). rewrite Er, Eg, Eb. cbn [hsl_within].
  pose proof all_pairs_within as Hp. pose proof all_hues_within as Hh.
  rewrite forallb_forall in Hp, Hh.
  assert (HM : 0 <= Z.max r (Z.max g b) <= 255) by lia.
  assert (Hm : 0 <= Z.min r (Z.min g b) <= 255) by lia.
  specialize (Hp _ (channel_in _ HM)). rewrite forallb_forall in Hp.
  specialize (Hp _ (channel_in _ Hm)). cbn [fst snd] in Hp.
  replace (Z.max r (Z.max g b) <? Z.min r (Z.min g b)) with false in Hp
    by (symmetry; apply Z.ltb_ge; lia).
  cbn [orb] in Hp.
  rewrite <- (max3_channel r g b Hr Hg Hb), <- (min3_channel r g b Hr Hg Hb) in Hp.
  specialize (Hh _ (channel_in_floats r Hr)). rewrite forallb_forall in Hh.
  specialize (Hh _ (channel_in_floats g Hg)). rewrite forallb_forall in Hh.
  specialize (Hh _ (channel_in_floats b Hb)).
  destruct gray_within as [G360 G100].
  unfold pair_within in Hp. unfold hue_within in Hh.
  rewrite rgb_to_hls_parts. cbv zeta.
  apply andb_prop in Hp as [Hl Hs].
  destruct (PyFloat.min3 (channel r) (channel g) (channel b)
            =? PyFloat.max3 (channel r) (channel g) (channel b))%float.
  - now rewrite G360, G100, Hl.
  - cbn [orb] in Hh. apply andb_prop in Hs as [Hz Hs].
    apply negb_true_iff in Hz.
    destruct (saturation_of (PyFloat.max3 (channel r) (channel g) (channel b))
                (PyFloat.min3 (channel r) (channel g) (channel b))) as [s|e];
      [|discriminate].
    cbn [bind]. rewrite Hz. now rewrite Hh, Hs, Hl.
Qed.

Lemma hsl_within_sound fr fg fb :
  hsl_within (Ok fr) (Ok fg) (Ok fb) = true ->
  exists hf lf sf h s l,
    colorsys.rgb_to_hls fr fg fb = Ok (hf, lf, sf) /\
    PyFloat.int_of_float (hf * 360) = Ok h /\
    PyFloat.int_of_float (sf * 100) = Ok s /\
    PyFloat.int_of_float (lf * 100) = Ok l /\
    0 <= h < 360 /\ 0 <= s <= 100 /\ 0 <= l <= 100 /\
    cut_to (hf * 360) h /\ cut_to (sf * 100) s /\ cut_to (lf * 100) l.
Proof.
  cbn [hsl_within].
  destruct (colorsys.rgb_to_hls fr fg fb) as [[[hf lf] sf]|]; [|discriminate].
  intros Hall.
  apply andb_prop in Hall as [Hall Hl]. apply andb_prop in Hall as [Hh Hs].
  apply cut_within_sound in Hh as (h & Hh & Hhr & Hhc); [|reflexivity].
  apply cut_within_sound in Hs as (s & Hs & Hsr & Hsc); [|reflexivity].
  apply cut_within_sound in Hl as (l & Hl & Hlr & Hlc); [|reflexivity].
  change (Uint63.to_Z 359) with 359 in Hhr.
  change (Uint63.to_Z 100) with 100 in Hsr, Hlr.
  exists hf, lf, sf, h, s, l.
  split; [reflexivity|]. split; [exact Hh|]. split; [exact Hs|].
  split; [exact Hl|]. split; [lia|]. split; [lia|]. split; [lia|].
  split; [exact Hhc|]. split; [exact Hsc|exact Hlc].
Qed.

Lemma rgb_to_hsl_within r g b :
  0 <= r <= 255 -> 0 <= g <= 255 -> 0 <= b <= 255 ->
  exists fr fg fb hf lf sf h s l,
    scaled r = Ok fr /\ scaled g = Ok fg /\ scaled b = Ok fb /\
    in_unit (Ok fr) = true /\ in_unit (Ok fg) = true /\ in_unit (Ok fb) = true /\
    colorsys.rgb_to_hls fr fg fb = Ok (hf, lf, sf) /\
    rgb_to_hsl r g b = Ok (h, s, l) /\
    0 <= h < 360 /\ 0 <= s <= 100 /\ 0 <= l <= 100 /\
    cut_to (hf * 360) h /\ cut_to (sf * 100) s /\ cut_to (lf * 100) l.
Proof.
  intros Hr Hg Hb.
  destruct (rgb_within r g b Hr Hg Hb) as (Ur & Ug & Ub & Hall).
  unfold rgb_to_hsl. fold (scaled r) (scaled g) (scaled b).
  destruct (scaled r) as [fr|]; [|discriminate].
  destruct (scaled g) as [fg|]; [|discriminate].
  destruct (scaled b) as [fb|]; [|discriminate].
  destruct (hsl_within_sound fr fg fb Hall)
    as (hf & lf & sf & h & s & l & Hhls & Hh & Hs & Hl & Hrest).
  exists fr, fg, fb, hf, lf, sf, h, s, l.
  cbn [bind]. rewrite Hhls. cbn [bind].
  rewrite Hh. cbn [bind]. rewrite Hs. cbn [bind]. rewrite Hl. cbn [bind].
  split; [reflexivity|]. split; [reflexivity|]. split; [reflexivity|].
  split; [exact Ur|]. split; [exact Ug|]. split; [exact Ub|].
  split; [reflexivity|]. split; [reflexivity|]. exact Hrest.
Qed.

(** C6: for [r], [g], [b] from 0 to 255, [rgb_to_hsl] divides each by
    255.0, which lands in [[0, 1]], applies [colorsys.rgb_to_hls], and
    returns whole numbers [h] in [[0, 360)] and [s], [l] in [[0, 100]]
    that are the scaled results cut toward zero, not rounded:
    [h <= hf * 360 < h + 1], and likewise for [s] and [l]. *)
Theorem rgb_to_hsl_truncates :
  forall r g b,
    0 <= r <= 255 -> 0 <= g <= 255 -> 0 <= b <= 255 ->
    exists fr fg fb hf lf sf h s l,
      PyFloat.int_truediv r 255 = Ok fr /\
      PyFloat.int_truediv g 255 = Ok fg /\
      PyFloat.int_truediv b 255 = Ok fb /\
      in_unit (Ok fr) = true /\ in_unit (Ok fg) = true /\
      in_unit (Ok fb) = true /\
      colorsys.rgb_to_hls fr fg fb = Ok (hf, lf, sf) /\
      rgb_to_hsl r g b = Ok (h, s, l) /\
      0 <= h < 360 /\ 0 <= s <= 100 /\ 0 <= l <= 100 /\
      cut_to (hf * 360) h /\ cut_to (sf * 100) s /\ cut_to (lf * 100) l.
Proof. exact rgb_to_hsl_within. Qed.

(** C6 at the gray (130, 130, 130): the lightness is nearer to 51 than
    to 50, and 50 is returned. *)
Lemma rgb_to_hsl_truncates_witness :
  exists hf lf sf,
    colorsys.rgb_to_hls (130 / 255) (130 / 255) (130 / 255) = Ok (hf, lf, sf) /\
    rgb_to_hsl 130 130 130 = Ok (0, 0, 50) /\
    cut_to (lf * 100) 50 /\ (50.5 <? lf * 100)%float = true.
Proof.
  destruct (rgb_to_hsl_truncates 130 130 130)
    as (fr & fg & fb & hf & lf & sf & h & s & l
        & Hr & Hg & Hb & _ & _ & _ & Hhls & Hhsl & _ & _ & _ & _ & _ & Hl);
    [lia|lia|lia|].
  vm_compute in Hr. injection Hr as <-.
  vm_compute in Hg. injection Hg as <-.
  vm_compute in Hb. injection Hb as <-.
  exists hf, lf, sf. split; [exact Hhls|].
  vm_compute in Hhsl. injection Hhsl as <- <- <-.
  split; [reflexivity|]. split; [exact Hl|].
  vm_compute in Hhls. injection Hhls as <- <- <-. reflexivity.
Defined.

Lemma all_ascii_spec c : In c all_ascii.
Proof.
  unfold all_ascii. rewrite <- (ascii_nat_embedding c).
  apply in_map, in_seq. pose proof (nat_ascii_bounded c). lia.
Qed.

Lemma for_all_ascii (P : ascii -> bool) :
  forallb P all_ascii = true -> forall c, P c = true.
Proof.
  intros H c. rewrite forallb_forall in H. apply H, all_ascii_spec.
Qed.

Lemma all_pairs_bytes :
  forallb (fun c1 => forallb (fun c2 => byte_of_pair c1 c2) all_ascii) all_ascii
  = true.
Proof. vm_compute. reflexivity. Qed.

Lemma int16_pair c1 c2 :
  is_hexdigit c1 = true -> is_hexdigit c2 = true ->
  exists v, int16 (String (lower_char c1) (String (lower_char c2) EmptyString)) = Ok v
            /\ 0 <= v <= 255.
Proof.
  intros H1 H2. pose proof all_pairs_bytes as Hall.
  rewrite forallb_forall in Hall. specialize (Hall c1 (all_ascii_spec c1)).
  rewrite forallb_forall in Hall. specialize (Hall c2 (all_ascii_spec c2)).
  unfold byte_of_pair in Hall. rewrite H1, H2 in Hall. cbn [andb implb] in Hall.
  destruct (int16 _) as [v|]; [|discriminate].
  exists v. split; [reflexivity|]. lia.
Qed.

Lemma hex_to_rgb_valid s :
  valid_hex6 s = true ->
  exists r g b, hex_to_rgb s = Ok (r, g, b) /\
                0 <= r <= 255 /\ 0 <= g <= 255 /\ 0 <= b <= 255.
Proof.
  unfold valid_hex6.
  destruct s as [|c0 [|c1 [|c2 [|c3 [|c4 [|c5 [|c6 [|c7 s]]]]]]]];
    try discriminate;
    try (destruct c0 as [[] [] [] [] [] [] [] []]; discriminate).
  destruct c0 as [[] [] [] [] [] [] [] []]; try discriminate.
  cbn [String.length Nat.eqb andb list_ascii_of_string forallb].
  intros H.
  repeat (apply andb_prop in H as [? H]).
  destruct (int16_pair c1 c2) as (r & Hr & Rr); [assumption..|].
  destruct (int16_pair c3 c4) as (g & Hg & Rg); [assumption..|].
  destruct (int16_pair c5 c6) as (b & Hb & Rb); [assumption..|].
  exists r, g, b. repeat split; try lia.
  unfold hex_to_rgb, normalize_hex_color.
  cbn [lower String.length Nat.eqb tail substring].
  change (lower_char "#") with "#"%char. cbn [tail substring].
  rewrite Hr. cbn [bind]. rewrite Hg. cbn [bind]. rewrite Hb. reflexivity.
Qed.

Lemma all_hues_agree :
  forallb hue_agrees (map Z.of_nat (seq 0 360)) = true.
Proof. vm_compute. reflexivity. Qed.

Lemma hue_chain_spec h :
  0 <= h < 360 ->
  exists c, hue_bucket h = Some c /\ hue_chain h = Ok c /\ In c categories.
Proof.
  intros Hh. pose proof all_hues_agree as Hall.
  rewrite forallb_forall in Hall.
  assert (Hin : In h (map Z.of_nat (seq 0 360))).
  { replace h with (Z.of_nat (Z.to_nat h)) by lia. apply in_map, in_seq. lia. }
  specialize (Hall h Hin). unfold hue_agrees in Hall.
  destruct (hue_bucket h) as [c|]; [|discriminate].
  destruct (hue_chain h) as [c'|]; [|discriminate].
  apply andb_prop in Hall as [Heq Hmem].
  apply String.eqb_eq in Heq. subst c'.
  exists c. split; [reflexivity|]. split; [reflexivity|].
  unfold categories in *. cbn [mem] in Hmem. cbn [In].
  repeat match type of Hmem with
         | (eqb ?a ?b || _) = true =>
             apply orb_prop in Hmem as [Hmem|Hmem];
             [apply String.eqb_eq in Hmem; subst; tauto|]
         end.
  discriminate.
Qed.

Lemma category_of_hsl h s l :
  0 <= h < 360 ->
  exists c,
    categorize_hsl h s l = Some c /\ In c categories /\
    (if s <? 10 then
       if l <? 10 then Ok "black"
       else if l >? 90 then Ok "white"
       else Ok "gray"
     else hue_chain h) = Ok c.
Proof.
  intros Hh. unfold categorize_hsl.
  destruct (s <? 10).
  - unfold categories.
    destruct (l <? 10); [|destruct (l >? 90)];
      eexists; (split; [reflexivity|]); cbn [In]; tauto.
  - destruct (hue_chain_spec h Hh) as (c & Hb & Hc & Hin).
    exists c. now repeat split.
Qed.

(** C5: for every [#] followed by six hexadecimal digits,
    [determine_color_category] returns, without raising, one of the
    eleven categories, and it is the one the precedence of the
    specification gives for the [(h, s, l)] of the color: below
    saturation 10 black, white or gray by lightness, otherwise the hue
    interval, the intervals covering every hue that [rgb_to_hsl] returns. *)
Theorem every_hex_has_one_category :
  forall hex_color,
    valid_hex6 hex_color = true ->
    exists r g b h s l c,
      hex_to_rgb hex_color = Ok (r, g, b) /\
      rgb_to_hsl r g b = Ok (h, s, l) /\
      categorize_hsl h s l = Some c /\
      In c categories /\
      determine_color_category hex_color = Ok c.
Proof.
  intros hex_color Hvalid.
  destruct (hex_to_rgb_valid _ Hvalid) as (r & g & b & Hrgb & Hr & Hg & Hb).
  destruct (rgb_to_hsl_within r g b Hr Hg Hb)
    as (_ & _ & _ & _ & _ & _ & h & s & l & _ & _ & _ & _ & _ & _ & _ & Hhsl & Hh & _).
  destruct (category_of_hsl h s l Hh) as (c & Hc & Hin & Hcode).
  exists r, g, b, h, s, l, c.
  split; [exact Hrgb|]. split; [exact Hhsl|]. split; [exact Hc|].
  split; [exact Hin|].
  unfold determine_color_category. rewrite Hrgb. cbn [bind].
  rewrite Hhsl. cbn [bind]. exact Hcode.
Qed.

(** C5 at [#3F94bf] *)
Lemma every_hex_has_one_category_witness :
  determine_color_category "#3F94bf" = Ok "blue".
Proof.
  destruct (every_hex_has_one_category "#3F94bf" eq_refl)
    as (r & g & b & h & s & l & c & Hrgb & Hhsl & Hc & _ & Hcat).
  vm_compute in Hrgb. injection Hrgb as <- <- <-.
  vm_compute in Hhsl. injection Hhsl as <- <- <-.
  vm_compute in Hc. injection Hc as <-. exact Hcat.
Defined.

(** * The matcher *)

Section MatcherFacts.
Variable ic : bool.

Lemma rmatch_no_first {R : Type} (r : regex) :
  forall pv s cs (k : option ascii -> string -> list (nat * string) -> option R),
    starts_without (first ic r) s ->
    nullable r = false \/ (forall cs', k pv s cs' = None) ->
    rmatch ic r pv s cs k = None.
Proof.
  induction r as [|a|p|p|p|n p|r IH|r1 IH1 r2 IH2|r1 IH1 r2 IH2|i r IH|];
    intros pv s cs k Hs Hk; cbn [rmatch nullable first] in *.
  - destruct Hk as [Hk|Hk]; [discriminate|apply Hk].
  - destruct s as [|c s]; [reflexivity|]. cbn in Hs. now rewrite Hs.
  - destruct s as [|c s]; [reflexivity|]. cbn in Hs. now rewrite Hs.
  - destruct Hk as [Hk|Hk]; [discriminate|].
    destruct s as [|c s]; cbn [star]; [apply Hk|].
    cbn in Hs. rewrite Hs. apply Hk.
  - destruct s as [|c s]; [reflexivity|]. cbn in Hs. now rewrite Hs.
  - destruct n as [|n]; cbn [rep].
    + destruct Hk as [Hk|Hk]; [discriminate|apply Hk].
    + destruct s as [|c s]; [reflexivity|]. cbn in Hs. now rewrite Hs.
  - destruct Hk as [Hk|Hk]; [discriminate|].
    rewrite IH; [apply Hk|assumption|right; assumption].
  - assert (H1 : starts_without (first ic r1) s).
    { destruct s as [|c s]; [exact I|]. cbn in *.
      now apply orb_false_elim in Hs as [Hs _]. }
    apply IH1; [assumption|].
    destruct (nullable r1) eqn:Hn1; [right|now left].
    intros cs'. apply IH2.
    + destruct s as [|c s]; [exact I|]. cbn in *.
      now apply orb_false_elim in Hs as [_ Hs].
    + destruct Hk as [Hk|Hk]; [left; exact Hk|right; exact Hk].
  - assert (H1 : starts_without (first ic r1) s /\ starts_without (first ic r2) s).
    { destruct s as [|c s]; [split; exact I|]. cbn in *.
      now apply orb_false_elim in Hs. }
    destruct H1 as [H1 H2].
    assert (Hk' : (nullable r1 = false /\ nullable r2 = false)
                  \/ (forall cs', k pv s cs' = None)).
    { destruct Hk as [Hk|Hk]; [left; now apply orb_false_elim in Hk|now right]. }
    rewrite IH1; [apply IH2|assumption|]; try assumption;
      destruct Hk' as [[? ?]|?]; auto.
  - apply IH; [assumption|].
    destruct Hk as [Hk|Hk]; [now left|right; intros cs'; apply Hk].
  - destruct Hk as [Hk|Hk]; [discriminate|].
    destruct (at_boundary pv s); [apply Hk|reflexivity].
Qed.

Lemma match_at_no_first r pv s :
  starts_without (first ic r) s -> nullable r = false ->
  match_at ic r pv s = None.
Proof.
  intros Hs Hn. unfold match_at. apply rmatch_no_first; [assumption|now left].
Qed.

(** A text without any first character of [r] holds no match of [r]. *)
Lemma scan_no_first r : nullable r = false ->
  forall s pv,
    all_chars (fun c => negb (first ic r c)) s = true ->
    scan ic r pv s 0 = [].
Proof.
  intros Hn. induction s as [|c s IH]; intros pv Hs; cbn [scan].
  - now rewrite match_at_no_first.
  - cbn [all_chars] in Hs. apply andb_prop in Hs as [Hc Hs].
    rewrite match_at_no_first; [now apply IH| |assumption].
    cbn. now apply negb_true_iff.
Qed.

Lemma scan_step r pv c s :
  match_at ic r pv (String c s) = None ->
  scan ic r pv (String c s) 0 = scan ic r (Some c) s 0.
Proof. intros H. cbn [scan]. now rewrite H. Qed.

(** After a match that takes the whole text nothing is left to find. *)
Lemma scan_skip r : nullable r = false ->
  forall s pv, scan ic r pv s (String.length s) = [].
Proof.
  intros Hn. induction s as [|c s IH]; intros pv; cbn [scan String.length].
  - now rewrite match_at_no_first.
  - apply IH.
Qed.

Lemma scan_whole r pv c s m :
  nullable r = false ->
  match_at ic r pv (String c s) = Some m ->
  group0 m = String c s ->
  scan ic r pv (String c s) 0 = [m].
Proof.
  intros Hn Hm Hg. cbn [scan]. rewrite Hm, Hg.
  replace (String.length (String c s) - 1)%nat with (String.length s)
    by (cbn [String.length]; lia).
  now rewrite scan_skip.
Qed.

Lemma star_app {R : Type} p w : forall pv rest (k : option ascii -> string -> option R) x,
  all_chars p w = true ->
  starts_without p rest ->
  k (last_of pv w) rest = Some x ->
  star p pv (w ++ rest) k = Some x.
Proof.
  induction w as [|c w IH]; intros pv rest k x Hw Hrest Hk; cbn in *.
  - destruct rest as [|c rest]; cbn [star]; [assumption|].
    cbn in Hrest. now rewrite Hrest.
  - apply andb_prop in Hw as [Hc Hw]. rewrite Hc.
    now rewrite (IH (Some c) rest k x Hw Hrest Hk).
Qed.
End MatcherFacts.

Lemma all_chars_app p a b :
  all_chars p (a ++ b) = all_chars p a && all_chars p b.
Proof.
  induction a as [|c a IH]; cbn; [reflexivity|]. now rewrite IH, andb_assoc.
Qed.

Lemma all_chars_impl (p q : ascii -> bool) s :
  (forall c, p c = true -> q c = true) ->
  all_chars p s = true -> all_chars q s = true.
Proof.
  intros Hpq. induction s as [|c s IH]; cbn; [reflexivity|].
  intros H. apply andb_prop in H as [Hc Hs]. now rewrite (Hpq c Hc), IH.
Qed.

Lemma starts_without_app (p q : ascii -> bool) w rest :
  (forall c, q c = true -> p c = false) ->
  all_chars q w = true ->
  starts_without p rest ->
  starts_without p (w ++ rest).
Proof.
  intros Hqp Hw Hrest. destruct w as [|c w]; [exact Hrest|].
  cbn in *. apply andb_prop in Hw as [Hc _]. now apply Hqp.
Qed.

Lemma string_length_app (a b : string) :
  String.length (a ++ b) = (String.length a + String.length b)%nat.
Proof. induction a as [|c a IH]; cbn; [reflexivity|]. now rewrite IH. Qed.

Lemma taken_app w rest : taken (w ++ rest) rest = w.
Proof.
  unfold taken. rewrite string_length_app.
  replace (String.length w + String.length rest - String.length rest)%nat
    with (String.length w) by lia.
  induction w as [|c w IH]; cbn.
  - now destruct rest.
  - now rewrite IH.
Qed.

Lemma taken_all s : taken s "" = s.
Proof.
  rewrite <- (taken_app s "") at 2.
  replace (s ++ "") with s; [reflexivity|].
  induction s as [|c s IH]; cbn; [reflexivity|]. now rewrite <- IH.
Qed.

Lemma digit_not_space c : is_digit c = true -> is_space c = false.
Proof.
  intros H.
  pose proof (for_all_ascii (fun c => implb (is_digit c) (negb (is_space c)))
                eq_refl c) as Hc.
  cbv beta in Hc. rewrite H in Hc. now apply negb_true_iff.
Qed.

Lemma space_not_digit c : is_space c = true -> is_digit c = false.
Proof.
  intros H. destruct (is_digit c) eqn:Hd; [|reflexivity].
  apply digit_not_space in Hd. congruence.
Qed.

Section Results.
Variable ic : bool.
Context {R : Type}.
Variable P : R -> Prop.

Lemma star_result p : forall s pv (k : option ascii -> string -> option R) x,
  (forall pv' s' y, k pv' s' = Some y -> P y) ->
  star p pv s k = Some x -> P x.
Proof.
  induction s as [|c s IH]; intros pv k x Hk; cbn [star].
  - apply Hk.
  - destruct (p c); [|apply Hk].
    destruct (star p (Some c) s k) as [y|] eqn:Hs.
    + intros [= <-]. eapply IH; eassumption.
    + apply Hk.
Qed.

Lemma rep_result p : forall n s pv (k : option ascii -> string -> option R) x,
  (forall pv' s' y, k pv' s' = Some y -> P y) ->
  rep n p pv s k = Some x -> P x.
Proof.
  induction n as [|n IH]; intros s pv k x Hk; cbn [rep].
  - apply Hk.
  - destruct s as [|c s]; [discriminate|].
    destruct (p c); [|discriminate]. now apply IH.
Qed.

(** What a match returns, its continuation returned. *)
Lemma rmatch_result r :
  forall pv s cs (k : option ascii -> string -> list (nat * string) -> option R) x,
    (forall pv' s' cs' y, k pv' s' cs' = Some y -> P y) ->
    rmatch ic r pv s cs k = Some x -> P x.
Proof.
  induction r as [|a|p|p|p|n p|r IH|r1 IH1 r2 IH2|r1 IH1 r2 IH2|i r IH|];
    intros pv s cs k x Hk; cbn [rmatch].
  - apply Hk.
  - destruct s as [|c s]; [discriminate|].
    destruct (chr_matches ic a c); [apply Hk|discriminate].
  - destruct s as [|c s]; [discriminate|].
    destruct (p c); [apply Hk|discriminate].
  - apply star_result. intros pv' s' y. apply Hk.
  - destruct s as [|c s]; [discriminate|].
    destruct (p c); [|discriminate].
    apply star_result. intros pv' s' y. apply Hk.
  - apply rep_result. intros pv' s' y. apply Hk.
  - destruct (rmatch ic r pv s cs k) as [y|] eqn:Hr.
    + intros [= <-]. eapply IH; eassumption.
    + apply Hk.
  - apply IH1. intros pv' s' cs' y. now apply IH2.
  - destruct (rmatch ic r1 pv s cs k) as [y|] eqn:Hr.
    + intros [= <-]. eapply IH1; eassumption.
    + now apply IH2.
  - apply IH. intros pv' s' cs' y. apply Hk.
  - destruct (at_boundary pv s); [apply Hk|discriminate].
Qed.
End Results.

Lemma match_at_groups ic r pv s m :
  match_at ic r pv s = Some m -> List.length (groups m) = ngroups r.
Proof.
  unfold match_at. intros H.
  refine (rmatch_result ic (fun m => List.length (groups m) = ngroups r)
            r _ _ _ _ _ _ H).
  intros pv' s' cs' y [= <-]. cbn [groups]. now rewrite length_map, length_seq.
Qed.

Lemma scan_groups ic r : forall s pv skip m,
  In m (scan ic r pv s skip) -> List.length (groups m) = ngroups r.
Proof.
  induction s as [|c s IH]; intros pv skip m; cbn [scan].
  - destruct skip; [|intros []].
    destruct (match_at ic r pv "") as [m'|] eqn:Hm; [|intros []].
    intros [<-|[]]. eapply match_at_groups; eassumption.
  - destruct skip; [|apply IH].
    destruct (match_at ic r pv (String c s)) as [m'|] eqn:Hm; [|apply IH].
    intros [<-|Hin]; [eapply match_at_groups; eassumption|eapply IH; eassumption].
Qed.

Lemma finditer_groups ic r content m :
  In m (finditer ic r content) -> List.length (groups m) = ngroups r.
Proof. apply scan_groups. Qed.

(** * The extractor on an HSL literal *)

Section Steps.
Context {R : Type}.
Implicit Types k : option ascii -> string -> list (nat * string) -> option R.

Lemma step_chr c r pv s cs k :
  rmatch false (Seq (Chr c) r) pv (String c s) cs k
  = rmatch false r (Some c) s cs k.
Proof. cbn [rmatch]. unfold chr_matches. now rewrite Ascii.eqb_refl. Qed.

Lemma step_lit t : forall r pv s cs k,
  rmatch false (Seq (lit t) r) pv (t ++ s) cs k
  = rmatch false r (last_of pv t) s cs k.
Proof.
  induction t as [|c t IH]; intros r pv s cs k.
  - reflexivity.
  - cbn [lit append last_of].
    change (rmatch false (Seq (Seq (Chr c) (lit t)) r) pv (String c (t ++ s)) cs k)
      with (rmatch false (Seq (Chr c) (Seq (lit t) r)) pv (String c (t ++ s)) cs k).
    rewrite step_chr. apply IH.
Qed.

Lemma step_ws r w rest pv cs k x :
  all_chars is_space w = true ->
  starts_without is_space rest ->
  rmatch false r (last_of pv w) rest cs k = Some x ->
  rmatch false (Seq ws r) pv (w ++ rest) cs k = Some x.
Proof.
  intros Hw Hrest Hk. unfold ws. cbn [rmatch].
  now apply star_app.
Qed.

Lemma step_num i r d rest pv cs k x :
  is_number d = true ->
  starts_without is_digit rest ->
  rmatch false r (last_of pv d) rest ((i, d) :: cs) k = Some x ->
  rmatch false (Seq (Grp i num) r) pv (d ++ rest) cs k = Some x.
Proof.
  intros Hd Hrest Hk. destruct d as [|c d]; [discriminate|].
  cbn [is_number all_chars] in Hd. apply andb_prop in Hd as [Hc Hd].
  unfold num. cbn [rmatch append]. rewrite Hc.
  apply star_app; [assumption..|].
  change (String c (d ++ rest)) with (String c d ++ rest).
  now rewrite taken_app.
Qed.

Lemma step_comma r w w' rest pv cs k x :
  all_chars is_space w = true ->
  all_chars is_space w' = true ->
  starts_without is_space rest ->
  rmatch false r (last_of (Some ","%char) w') rest cs k = Some x ->
  rmatch false (Seq comma r) pv (w ++ "," ++ w' ++ rest) cs k = Some x.
Proof.
  intros Hw Hw' Hrest Hk.
  change (rmatch false (Seq comma r) pv (w ++ "," ++ w' ++ rest) cs k)
    with (rmatch false (Seq ws (Seq (Chr ",") (Seq ws r))) pv
            (w ++ String "," (w' ++ rest)) cs k).
  apply step_ws; [assumption|reflexivity|].
  rewrite step_chr. now apply step_ws.
Qed.
End Steps.

Lemma starts_with_number p d rest :
  (forall c, is_digit c = true -> p c = false) ->
  is_number d = true -> starts_without p (d ++ rest).
Proof.
  intros Hp Hd. destruct d as [|c d]; [discriminate|].
  cbn in *. apply andb_prop in Hd as [Hc _]. now apply Hp.
Qed.

Lemma hsl_literal_match w1 hs w2 w3 ss w4 w5 ls w6 :
  all_chars is_space w1 = true -> all_chars is_space w2 = true ->
  all_chars is_space w3 = true -> all_chars is_space w4 = true ->
  all_chars is_space w5 = true -> all_chars is_space w6 = true ->
  is_number hs = true -> is_number ss = true -> is_number ls = true ->
  match_at false HSL_COLOR_REGEX None (hsl_literal w1 hs w2 w3 ss w4 w5 ls w6)
  = Some {| group0 := hsl_literal w1 hs w2 w3 ss w4 w5 ls w6;
            groups := [Some hs; Some ss; Some ls] |}.
Proof.
  intros H1 H2 H3 H4 H5 H6 Hh Hs Hl.
  unfold match_at, HSL_COLOR_REGEX.
  set (lit0 := hsl_literal w1 hs w2 w3 ss w4 w5 ls w6).
  unfold hsl_literal in lit0.
  set (k0 := fun (_ : option ascii) (s' : string) (cs : list (nat * string)) => _).
  unfold lit0 at 1. rewrite step_lit.
  apply step_ws; [assumption|apply starts_with_number; [apply digit_not_space|assumption]|].
  apply step_num; [assumption| |].
  { apply (starts_without_app _ is_space); [apply space_not_digit|assumption|reflexivity]. }
  apply step_comma; [assumption..| |].
  { apply starts_with_number; [apply digit_not_space|assumption]. }
  apply step_num; [assumption|reflexivity|].
  change ("%" ++ w4 ++ "," ++ w5 ++ ls ++ "%" ++ w6 ++ ")")
    with (String "%" (w4 ++ "," ++ w5 ++ ls ++ "%" ++ w6 ++ ")")).
  rewrite step_chr.
  apply step_comma; [assumption..| |].
  { apply starts_with_number; [apply digit_not_space|assumption]. }
  apply step_num; [assumption|reflexivity|].
  change ("%" ++ w6 ++ ")") with (String "%" (w6 ++ ")")).
  rewrite step_chr.
  apply step_ws; [assumption|reflexivity|].
  cbn [rmatch]. unfold chr_matches. rewrite Ascii.eqb_refl.
  unfold k0. rewrite taken_all. reflexivity.
Qed.

Lemma no_first_spec ic r p s :
  no_first ic r p = true ->
  all_chars p s = true ->
  all_chars (fun c => negb (first ic r c)) s = true.
Proof.
  intros Hno. apply all_chars_impl. intros c Hc.
  pose proof (for_all_ascii _ Hno c) as H. cbv beta in H.
  now rewrite Hc in H.
Qed.

Lemma spaces_are_body w : all_chars is_space w = true -> all_chars body_char w = true.
Proof.
  apply all_chars_impl. intros c Hc. unfold body_char. now rewrite Hc.
Qed.

Lemma number_is_body d : is_number d = true -> all_chars body_char d = true.
Proof.
  intros Hd. destruct d as [|c d]; [discriminate|]. revert Hd.
  apply all_chars_impl. intros a Ha. unfold body_char. rewrite Ha.
  now rewrite orb_true_r.
Qed.

Section Literal.
Variables w1 hs w2 w3 ss w4 w5 ls w6 : string.
Hypothesis H1 : all_chars is_space w1 = true.
Hypothesis H2 : all_chars is_space w2 = true.
Hypothesis H3 : all_chars is_space w3 = true.
Hypothesis H4 : all_chars is_space w4 = true.
Hypothesis H5 : all_chars is_space w5 = true.
Hypothesis H6 : all_chars is_space w6 = true.
Hypothesis Hh : is_number hs = true.
Hypothesis Hs : is_number ss = true.
Hypothesis Hl : is_number ls = true.

Lemma hsl_literal_body :
  hsl_literal w1 hs w2 w3 ss w4 w5 ls w6
  = String "h" (String "s" (String "l" (String "(" (hsl_body w1 hs w2 w3 ss w4 w5 ls w6)))).
Proof. reflexivity. Qed.

Lemma hsl_body_chars : all_chars body_char (hsl_body w1 hs w2 w3 ss w4 w5 ls w6) = true.
Proof.
  unfold hsl_body. rewrite !all_chars_app.
  rewrite (spaces_are_body w1 H1), (spaces_are_body w2 H2),
    (spaces_are_body w3 H3), (spaces_are_body w4 H4),
    (spaces_are_body w5 H5), (spaces_are_body w6 H6),
    (number_is_body hs Hh), (number_is_body ss Hs), (number_is_body ls Hl).
  reflexivity.
Qed.

Lemma hsl_literal_chars :
  all_chars literal_char (hsl_literal w1 hs w2 w3 ss w4 w5 ls w6) = true.
Proof.
  rewrite hsl_literal_body. cbn [all_chars].
  change (literal_char "h") with true. change (literal_char "s") with true.
  change (literal_char "l") with true. change (literal_char "(") with true.
  cbn [andb]. generalize hsl_body_chars. apply all_chars_impl.
  intros c Hc. unfold literal_char. now rewrite Hc.
Qed.

Lemma hsl_literal_only_hsl :
  finditer false HEX_COLOR_REGEX (hsl_literal w1 hs w2 w3 ss w4 w5 ls w6) = [] /\
  finditer false RGB_COLOR_REGEX (hsl_literal w1 hs w2 w3 ss w4 w5 ls w6) = [] /\
  finditer false RGBA_COLOR_REGEX (hsl_literal w1 hs w2 w3 ss w4 w5 ls w6) = [] /\
  finditer false HSLA_COLOR_REGEX (hsl_literal w1 hs w2 w3 ss w4 w5 ls w6) = [] /\
  finditer true NAMED_COLOR_REGEX (hsl_literal w1 hs w2 w3 ss w4 w5 ls w6) = [].
Proof.
  unfold finditer. repeat split.
  - apply scan_no_first; [reflexivity|].
    apply (no_first_spec _ _ literal_char); [now vm_compute|apply hsl_literal_chars].
  - apply scan_no_first; [reflexivity|].
    apply (no_first_spec _ _ literal_char); [now vm_compute|apply hsl_literal_chars].
  - apply scan_no_first; [reflexivity|].
    apply (no_first_spec _ _ literal_char); [now vm_compute|apply hsl_literal_chars].
  - rewrite hsl_literal_body.
    rewrite scan_step by reflexivity. rewrite scan_step by reflexivity.
    rewrite scan_step by reflexivity. rewrite scan_step by reflexivity.
    apply scan_no_first; [reflexivity|].
    apply (no_first_spec _ _ body_char); [now vm_compute|apply hsl_body_chars].
  - rewrite hsl_literal_body.
    rewrite scan_step by (now vm_compute). rewrite scan_step by (now vm_compute).
    rewrite scan_step by (now vm_compute). rewrite scan_step by (now vm_compute).
    apply scan_no_first; [now vm_compute|].
    apply (no_first_spec _ _ body_char); [now vm_compute|apply hsl_body_chars].
Qed.

Lemma hsl_literal_found :
  finditer false HSL_COLOR_REGEX (hsl_literal w1 hs w2 w3 ss w4 w5 ls w6)
  = [{| group0 := hsl_literal w1 hs w2 w3 ss w4 w5 ls w6;
        groups := [Some hs; Some ss; Some ls] |}].
Proof.
  unfold finditer.
  pose proof (hsl_literal_match w1 hs w2 w3 ss w4 w5 ls w6
                H1 H2 H3 H4 H5 H6 Hh Hs Hl) as Hm.
  rewrite hsl_literal_body in *.
  now apply scan_whole.
Qed.
End Literal.

Lemma digit_facts_all c : digit_facts c = true.
Proof. apply for_all_ascii. now vm_compute. Qed.

Lemma digit_hexval c :
  is_digit c = true ->
  (code c =? 95)%N = false /\ hexval c = Some (Z.of_N (code c) - 48) /\
  (Z.of_N (code c) - 48 <? 10) = true /\ is_int_space c = false.
Proof.
  intros Hc. pose proof (digit_facts_all c) as H. unfold digit_facts in H.
  rewrite Hc in H. cbn [implb] in H.
  apply andb_prop in H as [H _]. apply andb_prop in H as [H Hv].
  apply andb_prop in H as [H Hu]. apply negb_true_iff in Hu.
  apply andb_prop in H as [_ Hi]. apply negb_true_iff in Hi.
  destruct (hexval c) as [v|]; [|discriminate].
  apply andb_prop in Hv as [Hv Hlt]. apply Z.eqb_eq in Hv. subst v.
  now repeat split.
Qed.

(** The digits of a number are taken to its end and counted. *)
Lemma scan_digits_number d : forall acc n,
  all_chars is_digit d = true ->
  scan_digits 10 d acc n false
  = Some (decimal d acc, n + Z.of_nat (String.length d), EmptyString).
Proof.
  induction d as [|c d IH]; intros acc n Hd; cbn [scan_digits decimal String.length].
  - do 3 f_equal. lia.
  - cbn [all_chars] in Hd. apply andb_prop in Hd as [Hc Hd].
    destruct (digit_hexval c Hc) as (Hu & Hv & Hlt & _).
    rewrite Hu, Hv, Hlt, (IH _ _ Hd). do 3 f_equal. lia.
Qed.

Lemma split_sign_digit c d :
  is_digit c = true -> split_sign (String c d) = (false, String c d).
Proof.
  intros Hc. pose proof (digit_facts_all c) as H. unfold digit_facts in H.
  rewrite Hc in H. cbn [implb] in H. apply andb_prop in H as [_ H].
  unfold split_sign in *.
  destruct c as [[] [] [] [] [] [] [] []]; try discriminate; reflexivity.
Qed.

Lemma skip_prefix_10 t : skip_prefix 10 t = t.
Proof.
  unfold skip_prefix. destruct t as [|c [|x t]]; try reflexivity;
    destruct c as [[] [] [] [] [] [] [] []]; reflexivity.
Qed.

(** [int] of one or more decimal digits: their number, unless they are
    more than 4300. *)
Lemma int_of_str_number d :
  is_number d = true ->
  int_of_str 10 d
  = if 4300 <? Z.of_nat (String.length d)
    then Raise (exceeds_limit (Z.of_nat (String.length d)))
    else Ok (decimal d 0).
Proof.
  intros Hd. destruct d as [|c d]; [discriminate|].
  cbn [is_number] in Hd.
  pose proof Hd as Hd'. cbn [all_chars] in Hd'. apply andb_prop in Hd' as [Hc _].
  destruct (digit_hexval c Hc) as (Hu & _ & _ & Hi).
  unfold int_of_str. cbn [skip_spaces]. rewrite Hi.
  rewrite (split_sign_digit c d Hc), skip_prefix_10.
  rewrite (scan_digits_number _ 0 0 Hd). rewrite Z.add_0_l.
  assert (Hlen : (Z.of_nat (String.length (String c d)) =? 0) = false)
    by (apply Z.eqb_neq; cbn [String.length]; lia).
  change (negb (10 =? 16)) with true. cbn [andb skip_spaces].
  rewrite Hlen.
  assert (Hc95 : c <> "_"%char) by (intros ->; discriminate Hu).
  destruct c as [[] [] [] [] [] [] [] []]; try reflexivity.
  now contradiction Hc95.
Qed.

Lemma int_of_number d :
  is_number d = true -> (String.length d <= 4300)%nat ->
  int_of_group (Some d) = Ok (decimal d 0).
Proof.
  intros Hd Hlen. unfold int_of_group. rewrite (int_of_str_number d Hd).
  replace (4300 <? Z.of_nat (String.length d)) with false
    by (symmetry; apply Z.ltb_ge; lia).
  reflexivity.
Qed.

Lemma int_of_long_number d :
  is_number d = true -> (4300 < String.length d)%nat ->
  int_of_group (Some d) = Raise (exceeds_limit (Z.of_nat (String.length d))).
Proof.
  intros Hd Hlen. unfold int_of_group. rewrite (int_of_str_number d Hd).
  replace (4300 <? Z.of_nat (String.length d)) with true
    by (symmetry; apply Z.ltb_lt; lia).
  reflexivity.
Qed.

Lemma all_hsl_within :
  forallb (fun h =>
     forallb (fun s =>
        forallb (fun l => rgb_channels_within h s l) percent_values)
       percent_values)
    hue_values = true.
Proof. vm_compute. reflexivity. Qed.

Lemma hsl_hex_value_within h s l :
  0 <= h <= 360 -> 0 <= s <= 100 -> 0 <= l <= 100 ->
  exists fh fs fl r g b R G B,
    PyFloat.int_truediv h 360 = Ok fh /\
    PyFloat.int_truediv s 100 = Ok fs /\
    PyFloat.int_truediv l 100 = Ok fl /\
    colorsys.hls_to_rgb fh fl fs = (r, g, b) /\
    cut_to (r * 255) R /\ cut_to (g * 255) G /\ cut_to (b * 255) B /\
    0 <= R <= 255 /\ 0 <= G <= 255 /\ 0 <= B <= 255 /\
    hsl_hex_value h s l = Ok (hex_value_of R G B).
Proof.
  intros Hh Hs Hl. pose proof all_hsl_within as Hall.
  rewrite forallb_forall in Hall.
  assert (Hin : forall n hi d, 0 <= n <= Z.of_nat hi ->
            In (PyFloat.int_truediv n d)
               (map (fun k => PyFloat.int_truediv (Z.of_nat k) d) (seq 0 (S hi)))).
  { intros n hi d Hn. replace n with (Z.of_nat (Z.to_nat n)) by lia.
    apply (in_map (fun k => PyFloat.int_truediv (Z.of_nat k) d)), in_seq. lia. }
  specialize (Hall _ (Hin h 360%nat _ Hh)). rewrite forallb_forall in Hall.
  specialize (Hall _ (Hin s 100%nat _ Hs)). rewrite forallb_forall in Hall.
  specialize (Hall _ (Hin l 100%nat _ Hl)).
  unfold hsl_hex_value.
  destruct (PyFloat.int_truediv h 360) as [fh|]; [|discriminate].
  destruct (PyFloat.int_truediv s 100) as [fs|]; [|discriminate].
  destruct (PyFloat.int_truediv l 100) as [fl|]; [|discriminate].
  cbn [rgb_channels_within bind] in *.
  destruct (colorsys.hls_to_rgb fh fl fs) as [[r g] b] eqn:Ergb.
  apply andb_prop in Hall as [Hall Hb]. apply andb_prop in Hall as [Hr Hg].
  apply cut_within_sound in Hr as (R & Hr & Rr & Cr); [|reflexivity].
  apply cut_within_sound in Hg as (G & Hg & Rg & Cg); [|reflexivity].
  apply cut_within_sound in Hb as (B & Hb & Rb & Cb); [|reflexivity].
  change (Uint63.to_Z 255) with 255 in *.
  exists fh, fs, fl, r, g, b, R, G, B.
  rewrite Hr. cbn [bind]. rewrite Hg. cbn [bind]. rewrite Hb. cbn [bind].
  split; [reflexivity|]. split; [reflexivity|]. split; [reflexivity|].
  split; [exact Ergb|]. split; [exact Cr|]. split; [exact Cg|].
  split; [exact Cb|]. split; [exact Rr|]. split; [exact Rg|].
  split; [exact Rb|]. reflexivity.
Qed.

Lemma record_color_first key color :
  record_color key color [] = [(key, [color])].
Proof.
  unfold record_color. cbn [d_mem d_get d_set].
  destruct (eqb_spec key key) as [_|Hne]; [|congruence].
  cbn [mem app d_set]. destruct (eqb_spec key key) as [_|Hne]; [|congruence].
  reflexivity.
Qed.

(** C2 as stated fails: from [hsl(200, 50%, 50%)] the extractor makes the
    key [#3f94bf], while rounding each channel to the nearest integer
    after scaling by 255 gives [#4095bf]. *)
Lemma hsl_key_is_not_rounded :
  exists key,
    extract_colors_from_content "hsl(200, 50%, 50%)"
    = Ok [(Some key, ["hsl(200, 50%, 50%)"])] /\
    spec_hsl_hex_value 200 50 50 = Ok "#4095bf" /\
    spec_hsl_hex_value 200 50 50 <> Ok key.
Proof.
  exists "#3f94bf". split; [now vm_compute|].
  split; [now vm_compute|]. now vm_compute.
Qed.

(** An HSL literal alone, with whatever white space the pattern allows
    and whatever the spelling of the three numbers (of no more digits
    than [int] takes), whose hue is between 0 and 360 and whose
    percentages are between 0 and 100, gives one key, [#] and the
    two-digit hexadecimal of the three channels cut toward zero, and the
    literal as its one spelling. *)
Theorem hsl_literal_key :
  forall w1 hs w2 w3 ss w4 w5 ls w6,
    all_chars is_space w1 = true -> all_chars is_space w2 = true ->
    all_chars is_space w3 = true -> all_chars is_space w4 = true ->
    all_chars is_space w5 = true -> all_chars is_space w6 = true ->
    is_number hs = true -> is_number ss = true -> is_number ls = true ->
    (String.length hs <= 4300)%nat -> (String.length ss <= 4300)%nat ->
    (String.length ls <= 4300)%nat ->
    0 <= decimal hs 0 <= 360 ->
    0 <= decimal ss 0 <= 100 ->
    0 <= decimal ls 0 <= 100 ->
    exists h s l r g b R G B,
      PyFloat.int_truediv (decimal hs 0) 360 = Ok h /\
      PyFloat.int_truediv (decimal ss 0) 100 = Ok s /\
      PyFloat.int_truediv (decimal ls 0) 100 = Ok l /\
      colorsys.hls_to_rgb h l s = (r, g, b) /\
      cut_to (r * 255) R /\ cut_to (g * 255) G /\ cut_to (b * 255) B /\
      0 <= R <= 255 /\ 0 <= G <= 255 /\ 0 <= B <= 255 /\
      extract_colors_from_content (hsl_literal w1 hs w2 w3 ss w4 w5 ls w6)
      = Ok [(Some (hex_value_of R G B),
             [hsl_literal w1 hs w2 w3 ss w4 w5 ls w6])].
Proof.
  intros w1 hs w2 w3 ss w4 w5 ls w6 H1 H2 H3 H4 H5 H6 Hh Hs Hl Lh Ls Ll Rh Rs Rl.
  destruct (hsl_hex_value_within _ _ _ Rh Rs Rl)
    as (h & s & l & r & g & b & R & G & B
        & Eh & Es & El & Ergb & Cr & Cg & Cb & Rr & Rg & Rb & Ekey).
  exists h, s, l, r, g, b, R, G, B.
  repeat (split; [assumption|]).
  destruct (hsl_literal_only_hsl w1 hs w2 w3 ss w4 w5 ls w6
              H1 H2 H3 H4 H5 H6 Hh Hs Hl) as (Fhex & Frgb & Frgba & Fhsla & Fnamed).
  unfold extract_colors_from_content.
  rewrite Fhex, Frgb, Frgba, Fhsla, Fnamed.
  rewrite (hsl_literal_found w1 hs w2 w3 ss w4 w5 ls w6
             H1 H2 H3 H4 H5 H6 Hh Hs Hl).
  cbn [for_each bind]. unfold extract_hsl. cbn [groups group0 mapM].
  rewrite (int_of_number hs Hh Lh), (int_of_number ss Hs Ls),
    (int_of_number ls Hl Ll).
  cbn [bind unpack3]. rewrite Ekey. cbn [bind].
  now rewrite record_color_first.
Qed.

Lemma hsl_literal_key_witness :
  hsl_literal "" "200" "" " " "50" "" "  " "50" " " = "hsl(200, 50%,  50% )" /\
  exists h s l r g b R G B,
    PyFloat.int_truediv 200 360 = Ok h /\
    PyFloat.int_truediv 50 100 = Ok s /\
    PyFloat.int_truediv 50 100 = Ok l /\
    colorsys.hls_to_rgb h l s = (r, g, b) /\
    cut_to (r * 255) R /\ cut_to (g * 255) G /\ cut_to (b * 255) B /\
    0 <= R <= 255 /\ 0 <= G <= 255 /\ 0 <= B <= 255 /\
    extract_colors_from_content "hsl(200, 50%,  50% )"
    = Ok [(Some (hex_value_of R G B), ["hsl(200, 50%,  50% )"])].
Proof.
  split; [reflexivity|].
  apply (hsl_literal_key "" "200" "" " " "50" "" "  " "50" " ");
    try reflexivity; cbn; lia.
Defined.

(** * Literals that the extractor cannot take *)

(** C1, at the input where the code departs from it: the key that the
    extractor makes of [rgb(999999,0,0)] is [#f423f0000], ten characters
    long and so no canonical color, and the aggregator carries it on as
    the [name] of a record. *)
Theorem out_of_range_rgb_key :
  extract_colors_from_content "rgb(999999,0,0)"
  = Ok [(Some "#f423f0000", ["rgb(999999,0,0)"])] /\
  canonical "#f423f0000" = false /\
  process_files style_css ["style.css"]
  = (Ok [("purple",
          [{| name := "#f423f0000"; count := 1;
              variations := ["rgb(999999,0,0)"]; unique := true;
              color_format := "rgb"; category := "purple";
              locations := ["style.css"] |}])], []).
Proof. repeat apply conj; vm_compute; reflexivity. Qed.

Lemma unpack4_five {A : Type} (l : list A) :
  List.length l = 5%nat ->
  unpack4 l = Raise (ValueError "too many values to unpack (expected 4)").
Proof.
  destruct l as [|a [|b [|c [|d [|e [|f l]]]]]]; try discriminate. reflexivity.
Qed.

Lemma for_each_raises {A S : Type} (body : S -> A -> result S) a l s :
  (forall s', exists e, body s' a = Raise e) ->
  exists e, for_each (a :: l) body s = Raise e.
Proof.
  intros Hb. cbn [for_each]. destruct (Hb s) as (e & ->). now exists e.
Qed.

Lemma extract_rgba_raises cm m :
  List.length (groups m) = 5%nat -> exists e, extract_rgba cm m = Raise e.
Proof.
  intros H. unfold extract_rgba. rewrite (unpack4_five _ H). cbn. eauto.
Qed.

Lemma extract_hsla_raises cm m :
  List.length (groups m) = 5%nat -> exists e, extract_hsla cm m = Raise e.
Proof.
  intros H. unfold extract_hsla. rewrite (unpack4_five _ H). cbn. eauto.
Qed.

(** C7, at the inputs where the code departs from it: the RGBA and HSLA
    patterns hold five groups, the loops unpack four, and so two RGBA
    literals that differ in their alpha only, and an HSLA literal, make
    the extractor raise instead of giving a key; [analyze_file] then
    reports the file without colors. *)
Theorem alpha_literals_raise :
  ngroups RGBA_COLOR_REGEX = 5%nat /\ ngroups HSLA_COLOR_REGEX = 5%nat /\
  extract_colors_from_content "rgba(255, 0, 0, 0.5)"
  = Raise (ValueError "too many values to unpack (expected 4)") /\
  extract_colors_from_content "rgba(255, 0, 0, 0.7)"
  = Raise (ValueError "too many values to unpack (expected 4)") /\
  extract_colors_from_content "hsla(200, 50%, 50%, 0.5)"
  = Raise (ValueError "too many values to unpack (expected 4)") /\
  analyze_file alpha_css "a.css"
  = ([], ["Error analyzing a.css: too many values to unpack (expected 4)"]).
Proof. repeat apply conj; vm_compute; reflexivity. Qed.

(** Any text in which the RGBA or the HSLA pattern finds a match makes
    the extractor raise, and so leaves its file without colors. *)
Theorem alpha_match_raises :
  forall content,
    finditer false RGBA_COLOR_REGEX content <> [] \/
    finditer false HSLA_COLOR_REGEX content <> [] ->
    (exists e, extract_colors_from_content content = Raise e) /\
    (forall fs file_path,
        fs file_path = Ok content ->
        exists line, analyze_file fs file_path = ([], [line])).
Proof.
  intros content Hm.
  assert (Hraise : exists e, extract_colors_from_content content = Raise e).
  { unfold extract_colors_from_content.
    destruct (for_each (finditer false HEX_COLOR_REGEX content) extract_hex [])
      as [cm1|e]; [cbn [bind]|now exists e].
    destruct (for_each (finditer false RGB_COLOR_REGEX content) extract_rgb cm1)
      as [cm2|e]; [cbn [bind]|now exists e].
    destruct (finditer false RGBA_COLOR_REGEX content) as [|m ms] eqn:Hrgba.
    - cbn [for_each bind].
      destruct (for_each (finditer false HSL_COLOR_REGEX content) extract_hsl cm2)
        as [cm3|e]; [cbn [bind]|now exists e].
      destruct Hm as [Hm|Hm]; [congruence|].
      destruct (finditer false HSLA_COLOR_REGEX content) as [|m ms] eqn:Hhsla;
        [congruence|].
      destruct (for_each_raises extract_hsla m ms cm3) as (e & ->); [|now exists e].
      intros s'. apply extract_hsla_raises.
      apply (finditer_groups false HSLA_COLOR_REGEX content).
      rewrite Hhsla. now left.
    - destruct (for_each_raises extract_rgba m ms cm2) as (e & ->); [|now exists e].
      intros s'. apply extract_rgba_raises.
      apply (finditer_groups false RGBA_COLOR_REGEX content).
      rewrite Hrgba. now left. }
  split; [exact Hraise|].
  intros fs file_path Hread. destruct Hraise as (e & He).
  unfold analyze_file. rewrite Hread. cbn [bind]. rewrite He. eauto.
Qed.

(** A file with a named color and an RGBA literal *)
Lemma alpha_match_raises_witness :
  exists e, extract_colors_from_content "a { color: red; border: rgba(0,0,0,1) }"
            = Raise e.
Proof.
  apply (alpha_match_raises "a { color: red; border: rgba(0,0,0,1) }").
  left. vm_compute. discriminate.
Defined.

(** * Keys and channels *)

Lemma channels_round_trip : forallb byte_round_trip channel_values = true.
Proof. vm_compute. reflexivity. Qed.

Lemma pairs_round_trip :
  forallb (fun c1 => forallb (fun c2 => pair_round_trip c1 c2) all_ascii) all_ascii
  = true.
Proof. vm_compute. reflexivity. Qed.

Lemma lower_char_facts_all c : lower_char_facts c = true.
Proof. apply for_all_ascii. vm_compute. reflexivity. Qed.

Lemma grays_facts : forallb gray_facts channel_values = true.
Proof. vm_compute. reflexivity. Qed.

Lemma lower_char_idem c : lower_char (lower_char c) = lower_char c.
Proof.
  pose proof (lower_char_facts_all c) as H. unfold lower_char_facts in H.
  apply andb_prop in H as [H _]. apply andb_prop in H as [H _].
  now apply Ascii.eqb_eq in H.
Qed.

Lemma lower_char_hexdigit c :
  is_hexdigit c = true -> is_lower_hexdigit (lower_char c) = true.
Proof.
  intros Hc. pose proof (lower_char_facts_all c) as H. unfold lower_char_facts in H.
  apply andb_prop in H as [H _]. apply andb_prop in H as [_ H].
  now rewrite Hc in H.
Qed.

Lemma lower_char_lower_hexdigit c :
  is_lower_hexdigit c = true -> lower_char c = c.
Proof.
  intros Hc. pose proof (lower_char_facts_all c) as H. unfold lower_char_facts in H.
  apply andb_prop in H as [_ H]. rewrite Hc in H. now apply Ascii.eqb_eq in H.
Qed.

Lemma lower_idem s : lower (lower s) = lower s.
Proof.
  induction s as [|c s IH]; cbn [lower]; [reflexivity|].
  now rewrite lower_char_idem, IH.
Qed.

Lemma lower_length s : String.length (lower s) = String.length s.
Proof. induction s as [|c s IH]; cbn [lower String.length]; congruence. Qed.

Lemma format_02x_byte n :
  0 <= n <= 255 ->
  exists c1 c2,
    format_02x n = String c1 (String c2 EmptyString) /\
    lower_char c1 = c1 /\ lower_char c2 = c2 /\
    int16 (String c1 (String c2 EmptyString)) = Ok n.
Proof.
  intros Hn. pose proof channels_round_trip as H.
  rewrite forallb_forall in H. specialize (H n (channel_values_spec n Hn)).
  unfold byte_round_trip in H.
  destruct (format_02x n) as [|c1 [|c2 [|c3 t]]]; try discriminate.
  exists c1, c2. split; [reflexivity|].
  repeat (apply andb_prop in H as [H ?]).
  destruct (int16 _) as [v|]; [|discriminate].
  repeat split; try (now apply Ascii.eqb_eq).
  f_equal. now apply Z.eqb_eq.
Qed.

Lemma int16_pair_round_trip c1 c2 :
  is_hexdigit c1 = true -> is_hexdigit c2 = true ->
  exists v,
    int16 (String (lower_char c1) (String (lower_char c2) EmptyString)) = Ok v /\
    format_02x v = String (lower_char c1) (String (lower_char c2) EmptyString).
Proof.
  intros H1 H2. pose proof pairs_round_trip as Hall.
  rewrite forallb_forall in Hall. specialize (Hall c1 (all_ascii_spec c1)).
  rewrite forallb_forall in Hall. specialize (Hall c2 (all_ascii_spec c2)).
  unfold pair_round_trip in Hall. rewrite H1, H2 in Hall. cbn [andb implb] in Hall.
  destruct (int16 _) as [v|]; [|discriminate].
  exists v. split; [reflexivity|]. now apply String.eqb_eq.
Qed.

Lemma channels_two_hex_digits : forallb two_hex_digits channel_values = true.
Proof. vm_compute. reflexivity. Qed.

Lemma format_02x_channel n :
  0 <= n <= 255 ->
  String.length (format_02x n) = 2%nat /\
  all_chars is_lower_hexdigit (format_02x n) = true.
Proof.
  intros Hn. pose proof channels_two_hex_digits as H.
  rewrite forallb_forall in H. specialize (H n (channel_values_spec n Hn)).
  unfold two_hex_digits in H. apply andb_prop in H as [Hl Hc].
  split; [now apply Nat.eqb_eq|exact Hc].
Qed.

Lemma hex_digits_length fuel : forall n acc,
  (String.length acc <= String.length (hex_digits fuel n acc))%nat.
Proof.
  induction fuel as [|fuel IH]; intros n acc; cbn [hex_digits]; [lia|].
  destruct (n <? 16); [cbn [String.length]; lia|].
  etransitivity; [|apply IH]. cbn [String.length]. lia.
Qed.

Lemma hex_of_nonneg_length n : (1 <= String.length (hex_of_nonneg n))%nat.
Proof.
  unfold hex_of_nonneg. cbn [hex_digits].
  destruct (n <? 16); [cbn [String.length]; lia|].
  etransitivity; [|apply hex_digits_length]. cbn [String.length]. lia.
Qed.

Lemma hex_of_nonneg_long n :
  256 <= n -> (3 <= String.length (hex_of_nonneg n))%nat.
Proof.
  intros Hn. unfold hex_of_nonneg.
  assert (Hlog : 8 <= Z.log2 n) by (apply Z.log2_le_pow2; lia).
  destruct (Z.to_nat (Z.log2 n)) as [|[|fuel]] eqn:Hfuel; try lia.
  cbn [hex_digits].
  replace (n <? 16) with false by (symmetry; apply Z.ltb_ge; lia).
  replace (n / 16 <? 16) with false
    by (symmetry; apply Z.ltb_ge; apply Z.div_le_lower_bound; lia).
  match goal with
  | |- context [if ?c then _ else _] => destruct c
  end.
  - cbn [String.length]. lia.
  - etransitivity; [|apply hex_digits_length]. cbn [String.length]. lia.
Qed.

Lemma format_02x_length n :
  0 <= n ->
  (2 <= String.length (format_02x n))%nat /\
  (255 < n -> (3 <= String.length (format_02x n))%nat).
Proof.
  intros Hn. unfold format_02x.
  replace (n <? 0) with false by (symmetry; apply Z.ltb_ge; lia).
  pose proof (hex_of_nonneg_length n) as H1.
  destruct (String.length (hex_of_nonneg n) <? 2)%nat eqn:Hlt.
  - apply Nat.ltb_lt in Hlt. rewrite string_length_app. cbn [String.length].
    split; [lia|]. intros Hbig.
    pose proof (hex_of_nonneg_long n ltac:(lia)). lia.
  - apply Nat.ltb_ge in Hlt. split; [lia|]. intros Hbig.
    apply hex_of_nonneg_long. lia.
Qed.

Lemma hex_value_of_canonical r g b :
  0 <= r -> 0 <= g -> 0 <= b ->
  (canonical (hex_value_of r g b) = true
   <-> r <= 255 /\ g <= 255 /\ b <= 255).
Proof.
  intros Hr Hg Hb. unfold hex_value_of.
  change (canonical ("#" ++ format_02x r ++ format_02x g ++ format_02x b))
    with ((String.length (format_02x r ++ format_02x g ++ format_02x b) =? 6)%nat
          && all_chars is_lower_hexdigit
               (format_02x r ++ format_02x g ++ format_02x b)).
  rewrite !string_length_app, !all_chars_app.
  destruct (format_02x_length r Hr) as [Lr Br].
  destruct (format_02x_length g Hg) as [Lg Bg].
  destruct (format_02x_length b Hb) as [Lb Bb].
  split.
  - intros H. apply andb_prop in H as [Hlen _]. apply Nat.eqb_eq in Hlen.
    destruct (Z_le_gt_dec r 255) as [?|Gr]; [|specialize (Br ltac:(lia)); lia].
    destruct (Z_le_gt_dec g 255) as [?|Gg]; [|specialize (Bg ltac:(lia)); lia].
    destruct (Z_le_gt_dec b 255) as [?|Gb]; [|specialize (Bb ltac:(lia)); lia].
    now repeat split.
  - intros (Ur & Ug & Ub).
    destruct (format_02x_channel r ltac:(lia)) as [-> ->].
    destruct (format_02x_channel g ltac:(lia)) as [-> ->].
    destruct (format_02x_channel b ltac:(lia)) as [-> ->].
    reflexivity.
Qed.

(** The key that the RGB loop makes of three whole numbers without sign is
    a canonical color exactly when none of them is above 255. *)
Theorem rgb_key_canonical_iff :
  forall r g b,
    0 <= r -> 0 <= g -> 0 <= b ->
    (canonical (hex_value_of r g b) = true
     <-> r <= 255 /\ g <= 255 /\ b <= 255).
Proof. exact hex_value_of_canonical. Qed.

Lemma rgb_key_canonical_iff_witness :
  canonical (hex_value_of 255 0 128) = true
  <-> 255 <= 255 /\ 0 <= 255 /\ 128 <= 255.
Proof. apply (rgb_key_canonical_iff 255 0 128); lia. Defined.

(** The key is read back as the channels that made it, and a color of six
    hexadecimal digits is the key of the channels read from it, in
    lowercase. *)
Theorem hex_round_trip :
  (forall r g b,
      0 <= r <= 255 -> 0 <= g <= 255 -> 0 <= b <= 255 ->
      hex_to_rgb (hex_value_of r g b) = Ok (r, g, b)) /\
  (forall s,
      valid_hex6 s = true ->
      exists r g b,
        hex_to_rgb s = Ok (r, g, b) /\ hex_value_of r g b = lower s).
Proof.
  split.
  - intros r g b Hr Hg Hb.
    destruct (format_02x_byte r Hr) as (r1 & r2 & Er & Lr1 & Lr2 & Ir).
    destruct (format_02x_byte g Hg) as (g1 & g2 & Eg & Lg1 & Lg2 & Ig).
    destruct (format_02x_byte b Hb) as (b1 & b2 & Eb & Lb1 & Lb2 & Ib).
    unfold hex_value_of, hex_to_rgb, normalize_hex_color.
    rewrite Er, Eg, Eb.
    cbn [append lower String.length Nat.eqb tail substring].
    rewrite Lr1, Lr2, Lg1, Lg2, Lb1, Lb2.
    rewrite Ir. cbn [bind]. rewrite Ig. cbn [bind]. rewrite Ib. reflexivity.
  - intros s. unfold valid_hex6.
    destruct s as [|c0 [|c1 [|c2 [|c3 [|c4 [|c5 [|c6 [|c7 s]]]]]]]];
      try discriminate;
      try (destruct c0 as [[] [] [] [] [] [] [] []]; discriminate).
    destruct c0 as [[] [] [] [] [] [] [] []]; try discriminate.
    cbn [String.length Nat.eqb andb list_ascii_of_string forallb].
    intros H. repeat (apply andb_prop in H as [? H]).
    destruct (int16_pair_round_trip c1 c2) as (r & Hr & Fr); [assumption..|].
    destruct (int16_pair_round_trip c3 c4) as (g & Hg & Fg); [assumption..|].
    destruct (int16_pair_round_trip c5 c6) as (b & Hb & Fb); [assumption..|].
    exists r, g, b. split.
    + unfold hex_to_rgb, normalize_hex_color.
      cbn [lower String.length Nat.eqb tail substring].
      change (lower_char "#") with "#"%char. cbn [tail substring].
      rewrite Hr. cbn [bind]. rewrite Hg. cbn [bind]. rewrite Hb. reflexivity.
    + unfold hex_value_of. rewrite Fr, Fg, Fb. reflexivity.
Qed.

Lemma hex_round_trip_witness :
  hex_to_rgb (hex_value_of 63 148 191) = Ok (63, 148, 191) /\
  exists r g b,
    hex_to_rgb "#3F94bf" = Ok (r, g, b) /\ hex_value_of r g b = lower "#3F94bf".
Proof.
  destruct hex_round_trip as [Hkey Hhex]. split.
  - apply Hkey; lia.
  - apply Hhex. reflexivity.
Defined.

(** Normalizing twice is normalizing once, and neither the channels nor
    the category of a color change when it is normalized first: the
    case of the letters and the short form make no difference. *)
Theorem normalize_hex_color_idempotent :
  forall s,
    normalize_hex_color (normalize_hex_color s) = normalize_hex_color s /\
    hex_to_rgb (normalize_hex_color s) = hex_to_rgb s /\
    determine_color_category (normalize_hex_color s) = determine_color_category s.
Proof.
  intros s.
  assert (Hidem : normalize_hex_color (normalize_hex_color s) = normalize_hex_color s).
  { unfold normalize_hex_color.
    destruct (String.length (lower s) =? 4)%nat eqn:Hlen.
    - apply Nat.eqb_eq in Hlen. rewrite lower_length in Hlen.
      destruct s as [|c0 [|c1 [|c2 [|c3 [|c4 s]]]]]; try discriminate.
      cbn [lower tail double_chars append String.length Nat.eqb].
      now rewrite !lower_char_idem.
    - now rewrite lower_idem, Hlen. }
  split; [exact Hidem|].
  assert (Hrgb : hex_to_rgb (normalize_hex_color s) = hex_to_rgb s)
    by (unfold hex_to_rgb; now rewrite Hidem).
  split; [exact Hrgb|].
  unfold determine_color_category. now rewrite Hrgb.
Qed.

Lemma normalize_canonical s :
  valid_hex3 s || valid_hex6 s = true ->
  canonical (normalize_hex_color (lower s)) = true.
Proof.
  intros H. apply orb_prop in H as [H|H].
  - unfold valid_hex3 in H.
    destruct s as [|c0 [|c1 [|c2 [|c3 [|c4 s]]]]];
      try discriminate;
      try (destruct c0 as [[] [] [] [] [] [] [] []]; discriminate).
    destruct c0 as [[] [] [] [] [] [] [] []]; try discriminate.
    cbn [String.length Nat.eqb andb list_ascii_of_string forallb] in H.
    repeat (apply andb_prop in H as [? H]).
    unfold normalize_hex_color.
    cbn [lower String.length Nat.eqb tail double_chars append].
    change (lower_char "#") with "#"%char.
    cbn [canonical String.length Nat.eqb andb all_chars].
    rewrite !lower_char_idem, !lower_char_hexdigit by assumption. reflexivity.
  - unfold valid_hex6 in H.
    destruct s as [|c0 [|c1 [|c2 [|c3 [|c4 [|c5 [|c6 [|c7 s]]]]]]]];
      try discriminate;
      try (destruct c0 as [[] [] [] [] [] [] [] []]; discriminate).
    destruct c0 as [[] [] [] [] [] [] [] []]; try discriminate.
    cbn [String.length Nat.eqb andb list_ascii_of_string forallb] in H.
    repeat (apply andb_prop in H as [? H]).
    unfold normalize_hex_color.
    cbn [lower String.length Nat.eqb].
    change (lower_char "#") with "#"%char.
    cbn [canonical String.length Nat.eqb andb all_chars].
    rewrite !lower_char_idem, !lower_char_hexdigit by assumption. reflexivity.
Qed.

(** A color whose three channels are equal has hue and saturation 0 and
    the lightness [v * 100 / 255] cut to a whole number; it is black up
    to 25, white from 233, gray between, and never one of the hues. *)
Theorem equal_channels_are_gray :
  forall v,
    0 <= v <= 255 ->
    rgb_to_hsl v v v = Ok (0, 0, v * 100 / 255) /\
    determine_color_category (hex_value_of v v v) = Ok (gray_category v).
Proof.
  intros v Hv. pose proof grays_facts as H.
  rewrite forallb_forall in H. specialize (H v (channel_values_spec v Hv)).
  unfold gray_facts in H.
  destruct (rgb_to_hsl v v v) as [[[h s] l]|]; [|discriminate].
  destruct (determine_color_category _) as [c|]; [|discriminate].
  repeat (apply andb_prop in H as [H ?]).
  apply Z.eqb_eq in H. subst h.
  repeat match goal with
         | E : (_ =? _) = true |- _ => apply Z.eqb_eq in E; subst
         end.
  split; [reflexivity|]. f_equal. now apply String.eqb_eq.
Qed.

Lemma equal_channels_are_gray_witness :
  rgb_to_hsl 26 26 26 = Ok (0, 0, 26 * 100 / 255) /\
  determine_color_category (hex_value_of 26 26 26) = Ok (gray_category 26).
Proof. apply equal_channels_are_gray. lia. Defined.

(** * What the extractor returns *)

Lemma extract_invariant (Inv : color_matches -> Prop) :
  Inv [] ->
  (forall key color cm, Inv cm -> Inv (record_color key color cm)) ->
  forall content cm, extract_colors_from_content content = Ok cm -> Inv cm.
Proof.
  intros H0 Hrec content cm. unfold extract_colors_from_content. intros H.
  assert (Hstep : forall (body : color_matches -> match_object -> result color_matches),
             (forall cm m cm', body cm m = Ok cm' ->
                               exists key color, cm' = record_color key color cm) ->
             forall l cm cm', Inv cm -> for_each l body cm = Ok cm' -> Inv cm').
  { intros body Hb l. apply for_each_invariant.
    intros s a s' Hs Ha. destruct (Hb _ _ _ Ha) as (key & color & ->).
    now apply Hrec. }
  apply bind_Ok in H as (cm1 & H1 & H). apply bind_Ok in H as (cm2 & H2 & H).
  apply bind_Ok in H as (cm3 & H3 & H). apply bind_Ok in H as (cm4 & H4 & H).
  apply bind_Ok in H as (cm5 & H5 & H6).
  eapply Hstep in H1; [| |exact H0].
  2:{ intros c m c' [= <-]. eauto. }
  eapply Hstep in H2; [| |exact H1].
  2:{ unfold extract_rgb. intros c m c' E.
      apply bind_Ok in E as (ints & _ & E). apply bind_Ok in E as ([[r g] b] & _ & [= <-]).
      eauto. }
  eapply Hstep in H3; [| |exact H2].
  2:{ unfold extract_rgba. intros c m c' E.
      apply bind_Ok in E as ([[[r g] b] a] & _ & E).
      apply bind_Ok in E as (r' & _ & E). apply bind_Ok in E as (g' & _ & E).
      apply bind_Ok in E as (b' & _ & [= <-]). eauto. }
  eapply Hstep in H4; [| |exact H3].
  2:{ unfold extract_hsl. intros c m c' E.
      apply bind_Ok in E as (ints & _ & E). apply bind_Ok in E as ([[h s] l] & _ & E).
      apply bind_Ok in E as (hv & _ & [= <-]). eauto. }
  eapply Hstep in H5; [| |exact H4].
  2:{ unfold extract_hsla. intros c m c' E.
      apply bind_Ok in E as ([[[h s] l] a] & _ & E).
      apply bind_Ok in E as (h' & _ & E). apply bind_Ok in E as (s' & _ & E).
      apply bind_Ok in E as (l' & _ & E). apply bind_Ok in E as (hv & _ & [= <-]).
      eauto. }
  eapply Hstep in H6; [exact H6| |exact H5].
  intros c m c' [= <-]. eauto.
Qed.

Lemma d_get_set {K V : Type} `{Eqb K} (k k' : K) (v : V) (d : dict K V) :
  d_get k' (d_set k v d) = if eqb k' k then Some v else d_get k' d.
Proof.
  destruct (eqb_spec k' k) as [->|Hne].
  - apply d_get_set_same.
  - now apply d_get_set_other.
Qed.

Lemma record_color_well_formed key color cm :
  well_formed cm -> well_formed (record_color key color cm).
Proof.
  intros Hcm. unfold record_color. cbv zeta.
  match goal with
  | |- context [d_get key ?c] =>
      assert (H1 : forall k vs,
                 d_get k c = Some vs ->
                 (k = key /\ vs = [] /\ d_mem key cm = false) \/
                 ((exists v0 tl, vs = v0 :: tl) /\ NoDup vs));
      [|revert H1; generalize c]
  end.
  { intros k vs. destruct (d_mem key cm) eqn:Hm.
    - intros Hk. right. now apply (Hcm k).
    - rewrite d_get_set. destruct (eqb_spec k key) as [->|Hne].
      + intros [= <-]. now left.
      + intros Hk. right. now apply (Hcm k). }
  intros cm1 H1.
  destruct (d_get key cm1) as [l|] eqn:Hl.
  - destruct (mem color l) eqn:Hmem.
    + intros k vs Hk. destruct (H1 k vs Hk) as [(-> & -> & _)|H]; [|exact H].
      rewrite Hl in Hk. injection Hk as ->. discriminate.
    + intros k vs. rewrite d_get_set. destruct (eqb_spec k key) as [->|Hne].
      * intros [= <-]. split.
        { destruct l as [|v0 tl]; cbn [app]; eauto. }
        assert (Hnd : NoDup l).
        { destruct (H1 key l Hl) as [(_ & -> & _)|[_ H]]; [constructor|exact H]. }
        apply NoDup_app; [assumption|repeat constructor; intros []|].
        intros y Hy [<-|[]]. apply mem_spec in Hy. congruence.
      * intros Hk. destruct (H1 k vs Hk) as [(-> & _)|H]; [congruence|exact H].
  - intros k vs Hk. destruct (H1 k vs Hk) as [(-> & _)|H]; [congruence|exact H].
Qed.

(** The colors that the extractor returns for a text have distinct keys,
    and each holds at least one spelling and no spelling twice: the
    aggregator's [variations[0]] is always there. *)
Theorem extracted_entries_are_well_formed :
  forall content cm,
    extract_colors_from_content content = Ok cm ->
    NoDup (d_keys cm) /\
    (forall key vs,
        d_get key cm = Some vs ->
        (exists v0, first_of vs = Ok v0) /\ NoDup vs).
Proof.
  intros content cm H. split; [now apply (extract_keys_NoDup content)|].
  intros key vs Hk.
  assert (Hwf : well_formed cm).
  { revert H. apply extract_invariant.
    - intros k l. discriminate.
    - intros k c cm0. apply record_color_well_formed. }
  destruct (Hwf key vs Hk) as [(v0 & tl & ->) Hnd].
  split; [now exists v0|exact Hnd].
Qed.

Lemma extracted_entries_witness :
  exists cm,
    extract_colors_from_content "a { color: #FFF; border: #fff; fill: white }" = Ok cm /\
    NoDup (d_keys cm) /\
    (forall key vs,
        d_get key cm = Some vs -> (exists v0, first_of vs = Ok v0) /\ NoDup vs).
Proof.
  destruct (extract_colors_from_content
              "a { color: #FFF; border: #fff; fill: white }") as [cm|e] eqn:E;
    [|vm_compute in E; discriminate].
  exists cm. split; [reflexivity|].
  exact (extracted_entries_are_well_formed _ _ E).
Defined.

Lemma analyze_file_well_formed fs file_path :
  well_formed (fst (analyze_file fs file_path)).
Proof.
  unfold analyze_file.
  destruct (bind (fs file_path) _) as [cm|e] eqn:E; cbn [fst].
  - apply bind_Ok in E as (content & _ & E). revert E. apply extract_invariant.
    + intros k l. discriminate.
    + intros k c cm0. apply record_color_well_formed.
  - intros k l. discriminate.
Qed.

(** * An exception in the aggregator *)

(** [process_files] catches nothing: when a file brings a new color for
    which [determine_color_category] raises, the run ends with an
    exception, whatever the files before and after hold, and no report is
    made. *)
Theorem failing_category_stops_the_run :
  forall fs before f after cd err k e,
    aggregate fs before [] [] = (Ok cd, err) ->
    d_get k cd = None ->
    holds fs k f = true ->
    determine_color_category k = Raise e ->
    exists e', fst (process_files fs (before ++ f :: after)) = Raise e'.
Proof.
  intros fs before f after cd err k e Hrun Hnew Hholds Hraise.
  unfold process_files. rewrite aggregate_app, Hrun. cbn [aggregate].
  unfold holds, d_mem in Hholds.
  destruct (d_get (Some k) (fst (analyze_file fs f))) as [vs|] eqn:Hvs;
    [|discriminate].
  destruct (analyze_file fs f) as [file_colors lines]. cbn [fst] in Hvs.
  destruct (for_each file_colors (add_color f) cd) as [cd1|e1] eqn:Hfile.
  - destruct (for_each_add_color_created f file_colors cd cd1 k vs Hfile Hnew Hvs)
      as (r & v0 & tl & _ & _ & _ & _ & Hcat).
    congruence.
  - exists e1. reflexivity.
Qed.

Lemma failing_category_witness :
  exists e', fst (process_files saturated_css ([] ++ "a.css" :: ["b.css"])) = Raise e'.
Proof.
  apply (failing_category_stops_the_run saturated_css [] "a.css" ["b.css"] [] []
           "#17e-7f-7f" (ValueError "invalid literal for int() with base 16: 'e-'")).
  - reflexivity.
  - reflexivity.
  - vm_compute. reflexivity.
  - vm_compute. reflexivity.
Defined.

(** * The spellings of a color *)

Lemma merge_variations_In new : forall vs v,
  In v (merge_variations vs new) <-> In v vs \/ In v new.
Proof.
  unfold merge_variations.
  induction new as [|x new IH]; cbn [fold_left In]; intros vs v; [tauto|].
  rewrite IH, append_new_In. split.
  - intros [[->|H]|H]; auto.
  - intros [H|[<-|H]]; auto.
Qed.

Lemma merge_variations_NoDup new : forall vs,
  NoDup vs -> NoDup (merge_variations vs new).
Proof.
  unfold merge_variations.
  induction new as [|x new IH]; cbn [fold_left]; intros vs Hvs; [assumption|].
  apply IH. now apply append_new_NoDup.
Qed.

(** What one file does to the spellings of a color *)
Lemma file_step_variations file_str items : forall cd cd' k,
  NoDup (d_keys items) ->
  for_each items (add_color file_str) cd = Ok cd' ->
  match d_get (Some k) items, d_get k cd with
  | None, before => d_get k cd' = before
  | Some vs, Some r =>
      exists r', d_get k cd' = Some r' /\
                 variations r' = merge_variations (variations r) vs
  | Some vs, None =>
      exists r', d_get k cd' = Some r' /\ variations r' = vs
  end.
Proof.
  induction items as [|[key vs0] items IH]; cbn [for_each d_get d_keys map fst];
    intros cd cd' k Hnd Hrun.
  - injection Hrun as <-. now destruct (d_get k cd).
  - apply bind_Ok in Hrun as (cd1 & Hstep & Hrun).
    apply NoDup_cons_iff in Hnd as [Hfresh Hnd].
    specialize (IH cd1 cd' k Hnd Hrun).
    destruct (eqb_spec (Some k) key) as [<-|Hne].
    + apply d_get_None_keys in Hfresh. rewrite Hfresh in IH.
      unfold add_color in Hstep. destruct (d_get k cd) as [r|].
      * injection Hstep as <-. rewrite d_get_set_same in IH.
        eexists. split; [exact IH|]. reflexivity.
      * apply bind_Ok in Hstep as (v0 & _ & Hstep).
        apply bind_Ok in Hstep as (c & _ & [= <-]).
        rewrite d_get_set_same in IH.
        eexists. split; [exact IH|]. reflexivity.
    + rewrite (add_color_other _ _ _ _ _ k Hstep) in IH by congruence.
      exact IH.
Qed.

Lemma spelled_step fs done cd f cd' :
  spelled fs done cd ->
  (forall k, d_get k cd = None ->
             forall g, In g done -> d_get (Some k) (fst (analyze_file fs g)) = None) ->
  for_each (fst (analyze_file fs f)) (add_color f) cd = Ok cd' ->
  spelled fs (done ++ [f]) cd' /\
  (forall k, d_get k cd' = None ->
             forall g, In g (done ++ [f]) ->
                       d_get (Some k) (fst (analyze_file fs g)) = None).
Proof.
  intros Hinv Hnone Hrun.
  assert (Hstep : forall k, _) by
    (intros k; exact (file_step_variations f _ cd cd' k (analyze_file_NoDup fs f) Hrun)).
  split.
  - intros k r' Hk'. specialize (Hstep k).
    destruct (d_get (Some k) (fst (analyze_file fs f))) as [vs|] eqn:Hvs.
    + destruct (analyze_file_well_formed fs f _ _ Hvs) as [_ Hnd].
      destruct (d_get k cd) as [r|] eqn:Hk.
      * destruct Hstep as (r1 & Hget & Hvar). rewrite Hk' in Hget.
        injection Hget as <-. destruct (Hinv k r Hk) as [Hndr Hin].
        rewrite Hvar. split; [now apply merge_variations_NoDup|].
        intros v. rewrite merge_variations_In, Hin. split.
        -- intros [(g & Hg & Hs)|Hv].
           ++ exists g. split; [apply in_app_iff; now left|exact Hs].
           ++ exists f. split; [apply in_app_iff; right; now left|].
              exists vs. now split.
        -- intros (g & Hg & Hs). apply in_app_iff in Hg as [Hg|[<-|[]]].
           ++ left. now exists g.
           ++ right. destruct Hs as (vs' & Hvs' & Hv). congruence.
      * destruct Hstep as (r1 & Hget & Hvar). rewrite Hk' in Hget.
        injection Hget as <-. rewrite Hvar. split; [exact Hnd|].
        intros v. split.
        -- intros Hv. exists f. split; [apply in_app_iff; right; now left|].
           exists vs. now split.
        -- intros (g & Hg & Hs). apply in_app_iff in Hg as [Hg|[<-|[]]].
           ++ destruct Hs as (vs' & Hvs' & _).
              rewrite (Hnone k Hk g Hg) in Hvs'. discriminate.
           ++ destruct Hs as (vs' & Hvs' & Hv). congruence.
    + rewrite Hstep in Hk'. destruct (Hinv k r' Hk') as [Hndr Hin].
      split; [exact Hndr|]. intros v. rewrite Hin. split.
      * intros (g & Hg & Hs). exists g. split; [apply in_app_iff; now left|exact Hs].
      * intros (g & Hg & Hs). apply in_app_iff in Hg as [Hg|[<-|[]]].
        -- now exists g.
        -- destruct Hs as (vs' & Hvs' & _). congruence.
  - intros k Hk' g Hg. specialize (Hstep k).
    destruct (d_get (Some k) (fst (analyze_file fs f))) as [vs|] eqn:Hvs.
    + destruct (d_get k cd); destruct Hstep as (r1 & Hget & _); congruence.
    + rewrite Hk' in Hstep. apply in_app_iff in Hg as [Hg|[<-|[]]].
      * now apply Hnone.
      * exact Hvs.
Qed.

Lemma aggregate_spelled fs files : forall done cd err cd' err',
  spelled fs done cd ->
  (forall k, d_get k cd = None ->
             forall g, In g done -> d_get (Some k) (fst (analyze_file fs g)) = None) ->
  aggregate fs files cd err = (Ok cd', err') ->
  spelled fs (done ++ files) cd'.
Proof.
  induction files as [|f files IH]; cbn [aggregate];
    intros done cd err cd' err' Hinv Hnone Hrun.
  - injection Hrun as <- <-. now rewrite app_nil_r.
  - pose proof (spelled_step fs done cd f) as Hstep.
    destruct (analyze_file fs f) as [file_colors lines]. cbn [fst] in Hstep.
    destruct (for_each file_colors (add_color f) cd) as [cd1|e]; [|discriminate].
    replace (done ++ f :: files)%list with ((done ++ [f]) ++ files)%list
      by now rewrite <- app_assoc.
    destruct (Hstep cd1 Hinv Hnone eq_refl) as [Hinv1 Hnone1].
    eapply IH; [exact Hinv1|exact Hnone1|exact Hrun].
Qed.

(** The [variations] of a record are the spellings that the files of the
    list give for the color, each once. *)
Theorem variations_are_the_spellings :
  forall fs files cd err k r,
    aggregate fs files [] [] = (Ok cd, err) ->
    d_get k cd = Some r ->
    NoDup (variations r) /\
    (forall v, In v (variations r) <-> exists f, In f files /\ spells fs k v f).
Proof.
  intros fs files cd err k r Hrun Hk.
  refine (aggregate_spelled fs files [] [] [] cd err _ _ Hrun k r Hk).
  - intros k' r'. discriminate.
  - intros k' _ g [].
Qed.

Lemma variations_are_the_spellings_witness :
  exists cd err r,
    aggregate two_files ["a.css"; "b.css"] [] [] = (Ok cd, err) /\
    d_get "#ff0000" cd = Some r /\
    NoDup (variations r) /\
    (forall v, In v (variations r) <->
               exists f, In f ["a.css"; "b.css"] /\ spells two_files "#ff0000" v f).
Proof.
  destruct (aggregate two_files ["a.css"; "b.css"] [] [])
    as [[cd|e] err] eqn:Hrun; [|vm_compute in Hrun; discriminate].
  destruct (d_get "#ff0000" cd) as [r|] eqn:Hk.
  - exists cd, err, r. split; [reflexivity|]. split; [exact Hk|].
    exact (variations_are_the_spellings _ _ _ _ _ _ Hrun Hk).
  - exfalso. vm_compute in Hrun. injection Hrun as <- _.
    vm_compute in Hk. discriminate.
Defined.

(** * The grouping by category *)

Lemma d_mem_keys {K V : Type} `{Eqb K} (k : K) (d : dict K V) :
  d_mem k d = mem k (d_keys d).
Proof.
  unfold d_mem. induction d as [|[k' v] d IH]; cbn [d_get d_keys map fst mem];
    [reflexivity|].
  destruct (eqb k k'); [reflexivity|exact IH].
Qed.

Lemma d_keys_set_same {K V : Type} `{Eqb K} (k : K) (v : V) (d : dict K V) :
  d_mem k d = true -> d_keys (d_set k v d) = d_keys d.
Proof. intros Hm. now rewrite d_keys_set, Hm. Qed.

Lemma organize_step (rest : color_data_t) : forall (done : color_data_t) od seen,
  (forall c, d_get c od = match of_category c done with
                          | [] => None
                          | l => Some l
                          end) ->
  d_keys od = seen ->
  let od' :=
    fold_left
      (fun organized_data (kv : string * ColorRecord) =>
         let color_info := snd kv in
         let category := category color_info in
         let organized_data :=
           if d_mem category organized_data then organized_data
           else d_set category [] organized_data in
         match d_get category organized_data with
         | Some l => d_set category (l ++ [color_info])%list organized_data
         | None => organized_data
         end)
      rest od in
  (forall c, d_get c od' = match of_category c (done ++ rest)%list with
                           | [] => None
                           | l => Some l
                           end) /\
  d_keys od' = fold_left (fun seen kv => append_new (category (snd kv)) seen) rest seen.
Proof.
  induction rest as [|[k r] rest IH]; intros done od seen Hod Hkeys; cbn [fold_left].
  - rewrite app_nil_r. now split.
  - cbv zeta. cbn [snd].
    replace (done ++ (k, r) :: rest)%list with ((done ++ [(k, r)]) ++ rest)%list
      by now rewrite <- app_assoc.
    apply IH.
    + intros c. unfold of_category. rewrite map_app, filter_app.
      cbn [map filter snd]. unfold in_category at 2.
      pose proof (Hod (category r)) as Hr. pose proof (Hod c) as Hc.
      unfold of_category in Hr, Hc. unfold d_mem.
      destruct (d_get (category r) od) as [l|] eqn:Hget.
      * rewrite Hget. rewrite d_get_set.
        destruct (eqb_spec c (category r)) as [->|Hne].
        -- rewrite String.eqb_refl.
           destruct (filter (in_category (category r)) (map snd done)) as [|x l'];
             [discriminate|].
           injection Hr as ->. reflexivity.
        -- replace (category r =? c)%string with false
             by (symmetry; apply String.eqb_neq; congruence).
           now rewrite app_nil_r.
      * rewrite d_get_set_same, !d_get_set.
        destruct (eqb_spec c (category r)) as [->|Hne].
        -- rewrite String.eqb_refl.
           destruct (filter (in_category (category r)) (map snd done)) as [|x l'];
             [reflexivity|discriminate].
        -- replace (category r =? c)%string with false
             by (symmetry; apply String.eqb_neq; congruence).
           now rewrite app_nil_r.
    + unfold append_new. rewrite <- Hkeys, <- d_mem_keys.
      destruct (d_mem (category r) od) eqn:Hm.
      * unfold d_mem in Hm.
        destruct (d_get (category r) od) as [l|] eqn:Hget; [|discriminate].
        apply d_keys_set_same. unfold d_mem. now rewrite Hget.
      * rewrite d_get_set_same, d_keys_set_same.
        -- now rewrite d_keys_set, Hm.
        -- unfold d_mem. now rewrite d_get_set_same.
Qed.

(** In the report each category holds the records of that category and
    no other, in the order in which the colors were first seen; a
    category without colors is no key of the report; and the categories
    come in the order in which the aggregate first shows them. *)
Theorem organize_groups_by_category :
  forall cd,
    (forall c,
        d_get c (organize cd) = match of_category c cd with
                                | [] => None
                                | l => Some l
                                end) /\
    d_keys (organize cd) = category_order cd.
Proof.
  intros cd. unfold organize, category_order.
  apply (organize_step cd [] [] []); [|reflexivity].
  intros c. reflexivity.
Qed.

(** * A second look at unchanged files *)

Lemma float_ltb_irrefl (x : float) : (x <? x)%float = false.
Proof.
  rewrite FloatAxioms.ltb_spec. unfold SpecFloat.SFltb, SpecFloat.SFcompare.
  destruct (Prim2SF x) as [[]| [] | | [] m e]; try reflexivity;
    rewrite ?Z.compare_refl, ?Pos.compare_refl; reflexivity.
Qed.

Lemma check_file_settles w st f g :
  settled w (snd st) g -> settled w (snd (check_file w st f)) g.
Proof.
  destruct st as [flag last]. cbn [snd]. intros Hg. unfold check_file.
  destruct (getmtime w f) as [mtime|e] eqn:Hf; [|exact Hg].
  destruct (last_time last f <? mtime)%float eqn:Hlt; [|exact Hg].
  cbn [snd]. intros mg Hmg. unfold last_time.
  destruct (String.eqb_spec g f) as [->|Hne].
  - rewrite d_get_set_same. rewrite Hf in Hmg. injection Hmg as <-.
    apply float_ltb_irrefl.
  - rewrite d_get_set_other by exact Hne. now apply Hg.
Qed.

Lemma check_file_settles_it w st f : settled w (snd (check_file w st f)) f.
Proof.
  destruct st as [flag last]. unfold check_file. intros mtime Hf. rewrite Hf.
  destruct (last_time last f <? mtime)%float eqn:Hlt; cbn [snd].
  - unfold last_time. rewrite d_get_set_same. apply float_ltb_irrefl.
  - exact Hlt.
Qed.

Lemma check_files_settle w files : forall st f,
  settled w (snd st) f \/ In f files ->
  settled w (snd (fold_left (check_file w) files st)) f.
Proof.
  induction files as [|g files IH]; cbn [fold_left In]; intros st f H.
  - destruct H as [H|[]]. exact H.
  - apply IH. destruct H as [H|[<-|H]].
    + left. now apply check_file_settles.
    + left. apply check_file_settles_it.
    + now right.
Qed.

(** Once a pass has looked at the files, the passes that follow let
    nothing out for as long as the files show the times they showed to
    that pass: a change is reported once. *)
Theorem unchanged_files_are_reported_once :
  forall json_dumps env files output_path pretty n i last,
    (forall j f, In f files -> getmtime (env (S i + j)%nat) f = getmtime (env i) f) ->
    watch_loop json_dumps env n (S i) files output_path pretty
               (snd (check_files (env i) files last))
    = ([], None).
Proof.
  intros json_dumps env files output_path pretty n i last Hsame.
  apply watch_loop_quiet. intros j f mtime Hf Hm.
  rewrite (Hsame j f Hf) in Hm.
  refine (check_files_settle (env i) files (false, last) f _ mtime Hm).
  now right.
Qed.

Lemma unchanged_files_witness :
  fst (check_files (still_world 0%nat) ["a.css"] []) = true /\
  watch_loop (fun _ _ => "{}") still_world 3 1 ["a.css"] None false
             (snd (check_files (still_world 0%nat) ["a.css"] []))
  = ([], None).
Proof.
  split; [reflexivity|].
  apply (unchanged_files_are_reported_once (fun _ _ => "{}") still_world
           ["a.css"] None false 3 0 []).
  reflexivity.
Defined.

(** * The matcher finds only what the pattern can match *)

Section Soundness.
Context {R : Type}.
Variable ic : bool.

Lemma star_sound p : forall s pv (k : option ascii -> string -> option R) x,
  star p pv s k = Some x ->
  exists w s', s = w ++ s' /\ all_chars p w = true /\ k (last_of pv w) s' = Some x.
Proof.
  induction s as [|a s IH]; intros pv k x; cbn [star].
  - intros Hk. exists EmptyString, EmptyString. now repeat split.
  - destruct (p a) eqn:Ha.
    + destruct (star p (Some a) s k) as [y|] eqn:Hs.
      * intros [= ->]. destruct (IH _ _ _ Hs) as (w & s' & -> & Hw & Hk).
        exists (String a w), s'. cbn [append all_chars last_of].
        rewrite Ha, Hw. now repeat split.
      * intros Hk. exists EmptyString, (String a s). now repeat split.
    + intros Hk. exists EmptyString, (String a s). now repeat split.
Qed.

Lemma rep_sound p : forall n s pv (k : option ascii -> string -> option R) x,
  rep n p pv s k = Some x ->
  exists w s', s = w ++ s' /\ String.length w = n /\ all_chars p w = true /\
               k (last_of pv w) s' = Some x.
Proof.
  induction n as [|n IH]; intros s pv k x; cbn [rep].
  - intros Hk. exists EmptyString, s. now repeat split.
  - destruct s as [|a s]; [discriminate|].
    destruct (p a) eqn:Ha; [|discriminate].
    intros Hs. destruct (IH _ _ _ _ Hs) as (w & s' & -> & Hlen & Hw & Hk).
    exists (String a w), s'. cbn [append all_chars last_of String.length].
    rewrite Ha, Hw, Hlen. now repeat split.
Qed.

Lemma rmatch_sound r : forall pv s cs (k : option ascii -> string -> list (nat * string) -> option R) x,
  rmatch ic r pv s cs k = Some x ->
  exists pv' s' cs', matches ic r pv s cs pv' s' cs' /\ k pv' s' cs' = Some x.
Proof.
  induction r as [|c|p|p|p|n p|r IH|r1 IH1 r2 IH2|r1 IH1 r2 IH2|i r IH|];
    intros pv s cs k x; cbn [rmatch matches].
  - intros Hk. exists pv, s, cs. now repeat split.
  - destruct s as [|a s]; [discriminate|].
    destruct (chr_matches ic c a) eqn:Ha; [|discriminate].
    intros Hk. exists (Some a), s, cs. split; [|exact Hk]. exists a. now repeat split.
  - destruct s as [|a s]; [discriminate|].
    destruct (p a) eqn:Ha; [|discriminate].
    intros Hk. exists (Some a), s, cs. split; [|exact Hk]. exists a. now repeat split.
  - intros Hs. destruct (star_sound _ _ _ _ _ Hs) as (w & s' & -> & Hw & Hk).
    exists (last_of pv w), s', cs. split; [|exact Hk]. exists w. now repeat split.
  - destruct s as [|a s]; [discriminate|].
    destruct (p a) eqn:Ha; [|discriminate].
    intros Hs. destruct (star_sound _ _ _ _ _ Hs) as (w & s' & -> & Hw & Hk).
    exists (last_of (Some a) w), s', cs. split; [|exact Hk].
    exists (String a w). cbn [append all_chars last_of]. rewrite Ha, Hw.
    repeat split. discriminate.
  - intros Hs. destruct (rep_sound _ _ _ _ _ _ Hs) as (w & s' & -> & Hlen & Hw & Hk).
    exists (last_of pv w), s', cs. split; [|exact Hk]. exists w. now repeat split.
  - destruct (rmatch ic r pv s cs k) as [y|] eqn:Hr.
    + intros [= ->]. destruct (IH _ _ _ _ _ Hr) as (pv' & s' & cs' & Hm & Hk).
      exists pv', s', cs'. split; [now left|exact Hk].
    + intros Hk. exists pv, s, cs. split; [right; now repeat split|exact Hk].
  - intros Hs. destruct (IH1 _ _ _ _ _ Hs) as (pv1 & s1 & cs1 & Hm1 & Hs2).
    destruct (IH2 _ _ _ _ _ Hs2) as (pv' & s' & cs' & Hm2 & Hk).
    exists pv', s', cs'. split; [|exact Hk]. exists pv1, s1, cs1. now split.
  - destruct (rmatch ic r1 pv s cs k) as [y|] eqn:Hr.
    + intros [= ->]. destruct (IH1 _ _ _ _ _ Hr) as (pv' & s' & cs' & Hm & Hk).
      exists pv', s', cs'. split; [now left|exact Hk].
    + intros Hs. destruct (IH2 _ _ _ _ _ Hs) as (pv' & s' & cs' & Hm & Hk).
      exists pv', s', cs'. split; [now right|exact Hk].
  - intros Hs. destruct (IH _ _ _ _ _ Hs) as (pv' & s' & cs0 & Hm & Hk).
    exists pv', s', ((i, taken s s') :: cs0). split; [|exact Hk].
    exists cs0. now split.
  - destruct (at_boundary pv s) eqn:Hb; [|discriminate].
    intros Hk. exists pv, s, cs. now repeat split.
Qed.
End Soundness.

Lemma match_at_sound ic r pv s m :
  match_at ic r pv s = Some m ->
  exists pv' s' cs',
    matches ic r pv s [] pv' s' cs' /\
    group0 m = taken s s' /\
    groups m = map (fun i => capture i cs') (seq 1 (ngroups r)).
Proof.
  unfold match_at. intros H.
  destruct (rmatch_sound ic r _ _ _ _ _ H) as (pv' & s' & cs' & Hm & [= <-]).
  exists pv', s', cs'. now repeat split.
Qed.

Lemma scan_sound ic r : forall s pv skip m,
  In m (scan ic r pv s skip) -> exists pv' s', match_at ic r pv' s' = Some m.
Proof.
  induction s as [|a s IH]; intros pv skip m.
  - destruct skip as [|n]; cbn [scan]; [|intros []].
    destruct (match_at ic r pv EmptyString) as [m0|] eqn:Hm; [|intros []].
    intros [<-|[]]. eauto.
  - destruct skip as [|n]; cbn [scan]; [|apply IH].
    destruct (match_at ic r pv (String a s)) as [m0|] eqn:Hm; [|apply IH].
    intros [<-|Hin]; [eauto|]. eapply IH, Hin.
Qed.

Lemma finditer_sound ic r content m :
  In m (finditer ic r content) -> exists pv s, match_at ic r pv s = Some m.
Proof. apply scan_sound. Qed.

Lemma string_app_assoc (a b c : string) : (a ++ b) ++ c = a ++ b ++ c.
Proof. induction a as [|x a IH]; cbn [append]; congruence. Qed.

(** What a pattern matches is a prefix of the text. *)
Lemma matches_consumed ic r : forall pv s cs pv' s' cs',
  matches ic r pv s cs pv' s' cs' -> exists w, s = w ++ s'.
Proof.
  induction r as [|c|p|p|p|n p|r IH|r1 IH1 r2 IH2|r1 IH1 r2 IH2|i r IH|];
    intros pv s cs pv' s' cs'; cbn [matches].
  - intros (_ & -> & _). now exists EmptyString.
  - intros (a & -> & _). now exists (String a EmptyString).
  - intros (a & -> & _). now exists (String a EmptyString).
  - intros (w & -> & _). now exists w.
  - intros (w & -> & _). now exists w.
  - intros (w & -> & _). now exists w.
  - intros [H|(_ & -> & _)]; [now apply IH in H|now exists EmptyString].
  - intros (pv1 & s1 & cs1 & H1 & H2).
    apply IH1 in H1 as (w1 & ->). apply IH2 in H2 as (w2 & ->).
    exists (w1 ++ w2). now rewrite string_app_assoc.
  - intros [H|H]; [now apply IH1 in H|now apply IH2 in H].
  - intros (cs0 & H & _). now apply IH in H.
  - intros (_ & _ & -> & _). now exists EmptyString.
Qed.

Lemma matches_Seq ic r1 r2 pv s cs pv' s' cs' :
  matches ic (Seq r1 r2) pv s cs pv' s' cs' ->
  exists pv1 s1 cs1,
    matches ic r1 pv s cs pv1 s1 cs1 /\ matches ic r2 pv1 s1 cs1 pv' s' cs'.
Proof. exact (fun H => H). Qed.

(** A literal matches itself, or with [re.IGNORECASE] a text that is the
    same in lowercase. *)
Lemma matches_lit ic t : forall pv s cs pv' s' cs',
  matches ic (lit t) pv s cs pv' s' cs' ->
  exists w, s = w ++ s' /\ cs' = cs /\
            (if ic then lower w = lower t else w = t).
Proof.
  induction t as [|c t IH]; intros pv s cs pv' s' cs'; cbn [lit matches].
  - intros (_ & -> & ->). exists EmptyString. repeat split. now destruct ic.
  - intros (pv1 & s1 & cs1 & (a & -> & Ha & _ & ->) & Ht).
    apply IH in Ht as (w & -> & -> & Hw).
    exists (String a w). repeat split. unfold chr_matches in Ha.
    destruct ic; apply Ascii.eqb_eq in Ha; cbn [lower]; congruence.
Qed.

Lemma is_number_nonempty w :
  w <> EmptyString -> all_chars is_digit w = true -> is_number w = true.
Proof. destruct w; [congruence|]. intros _ H. exact H. Qed.

(** A match of the RGB pattern starts with [rgb(] and holds three
    groups of digits. *)
Lemma rgb_match_shape pv s m :
  match_at false RGB_COLOR_REGEX pv s = Some m ->
  exists d1 d2 d3 t,
    group0 m = "rgb(" ++ t /\
    groups m = [Some d1; Some d2; Some d3] /\
    is_number d1 = true /\ is_number d2 = true /\ is_number d3 = true.
Proof.
  intros H. apply match_at_sound in H as (pv' & s' & cs' & Hm & Hg0 & Hgs).
  unfold RGB_COLOR_REGEX in Hm, Hgs.
  cbn [ngroups lit ws num comma Nat.add seq map] in Hgs.
  apply matches_Seq in Hm as (pv1 & s1 & cs1 & Hlit & Hrest).
  apply matches_lit in Hlit as (w0 & -> & -> & ->).
  pose proof (matches_consumed _ _ _ _ _ _ _ _ Hrest) as (t & Et).
  cbn [matches ws num] in Hrest.
  destruct Hrest as (pv2 & s2 & cs2 & (w1 & -> & _ & _ & ->) & Hrest).
  destruct Hrest as (pv3 & s3 & cs3 & (cs0 & (d1 & -> & N1 & D1 & _ & ->) & ->) & Hrest).
  destruct Hrest as (pv4 & s4 & cs4 & Hcomma & Hrest).
  cbn [matches comma ws] in Hcomma.
  destruct Hcomma as (? & ? & ? & (w2 & -> & _ & _ & ->) & ? & ? & ?
                      & (c1 & -> & _ & _ & ->) & (w3 & -> & _ & _ & ->)).
  destruct Hrest as (pv5 & s5 & cs5 & (cs0 & (d2 & -> & N2 & D2 & _ & ->) & ->) & Hrest).
  destruct Hrest as (pv6 & s6 & cs6 & Hcomma & Hrest).
  cbn [matches comma ws] in Hcomma.
  destruct Hcomma as (? & ? & ? & (w4 & -> & _ & _ & ->) & ? & ? & ?
                      & (c2 & -> & _ & _ & ->) & (w5 & -> & _ & _ & ->)).
  destruct Hrest as (pv7 & s7 & cs7 & (cs0 & (d3 & -> & N3 & D3 & _ & ->) & ->) & Hrest).
  destruct Hrest as (? & ? & ? & (w6 & -> & _ & _ & ->) & (c3 & -> & _ & _ & ->)).
  exists d1, d2, d3, t. split.
  - rewrite Hg0, Et, <- string_app_assoc. apply taken_app.
  - split; [|now repeat split; apply is_number_nonempty].
    rewrite Hgs. cbn [capture Nat.eqb]. now rewrite !taken_app.
Qed.

(** A match of the HSL pattern starts with [hsl(] and holds three
    groups of digits. *)
Lemma hsl_match_shape pv s m :
  match_at false HSL_COLOR_REGEX pv s = Some m ->
  exists d1 d2 d3 t,
    group0 m = "hsl(" ++ t /\
    groups m = [Some d1; Some d2; Some d3] /\
    is_number d1 = true /\ is_number d2 = true /\ is_number d3 = true.
Proof.
  intros H. apply match_at_sound in H as (pv' & s' & cs' & Hm & Hg0 & Hgs).
  unfold HSL_COLOR_REGEX in Hm, Hgs.
  cbn [ngroups lit ws num comma Nat.add seq map] in Hgs.
  apply matches_Seq in Hm as (pv1 & s1 & cs1 & Hlit & Hrest).
  apply matches_lit in Hlit as (w0 & -> & -> & ->).
  pose proof (matches_consumed _ _ _ _ _ _ _ _ Hrest) as (t & Et).
  cbn [matches ws num] in Hrest.
  destruct Hrest as (pv2 & s2 & cs2 & (w1 & -> & _ & _ & ->) & Hrest).
  destruct Hrest as (pv3 & s3 & cs3 & (cs0 & (d1 & -> & N1 & D1 & _ & ->) & ->) & Hrest).
  destruct Hrest as (pv4 & s4 & cs4 & Hcomma & Hrest).
  cbn [matches comma ws] in Hcomma.
  destruct Hcomma as (? & ? & ? & (w2 & -> & _ & _ & ->) & ? & ? & ?
                      & (c1 & -> & _ & _ & ->) & (w3 & -> & _ & _ & ->)).
  destruct Hrest as (pv5 & s5 & cs5 & (cs0 & (d2 & -> & N2 & D2 & _ & ->) & ->) & Hrest).
  destruct Hrest as (pv5' & s5' & cs5' & (p1 & -> & _ & _ & ->) & Hrest).
  destruct Hrest as (pv6 & s6 & cs6 & Hcomma & Hrest).
  cbn [matches comma ws] in Hcomma.
  destruct Hcomma as (? & ? & ? & (w4 & -> & _ & _ & ->) & ? & ? & ?
                      & (c2 & -> & _ & _ & ->) & (w5 & -> & _ & _ & ->)).
  destruct Hrest as (pv7 & s7 & cs7 & (cs0 & (d3 & -> & N3 & D3 & _ & ->) & ->) & Hrest).
  destruct Hrest as (pv7' & s7' & cs7' & (p2 & -> & _ & _ & ->) & Hrest).
  destruct Hrest as (? & ? & ? & (w6 & -> & _ & _ & ->) & (c3 & -> & _ & _ & ->)).
  exists d1, d2, d3, t. split.
  - rewrite Hg0, Et, <- string_app_assoc. apply taken_app.
  - split; [|now repeat split; apply is_number_nonempty].
    rewrite Hgs. cbn [capture Nat.eqb]. now rewrite !taken_app.
Qed.

Lemma all_chars_forallb p w :
  all_chars p w = forallb p (list_ascii_of_string w).
Proof. induction w as [|c w IH]; cbn; congruence. Qed.

(** A match of the hex pattern is [#] and three or six hexadecimal
    digits. *)
Lemma hex_match_shape pv s m :
  match_at false HEX_COLOR_REGEX pv s = Some m ->
  valid_hex3 (group0 m) || valid_hex6 (group0 m) = true.
Proof.
  intros H. apply match_at_sound in H as (pv' & s' & cs' & Hm & Hg0 & _).
  unfold HEX_COLOR_REGEX in Hm. cbn [matches] in Hm.
  destruct Hm as (pv1 & s1 & cs1 & (a & -> & Ea & _ & ->) & Hm).
  unfold chr_matches in Ea. apply Ascii.eqb_eq in Ea. subst a.
  destruct Hm as (pv2 & s2 & cs2 & (cs0 & Halt & ->) & (_ & _ & -> & _)).
  assert (Hw : exists w, s1 = w ++ s2 /\
                         (String.length w = 3%nat \/ String.length w = 6%nat) /\
                         all_chars is_hexdigit w = true).
  { destruct Halt as [(w & -> & Hlen & Hw & _)|(w & -> & Hlen & Hw & _)];
      exists w; repeat split; auto. }
  destruct Hw as (w & -> & Hlen & Hw).
  rewrite Hg0.
  change (String "#" (w ++ s2)) with (String "#" w ++ s2). rewrite taken_app.
  unfold valid_hex3, valid_hex6. rewrite <- all_chars_forallb, Hw, !andb_true_r.
  destruct Hlen as [-> | ->]; reflexivity.
Qed.

Lemma matches_alts ic l : forall pv s cs pv' s' cs',
  matches ic (alts l) pv s cs pv' s' cs' ->
  exists r, In r l /\ matches ic r pv s cs pv' s' cs'.
Proof.
  induction l as [|r l IH]; intros pv s cs pv' s' cs'; cbn [alts].
  - cbn [matches]. intros (a & _ & Ha & _). discriminate.
  - destruct l as [|r' l].
    + intros H. exists r. split; [now left|exact H].
    + cbn [matches]. intros [H|H].
      * exists r. split; [now left|exact H].
      * apply IH in H as (r0 & Hin & H). exists r0. split; [now right|exact H].
Qed.

(** A match of the pattern of the names is, in lowercase, one of the
    names of [NAMED_COLORS]. *)
Lemma named_match_shape pv s m :
  match_at true NAMED_COLOR_REGEX pv s = Some m ->
  exists color,
    In color (d_keys NAMED_COLORS) /\ lower (group0 m) = lower color.
Proof.
  intros H. apply match_at_sound in H as (pv' & s' & cs' & Hm & Hg0 & _).
  unfold NAMED_COLOR_REGEX in Hm.
  apply matches_alts in Hm as (r & Hin & Hm).
  apply in_map_iff in Hin as (color & <- & Hin).
  apply matches_Seq in Hm as (pv1 & s1 & cs1 & (_ & -> & -> & ->) & Hm).
  apply matches_Seq in Hm as (pv2 & s2 & cs2 & Hlit & (_ & _ & -> & _)).
  apply matches_lit in Hlit as (w & -> & _ & Hw).
  exists color. split; [exact Hin|]. now rewrite Hg0, taken_app.
Qed.

(** * The colors of a text *)

Lemma names_facts : forallb named_facts NAMED_COLORS = true.
Proof. vm_compute. reflexivity. Qed.

Lemma named_color_facts color :
  In color (d_keys NAMED_COLORS) ->
  lower color = color /\ format_of_color color = "named" /\
  exists hex, d_get color NAMED_COLORS = Some hex /\ canonical hex = true.
Proof.
  intros Hin. apply in_map_iff in Hin as ([c hex0] & <- & Hin).
  pose proof names_facts as H. rewrite forallb_forall in H.
  specialize (H _ Hin). unfold named_facts in H. cbn [fst] in *.
  apply andb_prop in H as [H Hhex]. apply andb_prop in H as [Hl Hf].
  apply String.eqb_eq in Hl, Hf.
  destruct (d_get c NAMED_COLORS) as [hex|]; [|discriminate].
  repeat split; try assumption. now exists hex.
Qed.

Lemma record_color_keys key color (cm : color_matches) key' :
  In key' (d_keys (record_color key color cm)) ->
  key' = key \/ In key' (d_keys cm).
Proof.
  unfold record_color. cbv zeta.
  match goal with
  | |- context [d_get key ?c] =>
      assert (H1 : forall k, In k (d_keys c) -> k = key \/ In k (d_keys cm));
      [|revert H1; generalize c]
  end.
  { intros k. destruct (d_mem key cm) eqn:Hm; [now right|].
    rewrite d_keys_set, Hm, in_app_iff. cbn [In]. intros [H|[<-|[]]]; auto. }
  intros cm1 H1. destruct (d_get key cm1) as [l|] eqn:Hl; [|apply H1].
  destruct (mem color l); [apply H1|].
  rewrite d_keys_set. unfold d_mem. rewrite Hl. apply H1.
Qed.

Lemma record_color_entry key color (cm : color_matches) key' vs v :
  d_get key' (record_color key color cm) = Some vs -> In v vs ->
  (key' = key /\ v = color) \/ exists vs0, d_get key' cm = Some vs0 /\ In v vs0.
Proof.
  unfold record_color. cbv zeta.
  match goal with
  | |- context [d_get key ?c] =>
      assert (H1 : forall k l x, d_get k c = Some l -> In x l ->
                                 exists vs0, d_get k cm = Some vs0 /\ In x vs0);
      [|revert H1; generalize c]
  end.
  { intros k l x. destruct (d_mem key cm) eqn:Hm; [eauto|].
    rewrite d_get_set. destruct (eqb_spec k key) as [->|Hne]; [|eauto].
    intros [= <-] []. }
  intros cm1 H1. destruct (d_get key cm1) as [l|] eqn:Hl.
  - destruct (mem color l).
    + intros Hk Hv. right. eauto.
    + rewrite d_get_set. destruct (eqb_spec key' key) as [->|Hne].
      * intros [= <-] Hv. apply in_app_iff in Hv as [Hv|[<-|[]]]; [|now left].
        right. eauto.
      * intros Hk Hv. right. eauto.
  - intros Hk Hv. right. eauto.
Qed.

Lemma for_each_invariant_In {A S : Type} (Inv : S -> Prop)
      (body : S -> A -> result S) l :
  (forall s a s', In a l -> Inv s -> body s a = Ok s' -> Inv s') ->
  forall s s', Inv s -> for_each l body s = Ok s' -> Inv s'.
Proof.
  induction l as [|a l IH]; cbn [for_each]; intros Hb s s' Hs Hrun.
  - now injection Hrun as <-.
  - apply bind_Ok in Hrun as (s1 & H1 & Hrun).
    eapply IH; [|eapply Hb; [now left|exact Hs|exact H1]|exact Hrun].
    intros s0 a0 s0' Hin. apply Hb. now right.
Qed.

Lemma for_each_Ok_In {A S : Type} (Inv : S -> Prop)
      (body : S -> A -> result S) l :
  (forall s a, In a l -> Inv s -> exists s', body s a = Ok s' /\ Inv s') ->
  forall s, Inv s -> exists s', for_each l body s = Ok s' /\ Inv s'.
Proof.
  induction l as [|a l IH]; cbn [for_each]; intros Hb s Hs.
  - now exists s.
  - destruct (Hb s a (or_introl eq_refl) Hs) as (s1 & -> & Hs1). cbn [bind].
    apply IH; [|exact Hs1]. intros s0 a0 Hin. apply Hb. now right.
Qed.

Lemma rgba_never_ok content cm m cm' :
  In m (finditer false RGBA_COLOR_REGEX content) -> extract_rgba cm m <> Ok cm'.
Proof.
  intros Hin. apply finditer_groups in Hin.
  destruct (extract_rgba_raises cm m Hin) as (e & ->). discriminate.
Qed.

Lemma hsla_never_ok content cm m cm' :
  In m (finditer false HSLA_COLOR_REGEX content) -> extract_hsla cm m <> Ok cm'.
Proof.
  intros Hin. apply finditer_groups in Hin.
  destruct (extract_hsla_raises cm m Hin) as (e & ->). discriminate.
Qed.

Ltac decide_prefixes :=
  unfold format_of_color; cbn [prefix append];
  repeat (match goal with
          | |- context [ascii_dec ?a ?b] =>
              destruct (ascii_dec a b) as [E|E];
              [try discriminate E|try (exfalso; apply E; reflexivity)]
          end; cbn [prefix]);
  repeat match goal with
         | |- context [prefix EmptyString ?t] =>
             replace (prefix EmptyString t) with true by (destruct t; reflexivity)
         end;
  reflexivity.

Lemma format_hash t : format_of_color (String "#" t) = "hex".
Proof. decide_prefixes. Qed.

Lemma format_rgb t : format_of_color ("rgb(" ++ t) = "rgb".
Proof. decide_prefixes. Qed.

Lemma format_hsl t : format_of_color ("hsl(" ++ t) = "hsl".
Proof. decide_prefixes. Qed.

Lemma hex_format g :
  valid_hex3 g || valid_hex6 g = true -> format_of_color (lower g) = "hex".
Proof.
  intros H.
  assert (Hg : exists t, g = String "#" t).
  { unfold valid_hex3, valid_hex6 in H. destruct g as [|c t]; [discriminate|].
    destruct c as [[] [] [] [] [] [] [] []]; try discriminate. now exists t. }
  destruct Hg as (t & ->). cbn [lower].
  change (lower_char "#") with "#"%char. apply format_hash.
Qed.

(** What each loop of the extractor records for a match *)
Lemma extract_hex_records content cm m :
  In m (finditer false HEX_COLOR_REGEX content) ->
  exists k color,
    extract_hex cm m = Ok (record_color (Some k) color cm) /\
    canonical k = true /\ format_of_color color = "hex".
Proof.
  intros Hin. apply finditer_sound in Hin as (pv & s & Hm).
  apply hex_match_shape in Hm.
  exists (normalize_hex_color (lower (group0 m))), (lower (group0 m)).
  split; [reflexivity|]. split; [now apply normalize_canonical|now apply hex_format].
Qed.

Lemma decimal_nonneg d : forall acc,
  all_chars is_digit d = true -> 0 <= acc -> 0 <= decimal d acc.
Proof.
  induction d as [|c d IH]; cbn [decimal all_chars]; intros acc Hd Hacc; [exact Hacc|].
  apply andb_prop in Hd as [Hc Hd]. apply IH; [exact Hd|].
  unfold is_digit, between in Hc. apply andb_prop in Hc as [Hlo _].
  apply N.leb_le in Hlo. lia.
Qed.

Lemma number_nonneg d : is_number d = true -> 0 <= decimal d 0.
Proof.
  intros Hd. apply decimal_nonneg; [|lia]. destruct d; [discriminate|exact Hd].
Qed.

(** [map(int, match.groups())] for three groups of digits: their numbers,
    unless one of them has more than 4300 digits. *)
Lemma ints_of_numbers m d1 d2 d3 :
  groups m = [Some d1; Some d2; Some d3] ->
  is_number d1 = true -> is_number d2 = true -> is_number d3 = true ->
  exists e,
    mapM int_of_group (groups m)
    = if short_numbers m then Ok [decimal d1 0; decimal d2 0; decimal d3 0]
      else Raise e.
Proof.
  intros Hgs N1 N2 N3. unfold short_numbers. rewrite Hgs. cbn [mapM forallb].
  destruct (Nat.leb_spec (String.length d1) 4300) as [L1|L1];
    [rewrite (int_of_number d1 N1 L1)
    |rewrite (int_of_long_number d1 N1 L1); eexists; reflexivity].
  destruct (Nat.leb_spec (String.length d2) 4300) as [L2|L2];
    [rewrite (int_of_number d2 N2 L2)
    |rewrite (int_of_long_number d2 N2 L2); eexists; reflexivity].
  destruct (Nat.leb_spec (String.length d3) 4300) as [L3|L3];
    [rewrite (int_of_number d3 N3 L3)
    |rewrite (int_of_long_number d3 N3 L3); eexists; reflexivity].
  exists (ValueError EmptyString). reflexivity.
Qed.

Lemma extract_rgb_records content cm m :
  In m (finditer false RGB_COLOR_REGEX content) ->
  exists r g b e,
    numbers m = [r; g; b] /\ 0 <= r /\ 0 <= g /\ 0 <= b /\
    extract_rgb cm m
    = (if short_numbers m
       then Ok (record_color (Some (hex_value_of r g b)) (group0 m) cm)
       else Raise e) /\
    format_of_color (group0 m) = "rgb".
Proof.
  intros Hin. apply finditer_sound in Hin as (pv & s & Hm).
  apply rgb_match_shape in Hm as (d1 & d2 & d3 & t & Hg0 & Hgs & N1 & N2 & N3).
  destruct (ints_of_numbers m d1 d2 d3 Hgs N1 N2 N3) as (e & He).
  exists (decimal d1 0), (decimal d2 0), (decimal d3 0), e.
  unfold extract_rgb. rewrite He. unfold numbers. rewrite Hgs, Hg0. cbn [map].
  repeat split; try (now apply number_nonneg); [|apply format_rgb].
  now destruct (short_numbers m).
Qed.

Lemma extract_hsl_records content cm m :
  In m (finditer false HSL_COLOR_REGEX content) ->
  exists h s l e,
    numbers m = [h; s; l] /\ 0 <= h /\ 0 <= s /\ 0 <= l /\
    extract_hsl cm m
    = (if short_numbers m
       then hex_value <- hsl_hex_value h s l ;;
            Ok (record_color (Some hex_value) (group0 m) cm)
       else Raise e) /\
    format_of_color (group0 m) = "hsl".
Proof.
  intros Hin. apply finditer_sound in Hin as (pv & s & Hm).
  apply hsl_match_shape in Hm as (d1 & d2 & d3 & t & Hg0 & Hgs & N1 & N2 & N3).
  destruct (ints_of_numbers m d1 d2 d3 Hgs N1 N2 N3) as (e & He).
  exists (decimal d1 0), (decimal d2 0), (decimal d3 0), e.
  unfold extract_hsl. rewrite He. unfold numbers. rewrite Hgs, Hg0. cbn [map].
  repeat split; try (now apply number_nonneg); [|apply format_hsl].
  now destruct (short_numbers m).
Qed.

Lemma d_get_Some_keys {K V : Type} `{Eqb K} (k : K) (v : V) (d : dict K V) :
  d_get k d = Some v -> In k (d_keys d).
Proof.
  induction d as [|[k' v'] d IH]; cbn [d_get d_keys map fst In]; [discriminate|].
  destruct (eqb_spec k k') as [->|Hne]; [now left|]. intros Hk. right. now apply IH.
Qed.

(** What the loop of the names records for a match that is, in
    lowercase, a name of the table *)
Lemma named_key_records cm m :
  d_mem (lower (group0 m)) NAMED_COLORS = true ->
  exists k,
    extract_named cm m = Ok (record_color (Some k) (lower (group0 m)) cm) /\
    canonical k = true /\ format_of_color (lower (group0 m)) = "named".
Proof.
  intros Hmem. unfold d_mem in Hmem.
  destruct (d_get (lower (group0 m)) NAMED_COLORS) as [hex|] eqn:Hget;
    [|discriminate].
  pose proof (d_get_Some_keys _ _ _ Hget) as Hin.
  destruct (named_color_facts _ Hin) as (_ & Hfmt & hex' & Hget' & Hcan).
  rewrite Hget in Hget'. injection Hget' as <-.
  exists hex. unfold extract_named. rewrite Hget. now repeat split.
Qed.

(** Below code point 256 every match of the pattern of the names is a
    name of the table. *)
Lemma names_are_keys_below_256 content : names_are_keys content.
Proof.
  intros m Hin. apply finditer_sound in Hin as (pv & s & Hm).
  apply named_match_shape in Hm as (color & Hc & Hl).
  destruct (named_color_facts color Hc) as (Hlow & _ & hex & Hget & _).
  unfold d_mem. now rewrite Hl, Hlow, Hget.
Qed.

Lemma In_recorded_formats f :
  f = "hex" \/ f = "rgb" \/ f = "hsl" \/ f = "named" -> In f recorded_formats.
Proof. unfold recorded_formats. cbn [In]. intuition auto. Qed.

Lemma record_color_plain k color cm :
  In (format_of_color color) recorded_formats ->
  plain_entries cm -> plain_entries (record_color (Some k) color cm).
Proof.
  intros Hf Hcm key vs Hk.
  assert (Hkey : exists k', key = Some k').
  { assert (Hin : In key (d_keys (record_color (Some k) color cm)))
      by exact (d_get_Some_keys _ _ _ Hk).
    apply record_color_keys in Hin as [->|Hin]; [now exists k|].
    destruct (d_get key cm) as [vs0|] eqn:Hget.
    - now apply (Hcm key vs0).
    - apply d_get_None_keys in Hget. contradiction. }
  split; [exact Hkey|]. intros v Hv.
  destruct (record_color_entry _ _ _ _ _ _ Hk Hv) as [[_ ->]|(vs0 & Hget & Hin)];
    [exact Hf|].
  now apply (Hcm key vs0).
Qed.

Lemma extract_plain_when content cm :
  names_are_keys content ->
  extract_colors_from_content content = Ok cm -> plain_entries cm.
Proof.
  unfold extract_colors_from_content. intros Hnames H.
  apply bind_Ok in H as (cm1 & H1 & H). apply bind_Ok in H as (cm2 & H2 & H).
  apply bind_Ok in H as (cm3 & H3 & H). apply bind_Ok in H as (cm4 & H4 & H).
  apply bind_Ok in H as (cm5 & H5 & H6).
  assert (P0 : plain_entries []) by (intros k l; discriminate).
  assert (P1 : plain_entries cm1).
  { revert H1. apply for_each_invariant_In; [|exact P0].
    intros c m c' Hin Hc Hm.
    destruct (extract_hex_records content c m Hin) as (k & color & E & _ & Hf).
    rewrite E in Hm. injection Hm as <-.
    apply record_color_plain; [|exact Hc]. rewrite Hf. apply In_recorded_formats. auto. }
  assert (P2 : plain_entries cm2).
  { revert H2. apply for_each_invariant_In; [|exact P1].
    intros c m c' Hin Hc Hm.
    destruct (extract_rgb_records content c m Hin)
      as (r & g & b & e & _ & _ & _ & _ & E & Hf).
    rewrite E in Hm. destruct (short_numbers m); [|discriminate].
    injection Hm as <-.
    apply record_color_plain; [|exact Hc]. rewrite Hf. apply In_recorded_formats. auto. }
  assert (P3 : plain_entries cm3).
  { revert H3. apply for_each_invariant_In; [|exact P2].
    intros c m c' Hin Hc Hm. destruct (rgba_never_ok content c m c' Hin Hm). }
  assert (P4 : plain_entries cm4).
  { revert H4. apply for_each_invariant_In; [|exact P3].
    intros c m c' Hin Hc Hm.
    destruct (extract_hsl_records content c m Hin)
      as (h & s & l & e & _ & _ & _ & _ & E & Hf).
    rewrite E in Hm. destruct (short_numbers m); [|discriminate].
    apply bind_Ok in Hm as (hv & _ & [= <-]).
    apply record_color_plain; [|exact Hc]. rewrite Hf. apply In_recorded_formats. auto. }
  assert (P5 : plain_entries cm5).
  { revert H5. apply for_each_invariant_In; [|exact P4].
    intros c m c' Hin Hc Hm. destruct (hsla_never_ok content c m c' Hin Hm). }
  revert H6. apply for_each_invariant_In; [|exact P5].
  intros c m c' Hin Hc Hm.
  destruct (named_key_records c m (Hnames m Hin)) as (k & E & _ & Hf).
  rewrite E in Hm. injection Hm as <-.
  apply record_color_plain; [|exact Hc]. rewrite Hf. apply In_recorded_formats. auto.
Qed.

Lemma extract_plain content cm :
  extract_colors_from_content content = Ok cm -> plain_entries cm.
Proof. apply extract_plain_when, names_are_keys_below_256. Qed.

Lemma analyze_file_plain fs file_path :
  plain_entries (fst (analyze_file fs file_path)).
Proof.
  unfold analyze_file.
  destruct (bind (fs file_path) _) as [cm|e] eqn:E; cbn [fst].
  - apply bind_Ok in E as (content & _ & E). now apply (extract_plain content).
  - intros k l. discriminate.
Qed.

(** When every match of the pattern of the names is, in lowercase, a
    name of [NAMED_COLORS], every key that the extractor returns is a
    string and every spelling it returns has the format [hex], [rgb],
    [hsl] or [named].  (A match that is no name in lowercase, which needs
    a character above code point 255, is stored under the key [None].) *)
Theorem extracted_entries_are_plain :
  forall content cm key vs,
    names_are_keys content ->
    extract_colors_from_content content = Ok cm ->
    d_get key cm = Some vs ->
    (exists k, key = Some k) /\
    (forall v, In v vs -> In (format_of_color v) recorded_formats).
Proof.
  intros content cm key vs Hnames H. now apply (extract_plain_when content).
Qed.

Lemma extracted_entries_are_plain_witness :
  (exists k, Some "#ff0000" = Some k) /\
  (forall v, In v ["red"] -> In (format_of_color v) recorded_formats).
Proof.
  apply (extracted_entries_are_plain "a { color: Red }"
           [(Some "#ff0000", ["red"])] (Some "#ff0000") ["red"]).
  - intros m Hm. vm_compute in Hm. destruct Hm as [<-|[]]. reflexivity.
  - vm_compute. reflexivity.
  - reflexivity.
Defined.

(** No record of the aggregate has the format [rgba] or [hsla]: its
    [color_format] and the format of each of its [variations] is [hex],
    [rgb], [hsl] or [named]. *)
Theorem color_format_is_never_alpha :
  forall fs files cd err k r,
    aggregate fs files [] [] = (Ok cd, err) ->
    d_get k cd = Some r ->
    In (color_format r) recorded_formats /\
    (forall v, In v (variations r) -> In (format_of_color v) recorded_formats).
Proof.
  intros fs files cd err k r Hrun Hk. split.
  - destruct (aggregate_created fs files [] [] cd err k r Hrun eq_refl Hk)
      as (before & f & after & v0 & tl & _ & _ & Hf & _ & -> & _).
    destruct (analyze_file_plain fs f _ _ Hf) as [_ Hv]. apply Hv. now left.
  - intros v Hv.
    assert (Hsp : spelled fs ([] ++ files) cd).
    { refine (aggregate_spelled fs files [] [] [] cd err _ _ Hrun).
      - intros k' r'. discriminate.
      - intros k' _ g []. }
    destruct (Hsp k r Hk) as [_ Hin]. apply Hin in Hv as (f & _ & vs & Hf & Hv).
    destruct (analyze_file_plain fs f _ _ Hf) as [_ Hfmt]. now apply Hfmt.
Qed.

Lemma color_format_is_never_alpha_witness :
  exists cd err r,
    aggregate two_files ["a.css"; "b.css"] [] [] = (Ok cd, err) /\
    d_get "#ff0000" cd = Some r /\
    In (color_format r) recorded_formats /\
    (forall v, In v (variations r) -> In (format_of_color v) recorded_formats).
Proof.
  destruct (aggregate two_files ["a.css"; "b.css"] [] [])
    as [[cd|e] err] eqn:Hrun; [|vm_compute in Hrun; discriminate].
  destruct (d_get "#ff0000" cd) as [r|] eqn:Hk.
  - exists cd, err, r. split; [reflexivity|]. split; [exact Hk|].
    exact (color_format_is_never_alpha _ _ _ _ _ _ Hrun Hk).
  - exfalso. vm_compute in Hrun. injection Hrun as <- _.
    vm_compute in Hk. discriminate.
Defined.

Lemma record_color_canonical k color cm :
  canonical k = true -> canonical_keys cm ->
  canonical_keys (record_color (Some k) color cm).
Proof.
  intros Hk Hcm key Hin. apply record_color_keys in Hin as [->|Hin].
  - now exists k.
  - now apply Hcm.
Qed.

(** A text whose RGBA and HSLA patterns find nothing, whose RGB and HSL
    literals hold numbers in range (at most 255, 360 degrees, 100
    percent, written with no more digits than [int] takes) and whose
    matches of the names are names of [NAMED_COLORS] in lowercase is
    extracted without an exception, and every key is a canonical
    color. *)
Theorem in_range_text_has_canonical_keys :
  forall content,
    finditer false RGBA_COLOR_REGEX content = [] ->
    finditer false HSLA_COLOR_REGEX content = [] ->
    (forall m, In m (finditer false RGB_COLOR_REGEX content) ->
               short_numbers m = true /\ Forall (fun n => n <= 255) (numbers m)) ->
    (forall m, In m (finditer false HSL_COLOR_REGEX content) ->
               short_numbers m = true /\
               exists h s l, numbers m = [h; s; l] /\
                             h <= 360 /\ s <= 100 /\ l <= 100) ->
    names_are_keys content ->
    exists cm,
      extract_colors_from_content content = Ok cm /\
      forall key, In key (d_keys cm) -> exists k, key = Some k /\ canonical k = true.
Proof.
  intros content Hrgba Hhsla Hrgb Hhsl Hnames. unfold extract_colors_from_content.
  rewrite Hrgba, Hhsla.
  assert (C0 : canonical_keys []) by (intros k []).
  destruct (for_each_Ok_In canonical_keys extract_hex
              (finditer false HEX_COLOR_REGEX content)) with (s := @nil (option string * list string))
    as (cm1 & -> & C1); [|exact C0|].
  { intros c m Hin Hc.
    destruct (extract_hex_records content c m Hin) as (k & color & E & Hk & _).
    rewrite E. eexists. split; [reflexivity|]. now apply record_color_canonical. }
  cbn [bind].
  destruct (for_each_Ok_In canonical_keys extract_rgb
              (finditer false RGB_COLOR_REGEX content)) with (s := cm1)
    as (cm2 & -> & C2); [|exact C1|].
  { intros c m Hin Hc.
    destruct (extract_rgb_records content c m Hin)
      as (r & g & b & e & En & Hr & Hg & Hb & E & _).
    destruct (Hrgb m Hin) as [Hshort Hle]. rewrite En in Hle.
    apply Forall_cons_iff in Hle as [Lr Hle].
    apply Forall_cons_iff in Hle as [Lg Hle].
    apply Forall_cons_iff in Hle as [Lb _].
    rewrite E, Hshort. eexists. split; [reflexivity|].
    apply record_color_canonical; [|exact Hc].
    now apply hex_value_of_canonical. }
  cbn [bind for_each].
  destruct (for_each_Ok_In canonical_keys extract_hsl
              (finditer false HSL_COLOR_REGEX content)) with (s := cm2)
    as (cm4 & -> & C4); [|exact C2|].
  { intros c m Hin Hc.
    destruct (extract_hsl_records content c m Hin)
      as (h & s & l & e & En & Hh & Hs & Hl & E & _).
    destruct (Hhsl m Hin) as [Hshort (h' & s' & l' & En' & Lh & Ls & Ll)].
    rewrite En in En'. injection En' as <- <- <-.
    destruct (hsl_hex_value_within h s l) as
        (fh & fs & fl & r & g & b & R & G & B & _ & _ & _ & _ & _ & _ & _
         & HR & HG & HB & Ekey); [lia..|].
    rewrite E, Hshort, Ekey. cbn [bind]. eexists. split; [reflexivity|].
    apply record_color_canonical; [|exact Hc].
    apply hex_value_of_canonical; lia. }
  cbn [bind for_each].
  destruct (for_each_Ok_In canonical_keys extract_named
              (finditer true NAMED_COLOR_REGEX content)) with (s := cm4)
    as (cm6 & -> & C6); [|exact C4|].
  { intros c m Hin Hc.
    destruct (named_key_records c m (Hnames m Hin)) as (k & E & Hk & _).
    rewrite E. eexists. split; [reflexivity|]. now apply record_color_canonical. }
  exists cm6. split; [reflexivity|exact C6].
Qed.

Lemma in_range_text_witness :
  exists cm,
    extract_colors_from_content sample_css = Ok cm /\
    forall key, In key (d_keys cm) -> exists k, key = Some k /\ canonical k = true.
Proof.
  apply in_range_text_has_canonical_keys.
  - vm_compute. reflexivity.
  - vm_compute. reflexivity.
  - intros m Hm. vm_compute in Hm. destruct Hm as [<-|[]].
    split; [reflexivity|]. repeat constructor; discriminate.
  - intros m Hm. vm_compute in Hm. destruct Hm as [<-|[]].
    split; [reflexivity|]. exists 200, 50, 50. repeat split; discriminate.
  - intros m Hm. vm_compute in Hm. destruct Hm as [<-|[]]. reflexivity.
Defined.

(** * The key of an HSL literal *)

Lemma record_color_has key color cm :
  has_spelling key color (record_color key color cm).
Proof.
  unfold record_color, has_spelling. cbv zeta.
  set (cm1 := if d_mem key cm then cm else d_set key [] cm).
  assert (H1 : exists l, d_get key cm1 = Some l).
  { unfold cm1, d_mem. destruct (d_get key cm) as [l|] eqn:E; [eauto|].
    rewrite d_get_set_same. eauto. }
  destruct H1 as (l & Hl). rewrite Hl.
  destruct (mem color l) eqn:Hm.
  - exists l. split; [exact Hl|now apply mem_spec].
  - exists (l ++ [color])%list. rewrite d_get_set_same.
    split; [reflexivity|apply in_or_app; right; now left].
Qed.

Lemma record_color_keeps key color cm k v :
  has_spelling k v cm -> has_spelling k v (record_color key color cm).
Proof.
  intros (vs & Hk & Hv). unfold record_color. cbv zeta.
  set (cm1 := if d_mem key cm then cm else d_set key [] cm).
  assert (H1 : has_spelling k v cm1).
  { unfold cm1. destruct (d_mem key cm) eqn:Hm; [now exists vs|].
    exists vs. rewrite d_get_set.
    destruct (eqb_spec k key) as [->|Hne]; [|now split].
    unfold d_mem in Hm. rewrite Hk in Hm. discriminate. }
  clearbody cm1. destruct H1 as (vs1 & Hk1 & Hv1).
  destruct (d_get key cm1) as [l|] eqn:Hl; [|now exists vs1].
  destruct (mem color l); [now exists vs1|].
  unfold has_spelling. rewrite d_get_set.
  destruct (eqb_spec k key) as [->|Hne]; [|now exists vs1].
  rewrite Hl in Hk1. injection Hk1 as ->.
  exists (vs1 ++ [color])%list. split; [reflexivity|apply in_or_app; now left].
Qed.

(** A loop whose body records keeps what the dictionary holds. *)
Lemma for_each_keeps (body : color_matches -> match_object -> result color_matches) l k v :
  (forall cm m cm', body cm m = Ok cm' ->
                    exists key color, cm' = record_color key color cm) ->
  forall cm cm',
    has_spelling k v cm -> for_each l body cm = Ok cm' -> has_spelling k v cm'.
Proof.
  intros Hb. apply for_each_invariant.
  intros cm m cm' Hcm Hm. destruct (Hb _ _ _ Hm) as (key & color & ->).
  now apply record_color_keeps.
Qed.

(** A loop that ends has run its body on every element. *)
Lemma for_each_reaches {A S : Type} (body : S -> A -> result S) a : forall l s s',
  In a l -> for_each l body s = Ok s' ->
  exists s1 s2 l2, body s1 a = Ok s2 /\ for_each l2 body s2 = Ok s'.
Proof.
  induction l as [|x l IH]; intros s s' Hin Hrun; [destruct Hin|].
  cbn [for_each] in Hrun. apply bind_Ok in Hrun as (s1 & Hx & Hrun).
  destruct Hin as [->|Hin].
  - now exists s, s1, l.
  - exact (IH _ _ Hin Hrun).
Qed.

Lemma extract_hsl_step cm m cm' :
  extract_hsl cm m = Ok cm' -> exists key color, cm' = record_color key color cm.
Proof.
  unfold extract_hsl. intros E.
  apply bind_Ok in E as (ints & _ & E). apply bind_Ok in E as ([[h s] l] & _ & E).
  apply bind_Ok in E as (hv & _ & [= <-]). eauto.
Qed.

Lemma extract_hsla_step cm m cm' :
  extract_hsla cm m = Ok cm' -> exists key color, cm' = record_color key color cm.
Proof.
  unfold extract_hsla. intros E.
  apply bind_Ok in E as ([[[h s] l] a] & _ & E).
  apply bind_Ok in E as (h' & _ & E). apply bind_Ok in E as (s' & _ & E).
  apply bind_Ok in E as (l' & _ & E). apply bind_Ok in E as (hv & _ & [= <-]).
  eauto.
Qed.

Lemma extract_named_step cm m cm' :
  extract_named cm m = Ok cm' -> exists key color, cm' = record_color key color cm.
Proof. intros [= <-]. eauto. Qed.

(** What the HSL loop records stays to the end of the extraction. *)
Lemma hsl_record_stays content m key cm :
  In m (finditer false HSL_COLOR_REGEX content) ->
  (forall cm0, extract_hsl cm0 m = Ok (record_color key (group0 m) cm0)) ->
  extract_colors_from_content content = Ok cm ->
  has_spelling key (group0 m) cm.
Proof.
  intros Hin Hbody H. unfold extract_colors_from_content in H.
  apply bind_Ok in H as (cm1 & _ & H). apply bind_Ok in H as (cm2 & _ & H).
  apply bind_Ok in H as (cm3 & _ & H). apply bind_Ok in H as (cm4 & H4 & H).
  apply bind_Ok in H as (cm5 & H5 & H6).
  destruct (for_each_reaches _ _ _ _ _ Hin H4) as (s1 & s2 & l2 & Hm & Hrest).
  rewrite Hbody in Hm. injection Hm as <-.
  pose proof (record_color_has key (group0 m) s1) as Hhas.
  apply (for_each_keeps _ _ _ _ extract_hsl_step _ _ Hhas) in Hrest.
  apply (for_each_keeps _ _ _ _ extract_hsla_step _ _ Hrest) in H5.
  exact (for_each_keeps _ _ _ _ extract_named_step _ _ H5 H6).
Qed.

(** C2, amended: for every match of the HSL pattern in any text, whose
    numbers [h], [s], [l] are written with no more digits than [int]
    takes and are in range (a hue of at most 360, percentages of at most
    100; the numbers of a match are never negative), [int] makes [h], [s],
    [l] of the groups and the body of the loop stores the literal, in
    whatever dictionary the loop has reached, under the key [#] and the
    two-digit hexadecimal of [R], [G] and [B], where [(r, g, b)] is
    [colorsys.hls_to_rgb] of the scaled components and each of [R], [G],
    [B] is the channel times 255 cut toward zero: a whole number between
    0 and 255 with [R <= r * 255 < R + 1].  When the extraction of the
    text returns, its result holds the literal under that key. *)
Theorem hsl_key_is_truncated :
  forall content m h s l,
    In m (finditer false HSL_COLOR_REGEX content) ->
    short_numbers m = true ->
    numbers m = [h; s; l] ->
    h <= 360 -> s <= 100 -> l <= 100 ->
    exists fh fs fl r g b R G B,
      mapM int_of_group (groups m) = Ok [h; s; l] /\
      PyFloat.int_truediv h 360 = Ok fh /\
      PyFloat.int_truediv s 100 = Ok fs /\
      PyFloat.int_truediv l 100 = Ok fl /\
      colorsys.hls_to_rgb fh fl fs = (r, g, b) /\
      cut_to (r * 255) R /\ cut_to (g * 255) G /\ cut_to (b * 255) B /\
      0 <= R <= 255 /\ 0 <= G <= 255 /\ 0 <= B <= 255 /\
      (forall cm,
          extract_hsl cm m
          = Ok (record_color (Some (hex_value_of R G B)) (group0 m) cm)) /\
      (forall cm,
          extract_colors_from_content content = Ok cm ->
          has_spelling (Some (hex_value_of R G B)) (group0 m) cm).
Proof.
  intros content m h s l Hin Hshort Hnum Lh Ls Ll.
  pose proof Hin as Hshape. apply finditer_sound in Hshape as (pv & t & Hm).
  apply hsl_match_shape in Hm as (d1 & d2 & d3 & t' & Hg0 & Hgs & N1 & N2 & N3).
  destruct (ints_of_numbers m d1 d2 d3 Hgs N1 N2 N3) as (e & Hints).
  rewrite Hshort in Hints.
  unfold numbers in Hnum. rewrite Hgs in Hnum. cbn [map] in Hnum.
  injection Hnum as <- <- <-.
  pose proof (number_nonneg d1 N1) as P1. pose proof (number_nonneg d2 N2) as P2.
  pose proof (number_nonneg d3 N3) as P3.
  destruct (hsl_hex_value_within (decimal d1 0) (decimal d2 0) (decimal d3 0))
    as (fh & fs & fl & r & g & b & R & G & B
        & Eh & Es & El & Ergb & Cr & Cg & Cb & Rr & Rg & Rb & Ekey); [lia..|].
  exists fh, fs, fl, r, g, b, R, G, B.
  assert (Hbody : forall cm,
             extract_hsl cm m
             = Ok (record_color (Some (hex_value_of R G B)) (group0 m) cm)).
  { intros cm. unfold extract_hsl. rewrite Hints. cbn [bind unpack3].
    rewrite Ekey. reflexivity. }
  repeat (split; [assumption|]).
  intros cm. now apply hsl_record_stays.
Qed.

(** C2, amended, at the HSL literal of [sample_css], which comes after a
    hex and an RGB literal *)
Lemma hsl_key_is_truncated_witness :
  exists fh fs fl r g b R G B,
    mapM int_of_group (groups sample_hsl_match) = Ok [200; 50; 50] /\
    PyFloat.int_truediv 200 360 = Ok fh /\
    PyFloat.int_truediv 50 100 = Ok fs /\
    PyFloat.int_truediv 50 100 = Ok fl /\
    colorsys.hls_to_rgb fh fl fs = (r, g, b) /\
    cut_to (r * 255) R /\ cut_to (g * 255) G /\ cut_to (b * 255) B /\
    0 <= R <= 255 /\ 0 <= G <= 255 /\ 0 <= B <= 255 /\
    (forall cm,
        extract_hsl cm sample_hsl_match
        = Ok (record_color (Some (hex_value_of R G B))
                           (group0 sample_hsl_match) cm)) /\
    (forall cm,
        extract_colors_from_content sample_css = Ok cm ->
        has_spelling (Some (hex_value_of R G B)) (group0 sample_hsl_match) cm).
Proof.
  apply (hsl_key_is_truncated sample_css sample_hsl_match 200 50 50).
  - vm_compute. left. reflexivity.
  - reflexivity.
  - reflexivity.
  - lia.
  - lia.
  - lia.
Defined.

(** * The suffix of a name *)

Lemma no_dot_rfind name : no_dot name = true -> rfind_dot name = None.
Proof.
  induction name as [|c name IH]; cbn [no_dot all_chars rfind_dot]; [reflexivity|].
  intros H. apply andb_prop in H as [Hc H]. rewrite (IH H).
  apply negb_true_iff in Hc. now rewrite Hc.
Qed.

Lemma rfind_dot_app stem ext :
  no_dot ext = true ->
  rfind_dot (stem ++ String "." ext) = Some (String.length stem).
Proof.
  intros Hext. induction stem as [|c stem IH]; cbn [append rfind_dot String.length].
  - now rewrite (no_dot_rfind ext Hext).
  - now rewrite IH.
Qed.

Lemma substring_app a : forall n b,
  substring (String.length a) n (a ++ b) = substring 0 n b.
Proof.
  induction a as [|c a IH]; intros n b; cbn [String.length append]; [reflexivity|].
  cbn [substring]. apply IH.
Qed.

Lemma substring_all b : substring 0 (String.length b) b = b.
Proof.
  induction b as [|c b IH]; cbn [String.length substring]; [reflexivity|].
  now rewrite IH.
Qed.

Lemma suffix_of_parts stem ext :
  no_dot ext = true ->
  suffix (stem ++ String "." ext)
  = match stem, ext with
    | EmptyString, _ | _, EmptyString => ""
    | _, _ => String "." ext
    end.
Proof.
  intros Hext. unfold suffix. rewrite (rfind_dot_app stem ext Hext).
  rewrite string_length_app.
  destruct stem as [|c stem]; [reflexivity|].
  set (st := String c stem).
  assert (Hpos : (0 <? String.length st)%nat = true)
    by (apply Nat.ltb_lt; cbn [st String.length]; lia).
  rewrite Hpos. cbn [andb].
  destruct ext as [|x ext].
  - replace (String.length st <? String.length st + String.length "." - 1)%nat
      with false by (symmetry; apply Nat.ltb_ge; cbn [String.length]; lia).
    reflexivity.
  - set (ex := String "." (String x ext)).
    replace (String.length st <? String.length st + String.length ex - 1)%nat
      with true by (symmetry; apply Nat.ltb_lt; cbn [ex String.length]; lia).
    rewrite substring_app.
    replace (String.length st + String.length ex - String.length st)%nat
      with (String.length ex) by lia.
    apply substring_all.
Qed.

(** The test of [find_files] looks at the last dot of the name and what
    follows it, in lowercase; a name whose last dot is its first or its
    last character, or that has no dot, passes only if the empty string
    is among the extensions.  So [.css] and [a.] are left out, and
    [A.CSS] is taken for [.css]. *)
Theorem extension_is_after_the_last_dot :
  forall extensions,
    (forall stem ext,
        no_dot ext = true ->
        has_extension extensions (stem ++ String "." ext)
        = match stem, ext with
          | EmptyString, _ | _, EmptyString => mem "" extensions
          | _, _ => mem (lower (String "." ext)) extensions
          end) /\
    (forall name,
        no_dot name = true -> has_extension extensions name = mem "" extensions).
Proof.
  intros extensions. unfold has_extension. split.
  - intros stem ext Hext. rewrite (suffix_of_parts stem ext Hext).
    destruct stem, ext; reflexivity.
  - intros name H. unfold suffix. now rewrite (no_dot_rfind name H).
Qed.

Lemma extension_witness :
  has_extension [".css"] ("A" ++ String "." "CSS") = true /\
  has_extension [".css"] ("" ++ String "." "css") = false /\
  has_extension [".css"] "Makefile" = false.
Proof.
  destruct (extension_is_after_the_last_dot [".css"]) as [Hparts Hnone].
  split; [exact (Hparts "A" "CSS" eq_refl)|].
  split; [exact (Hparts "" "css" eq_refl)|exact (Hnone "Makefile" eq_refl)].
Defined.

(** * The walk *)

Lemma In_filenames n es : In n (filenames es) <-> In (File n) es.
Proof.
  unfold filenames. rewrite in_flat_map. split.
  - intros ([m|d sub] & Hin & Hn); cbn [In] in Hn; [|contradiction].
    destruct Hn as [<-|[]]. exact Hin.
  - intros Hin. exists (File n). split; [exact Hin|now left].
Qed.

Lemma file_at_nonempty es p : file_at es p -> p <> [].
Proof. intros H. destruct H; discriminate. Qed.

Lemma depth_In e es :
  In e es -> (depth e <= fold_right (fun e' n => Nat.max (depth e') n) O es)%nat.
Proof.
  induction es as [|e' es IH]; cbn [In fold_right]; [intros []|].
  intros [<-|Hin]; [lia|]. specialize (IH Hin). lia.
Qed.

Lemma found_app extensions a b : found extensions (a ++ b) = (found extensions a ++ found extensions b)%list.
Proof. unfold found. apply flat_map_app. Qed.

Lemma found_here extensions root names p :
  In p (found extensions [(root, names)]) <->
  exists name, p = (root ++ [name])%list /\ In name names /\
               has_extension extensions name = true.
Proof.
  unfold found. cbn [flat_map]. rewrite app_nil_r, in_flat_map. split.
  - intros (name & Hin & Hp). exists name.
    destruct (has_extension extensions name); [|destruct Hp].
    destruct Hp as [<-|[]]. now repeat split.
  - intros (name & -> & Hin & Hext). exists name. split; [exact Hin|].
    rewrite Hext. now left.
Qed.

Lemma found_flat_map extensions {A : Type} (f : A -> list (list string * list string)) l p :
  In p (found extensions (flat_map f l)) <-> exists a, In a l /\ In p (found extensions (f a)).
Proof.
  induction l as [|a l IH]; cbn [flat_map In].
  - split; [intros []|intros (a & [] & _)].
  - rewrite found_app, in_app_iff, IH. split.
    + intros [H|(a' & Hin & H)]; [exists a; auto|exists a'; auto].
    + intros (a' & [<-|Hin] & H); [now left|right; eauto].
Qed.

Lemma found_walk extensions n : forall es root p,
  (fold_right (fun e' k => Nat.max (depth e') k) O es < n)%nat ->
  (In p (found extensions (walk root es)) <->
   exists q name,
     p = (root ++ q ++ [name])%list /\ file_at es (q ++ [name])%list /\
     has_extension extensions name = true).
Proof.
  induction n as [|n IH]; intros es root p Hd; [lia|].
  unfold walk.
  change ((root, filenames es) :: flat_map (walk_entry root) es)
    with ([(root, filenames es)] ++ flat_map (walk_entry root) es)%list.
  rewrite found_app, in_app_iff, found_here, found_flat_map. split.
  - intros [(name & -> & Hin & Hext)|(e & Hin & Hp)].
    + exists [], name. cbn [app]. repeat split; [|exact Hext].
      apply file_here. now apply In_filenames.
    + destruct e as [m|d sub]; [destruct Hp|].
      cbn [walk_entry] in Hp. fold (walk (root ++ [d]) sub) in Hp.
      pose proof (depth_In _ _ Hin) as Hle. cbn [depth] in Hle.
      apply IH in Hp as (q & name & -> & Hat & Hext); [|lia].
      exists (d :: q), name. rewrite <- app_assoc. cbn [app].
      repeat split; [|exact Hext]. now apply (file_below es d sub).
  - intros (q & name & -> & Hat & Hext).
    inversion Hat as [es0 m Hin Ees Ep|es0 d sub p' Hin Hsub Ees Ep]; subst es0.
    + destruct q as [|x q]; [|destruct q; discriminate].
      cbn [app] in Ep. injection Ep as E1. subst m. left. exists name.
      repeat split; [|exact Hext]. now apply In_filenames.
    + destruct q as [|x q].
      * cbn [app] in Ep. injection Ep as E1 E2. subst p'.
        exfalso. exact (file_at_nonempty _ _ Hsub eq_refl).
      * cbn [app] in Ep. injection Ep as E1 E2. subst d p'. right.
        exists (Dir x sub). split; [exact Hin|].
        cbn [walk_entry]. fold (walk (root ++ [x]) sub).
        pose proof (depth_In _ _ Hin) as Hle. cbn [depth] in Hle.
        apply IH; [lia|]. exists q, name. rewrite <- app_assoc. now repeat split.
Qed.

Lemma find_files_In path es extensions p :
  In p (find_files path (IsDir es) extensions) <->
  exists q name,
    p = (path ++ q ++ [name])%list /\ file_at es (q ++ [name])%list /\
    has_extension extensions name = true.
Proof.
  apply (found_walk extensions (S (fold_right (fun e' k => Nat.max (depth e') k) O es))).
  lia.
Qed.

(** [find_files] on a directory returns the paths of the files below it
    whose suffix, in lowercase, is one of the extensions, and no other
    path. *)
Theorem find_files_finds_the_extensions :
  forall path es extensions p,
    In p (find_files path (IsDir es) extensions) <->
    exists q name,
      p = (path ++ q ++ [name])%list /\ file_at es (q ++ [name])%list /\
      has_extension extensions name = true.
Proof. exact find_files_In. Qed.

Lemma find_files_witness :
  In ["src"; "lib"; "B.SCSS"] (find_files ["src"] (IsDir style_tree) [".css"; ".scss"]).
Proof.
  apply find_files_finds_the_extensions. exists ["lib"], "B.SCSS".
  split; [reflexivity|]. split; [|reflexivity].
  apply (file_below _ "lib" [File "B.SCSS"; File "notes.txt"]).
  - right. right. now left.
  - apply file_here. now left.
Defined.

(** * Texts without colors *)

Lemma names_start_with_letters : no_first true NAMED_COLOR_REGEX colorless = true.
Proof. vm_compute. reflexivity. Qed.

Lemma body_is_colorless c : body_char c = true -> colorless c = true.
Proof.
  intros Hc.
  assert (H : implb (body_char c) (colorless c) = true)
    by (apply (for_all_ascii (fun c => implb (body_char c) (colorless c)));
        vm_compute; reflexivity).
  now rewrite Hc in H.
Qed.

Lemma colorless_finds_nothing ic r content :
  nullable r = false -> no_first ic r colorless = true ->
  all_chars colorless content = true -> finditer ic r content = [].
Proof.
  intros Hn Hf Hc. unfold finditer. apply scan_no_first; [exact Hn|].
  now apply (no_first_spec _ _ colorless).
Qed.

(** A text that holds neither [#] nor a letter of the English alphabet
    holds no color: the extractor returns the empty dictionary for it,
    as it does for the empty text. *)
Theorem text_without_letters_has_no_colors :
  forall content,
    all_chars colorless content = true ->
    extract_colors_from_content content = Ok [].
Proof.
  intros content Hc. unfold extract_colors_from_content.
  rewrite (colorless_finds_nothing false HEX_COLOR_REGEX content);
    [|reflexivity|vm_compute; reflexivity|exact Hc].
  rewrite (colorless_finds_nothing false RGB_COLOR_REGEX content);
    [|reflexivity|vm_compute; reflexivity|exact Hc].
  rewrite (colorless_finds_nothing false RGBA_COLOR_REGEX content);
    [|reflexivity|vm_compute; reflexivity|exact Hc].
  rewrite (colorless_finds_nothing false HSL_COLOR_REGEX content);
    [|reflexivity|vm_compute; reflexivity|exact Hc].
  rewrite (colorless_finds_nothing false HSLA_COLOR_REGEX content);
    [|reflexivity|vm_compute; reflexivity|exact Hc].
  rewrite (colorless_finds_nothing true NAMED_COLOR_REGEX content);
    [|vm_compute; reflexivity|exact names_start_with_letters|exact Hc].
  reflexivity.
Qed.

Lemma text_without_letters_witness :
  extract_colors_from_content "{ 12; (255, 0, 0) 50% }" = Ok [].
Proof. apply text_without_letters_has_no_colors. reflexivity. Defined.

(** * The files of a run *)

(** A file named by [-i] is taken whatever its name; when it also lies
    under the directory of [-d] and has one of the extensions, it is in
    the list a second time, and so is processed twice. *)
Theorem input_under_dir_is_listed_twice :
  forall parts lookup i d es q name,
    i <> "" -> d <> "" ->
    lookup (parts i) = IsFile ->
    lookup (parts d) = IsDir es ->
    parts i = (parts d ++ q ++ [name])%list ->
    file_at es (q ++ [name])%list ->
    has_extension file_extensions name = true ->
    exists later,
      main_files parts lookup (Some i) (Some d) = Run (parts i :: later) /\
      In (parts i) later.
Proof.
  intros parts lookup i d es q name Hi Hd Hfile Hdir Hunder Hat Hext.
  unfold main_files.
  destruct i as [|ci i]; [congruence|]. destruct d as [|cd d]; [congruence|].
  cbn [given]. rewrite Hfile, Hdir. cbn [app].
  eexists. split; [reflexivity|].
  apply find_files_In. now exists q, name.
Qed.

Lemma input_under_dir_witness :
  exists later,
    main_files (fun s => if String.eqb s "a.css" then ["a.css"] else [])
               (fun p => match p with [] => IsDir [File "a.css"] | _ => IsFile end)
               (Some "a.css") (Some ".")
    = Run (["a.css"] :: later) /\
    In ["a.css"] later.
Proof.
  apply (input_under_dir_is_listed_twice
           (fun s => if String.eqb s "a.css" then ["a.css"] else [])
           (fun p => match p with [] => IsDir [File "a.css"] | _ => IsFile end)
           "a.css" "." [File "a.css"] [] "a.css");
    try reflexivity; try discriminate.
  apply file_here. now left.
Defined.

(** * The extractor on an RGB literal *)

Section RgbLiteral.
Variables w1 rs w2 w3 gs w4 w5 bs w6 : string.
Hypothesis H1 : all_chars is_space w1 = true.
Hypothesis H2 : all_chars is_space w2 = true.
Hypothesis H3 : all_chars is_space w3 = true.
Hypothesis H4 : all_chars is_space w4 = true.
Hypothesis H5 : all_chars is_space w5 = true.
Hypothesis H6 : all_chars is_space w6 = true.
Hypothesis Hr : is_number rs = true.
Hypothesis Hg : is_number gs = true.
Hypothesis Hb : is_number bs = true.

Lemma rgb_literal_match :
  match_at false RGB_COLOR_REGEX None (rgb_literal w1 rs w2 w3 gs w4 w5 bs w6)
  = Some {| group0 := rgb_literal w1 rs w2 w3 gs w4 w5 bs w6;
            groups := [Some rs; Some gs; Some bs] |}.
Proof.
  unfold match_at, RGB_COLOR_REGEX.
  set (lit0 := rgb_literal w1 rs w2 w3 gs w4 w5 bs w6).
  unfold rgb_literal in lit0.
  set (k0 := fun (_ : option ascii) (s' : string) (cs : list (nat * string)) => _).
  unfold lit0 at 1. rewrite step_lit.
  apply step_ws; [assumption|apply starts_with_number; [apply digit_not_space|assumption]|].
  apply step_num; [assumption| |].
  { apply (starts_without_app _ is_space); [apply space_not_digit|assumption|reflexivity]. }
  apply step_comma; [assumption..| |].
  { apply starts_with_number; [apply digit_not_space|assumption]. }
  apply step_num; [assumption| |].
  { apply (starts_without_app _ is_space); [apply space_not_digit|assumption|reflexivity]. }
  apply step_comma; [assumption..| |].
  { apply starts_with_number; [apply digit_not_space|assumption]. }
  apply step_num; [assumption| |].
  { apply (starts_without_app _ is_space); [apply space_not_digit|assumption|reflexivity]. }
  apply step_ws; [assumption|reflexivity|].
  cbn [rmatch]. unfold chr_matches. rewrite Ascii.eqb_refl.
  unfold k0. rewrite taken_all. reflexivity.
Qed.

Lemma rgb_literal_body :
  rgb_literal w1 rs w2 w3 gs w4 w5 bs w6
  = String "r" (String "g" (String "b" (String "(" (rgb_body w1 rs w2 w3 gs w4 w5 bs w6)))).
Proof. reflexivity. Qed.

Lemma rgb_body_chars : all_chars body_char (rgb_body w1 rs w2 w3 gs w4 w5 bs w6) = true.
Proof.
  unfold rgb_body. rewrite !all_chars_app.
  rewrite (spaces_are_body w1 H1), (spaces_are_body w2 H2),
    (spaces_are_body w3 H3), (spaces_are_body w4 H4),
    (spaces_are_body w5 H5), (spaces_are_body w6 H6),
    (number_is_body rs Hr), (number_is_body gs Hg), (number_is_body bs Hb).
  reflexivity.
Qed.

Lemma rgb_literal_chars :
  all_chars rgb_char (rgb_literal w1 rs w2 w3 gs w4 w5 bs w6) = true.
Proof.
  rewrite rgb_literal_body. cbn [all_chars].
  change (rgb_char "r") with true. change (rgb_char "g") with true.
  change (rgb_char "b") with true. change (rgb_char "(") with true.
  cbn [andb]. generalize rgb_body_chars. apply all_chars_impl.
  intros c Hc. unfold rgb_char. now rewrite Hc.
Qed.

Lemma rgb_literal_only_rgb :
  finditer false HEX_COLOR_REGEX (rgb_literal w1 rs w2 w3 gs w4 w5 bs w6) = [] /\
  finditer false RGBA_COLOR_REGEX (rgb_literal w1 rs w2 w3 gs w4 w5 bs w6) = [] /\
  finditer false HSL_COLOR_REGEX (rgb_literal w1 rs w2 w3 gs w4 w5 bs w6) = [] /\
  finditer false HSLA_COLOR_REGEX (rgb_literal w1 rs w2 w3 gs w4 w5 bs w6) = [] /\
  finditer true NAMED_COLOR_REGEX (rgb_literal w1 rs w2 w3 gs w4 w5 bs w6) = [].
Proof.
  unfold finditer. repeat split.
  - apply scan_no_first; [reflexivity|].
    apply (no_first_spec _ _ rgb_char); [now vm_compute|apply rgb_literal_chars].
  - rewrite rgb_literal_body.
    rewrite scan_step by reflexivity. rewrite scan_step by reflexivity.
    rewrite scan_step by reflexivity. rewrite scan_step by reflexivity.
    apply scan_no_first; [reflexivity|].
    apply (no_first_spec _ _ body_char); [now vm_compute|apply rgb_body_chars].
  - apply scan_no_first; [reflexivity|].
    apply (no_first_spec _ _ rgb_char); [now vm_compute|apply rgb_literal_chars].
  - apply scan_no_first; [reflexivity|].
    apply (no_first_spec _ _ rgb_char); [now vm_compute|apply rgb_literal_chars].
  - rewrite rgb_literal_body.
    rewrite scan_step by (now vm_compute). rewrite scan_step by (now vm_compute).
    rewrite scan_step by (now vm_compute). rewrite scan_step by (now vm_compute).
    apply scan_no_first; [now vm_compute|].
    apply (no_first_spec _ _ colorless); [exact names_start_with_letters|].
    generalize rgb_body_chars. apply all_chars_impl, body_is_colorless.
Qed.

Lemma rgb_literal_found :
  finditer false RGB_COLOR_REGEX (rgb_literal w1 rs w2 w3 gs w4 w5 bs w6)
  = [{| group0 := rgb_literal w1 rs w2 w3 gs w4 w5 bs w6;
        groups := [Some rs; Some gs; Some bs] |}].
Proof.
  unfold finditer. pose proof rgb_literal_match as Hm.
  rewrite rgb_literal_body in *.
  now apply scan_whole.
Qed.
End RgbLiteral.

(** An RGB literal alone, with whatever white space the pattern allows
    and whatever the numbers (of no more digits than [int] takes), gives
    one key, [#] and the three numbers in hexadecimal with at least two
    digits each, and the literal as its one spelling: a canonical color
    exactly when no number is above 255. *)
Theorem rgb_literal_key :
  forall w1 rs w2 w3 gs w4 w5 bs w6,
    all_chars is_space w1 = true -> all_chars is_space w2 = true ->
    all_chars is_space w3 = true -> all_chars is_space w4 = true ->
    all_chars is_space w5 = true -> all_chars is_space w6 = true ->
    is_number rs = true -> is_number gs = true -> is_number bs = true ->
    (String.length rs <= 4300)%nat -> (String.length gs <= 4300)%nat ->
    (String.length bs <= 4300)%nat ->
    let key := hex_value_of (decimal rs 0) (decimal gs 0) (decimal bs 0) in
    extract_colors_from_content (rgb_literal w1 rs w2 w3 gs w4 w5 bs w6)
    = Ok [(Some key, [rgb_literal w1 rs w2 w3 gs w4 w5 bs w6])] /\
    (canonical key = true <->
     decimal rs 0 <= 255 /\ decimal gs 0 <= 255 /\ decimal bs 0 <= 255).
Proof.
  intros w1 rs w2 w3 gs w4 w5 bs w6 H1 H2 H3 H4 H5 H6 Hr Hg Hb Lr Lg Lb key. split.
  - destruct (rgb_literal_only_rgb w1 rs w2 w3 gs w4 w5 bs w6
                H1 H2 H3 H4 H5 H6 Hr Hg Hb) as (Fhex & Frgba & Fhsl & Fhsla & Fnamed).
    unfold extract_colors_from_content.
    rewrite Fhex, Frgba, Fhsl, Fhsla, Fnamed.
    rewrite (rgb_literal_found w1 rs w2 w3 gs w4 w5 bs w6
               H1 H2 H3 H4 H5 H6 Hr Hg Hb).
    cbn [for_each bind]. unfold extract_rgb. cbn [groups group0 mapM].
    rewrite (int_of_number rs Hr Lr), (int_of_number gs Hg Lg),
      (int_of_number bs Hb Lb).
    cbn [bind unpack3]. now rewrite record_color_first.
  - apply hex_value_of_canonical; now apply number_nonneg.
Qed.

Lemma rgb_literal_key_witness :
  rgb_literal "" "255" "" " " "0" " " "" "128" "" = "rgb(255, 0 ,128)" /\
  extract_colors_from_content "rgb(255, 0 ,128)"
  = Ok [(Some (hex_value_of 255 0 128), ["rgb(255, 0 ,128)"])].
Proof.
  split; [reflexivity|].
  apply (rgb_literal_key "" "255" "" " " "0" " " "" "128" ""); try reflexivity;
    cbn; lia.
Defined.

(** * Lists without a repeated path *)

Lemma filter_NoDup {A : Type} (p : A -> bool) l : NoDup l -> NoDup (filter p l).
Proof.
  induction 1 as [|x l Hx Hl IH]; cbn [filter]; [constructor|].
  destruct (p x); [|exact IH]. constructor; [|exact IH].
  intros Hin. apply filter_In in Hin as [Hin _]. contradiction.
Qed.

(** When no path is listed twice, [count] is the number of files that
    hold the color, and [unique] says that it is 1. *)
Theorem distinct_paths_count_files :
  forall fs files cd err k r,
    NoDup files ->
    aggregate fs files [] [] = (Ok cd, err) ->
    d_get k cd = Some r ->
    count r = Z.of_nat (List.length (files_with_color fs files k)) /\
    (unique r = true <-> List.length (files_with_color fs files k) = 1%nat).
Proof.
  intros fs files cd err k r Hnd Hrun Hk.
  assert (H0 : counted fs [] []) by (intros k'; reflexivity).
  pose proof (aggregate_counted fs files [] [] [] cd err H0 Hrun k) as H.
  cbn [app] in H. rewrite Hk in H. destruct H as (Hc & _ & Hu & _ & _).
  unfold files_with_color.
  rewrite (nodup_fixed_point string_dec (filter_NoDup _ files Hnd)).
  fold (holds fs k). split; [exact Hc|].
  rewrite Hu, Z.eqb_eq, Hc. lia.
Qed.

Lemma distinct_paths_witness :
  exists cd err r,
    aggregate two_files ["a.css"; "b.css"] [] [] = (Ok cd, err) /\
    d_get "#ff0000" cd = Some r /\
    count r = Z.of_nat (List.length (files_with_color two_files ["a.css"; "b.css"] "#ff0000")) /\
    (unique r = true <->
     List.length (files_with_color two_files ["a.css"; "b.css"] "#ff0000") = 1%nat).
Proof.
  destruct (aggregate two_files ["a.css"; "b.css"] [] [])
    as [[cd|e] err] eqn:Hrun; [|vm_compute in Hrun; discriminate].
  destruct (d_get "#ff0000" cd) as [r|] eqn:Hk.
  - exists cd, err, r. split; [reflexivity|]. split; [exact Hk|].
    refine (distinct_paths_count_files _ _ _ _ _ _ _ Hrun Hk).
    repeat constructor; cbn [In]; intuition discriminate.
  - exfalso. vm_compute in Hrun. injection Hrun as <- _.
    vm_compute in Hk. discriminate.
Defined.

(** * The lines on [sys.stderr] *)

Lemma aggregate_stderr fs files : forall cd err cd' err',
  aggregate fs files cd err = (Ok cd', err') ->
  err' = (err ++ flat_map (fun f => snd (analyze_file fs f)) files)%list.
Proof.
  induction files as [|f files IH]; cbn [aggregate flat_map]; intros cd err cd' err' H.
  - injection H as _ <-. now rewrite app_nil_r.
  - destruct (analyze_file fs f) as [file_colors lines]. cbn [snd].
    destruct (for_each file_colors (add_color f) cd) as [cd1|e]; [|discriminate].
    apply IH in H. now rewrite H, app_assoc.
Qed.

(** A run that ends with a report has written to [sys.stderr] the lines
    of the files that could not be analysed, in the order of the list, at
    most one line for each entry of the list, and nothing else. *)
Theorem stderr_is_one_line_per_failed_file :
  forall fs files od err,
    process_files fs files = (Ok od, err) ->
    err = flat_map (fun f => snd (analyze_file fs f)) files /\
    (forall f, (List.length (snd (analyze_file fs f)) <= 1)%nat) /\
    (forall f, snd (analyze_file fs f) = [] \/ fst (analyze_file fs f) = []).
Proof.
  intros fs files od err H. unfold process_files in H.
  destruct (aggregate fs files [] []) as [[cd|e] err0] eqn:Hrun; [|discriminate].
  injection H as _ <-. split; [exact (aggregate_stderr _ _ _ _ _ _ Hrun)|].
  split; intros f; unfold analyze_file;
    destruct (bind (fs f) _); cbn [fst snd List.length]; auto.
Qed.

Lemma stderr_witness :
  snd (process_files one_unreadable ["a.css"; "b.css"; "c.css"])
  = flat_map (fun f => snd (analyze_file one_unreadable f)) ["a.css"; "b.css"; "c.css"].
Proof.
  destruct (process_files one_unreadable ["a.css"; "b.css"; "c.css"])
    as [[od|e] err] eqn:H; [|vm_compute in H; discriminate].
  exact (proj1 (stderr_is_one_line_per_failed_file _ _ _ _ H)).
Defined.

(** * Runs on files in range *)

Lemma canonical_valid_hex6 k : canonical k = true -> valid_hex6 k = true.
Proof.
  unfold canonical, valid_hex6. destruct k as [|c t]; [discriminate|].
  destruct c as [[] [] [] [] [] [] [] []]; try discriminate.
  intros H. apply andb_prop in H as [Hlen Hc]. rewrite Hlen. cbn [andb].
  rewrite <- all_chars_forallb. revert Hc. apply all_chars_impl.
  intros c Hc. unfold is_lower_hexdigit in Hc. unfold is_hexdigit.
  apply orb_prop in Hc as [-> | ->]; [reflexivity|]. now rewrite orb_true_r.
Qed.

Lemma canonical_has_category k :
  canonical k = true ->
  exists c, determine_color_category k = Ok c /\ In c categories.
Proof.
  intros Hk. apply canonical_valid_hex6 in Hk.
  destruct (hex_to_rgb_valid _ Hk) as (r & g & b & Hrgb & Hr & Hg & Hb).
  destruct (rgb_to_hsl_within r g b Hr Hg Hb)
    as (_ & _ & _ & _ & _ & _ & h & s & l & _ & _ & _ & _ & _ & _ & _ & Hhsl & Hh & _).
  destruct (category_of_hsl h s l Hh) as (c & _ & Hin & Hcode).
  exists c. split; [|exact Hin].
  unfold determine_color_category. rewrite Hrgb. cbn [bind].
  rewrite Hhsl. cbn [bind]. exact Hcode.
Qed.

Lemma add_color_canonical f cd k vs :
  canonical k = true -> vs <> [] -> canonical_records cd ->
  exists cd', add_color f cd (Some k, vs) = Ok cd' /\ canonical_records cd'.
Proof.
  intros Hk Hvs Hcd. unfold add_color.
  destruct (d_get k cd) as [r|] eqn:Hget.
  - eexists. split; [reflexivity|]. intros k' r'. rewrite d_get_set.
    destruct (eqb_spec k' k) as [->|Hne]; [|apply Hcd].
    intros [= <-]. cbn [name category]. exact (Hcd k r Hget).
  - destruct vs as [|v0 tl]; [congruence|]. cbn [first_of bind].
    destruct (canonical_has_category k Hk) as (c & -> & Hc). cbn [bind].
    eexists. split; [reflexivity|]. intros k' r'. rewrite d_get_set.
    destruct (eqb_spec k' k) as [->|Hne]; [|apply Hcd].
    intros [= <-]. cbn [name category]. now repeat split.
Qed.

Lemma file_canonical fs f cd :
  canonical_keys (fst (analyze_file fs f)) -> canonical_records cd ->
  exists cd', for_each (fst (analyze_file fs f)) (add_color f) cd = Ok cd' /\
              canonical_records cd'.
Proof.
  intros Hkeys Hcd.
  apply (for_each_Ok_In canonical_records); [|exact Hcd].
  intros cd0 [key vs] Hin Hcd0.
  assert (Hkey : In key (d_keys (fst (analyze_file fs f))))
    by (apply in_map_iff; now exists (key, vs)).
  destruct (Hkeys key Hkey) as (k & -> & Hk).
  apply add_color_canonical; [exact Hk| |exact Hcd0].
  pose proof (analyze_file_NoDup fs f) as Hnd.
  assert (Hget : d_get (Some k) (fst (analyze_file fs f)) = Some vs).
  { revert Hnd Hin. generalize (fst (analyze_file fs f)).
    induction c as [|[k' v'] c IH]; cbn [In d_keys map fst d_get]; [intros _ []|].
    intros Hnd [[= -> ->]|Hin].
    - now rewrite eqb_refl.
    - apply NoDup_cons_iff in Hnd as [Hfresh Hnd].
      destruct (eqb_spec (Some k) k') as [<-|Hne]; [|now apply IH].
      exfalso. apply Hfresh. apply in_map_iff. now exists (Some k, vs). }
  destruct (analyze_file_well_formed fs f _ _ Hget) as [(v0 & tl & ->) _]. discriminate.
Qed.

Lemma aggregate_canonical fs files : forall cd err,
  (forall f, In f files -> canonical_keys (fst (analyze_file fs f))) ->
  canonical_records cd ->
  exists cd' err', aggregate fs files cd err = (Ok cd', err') /\ canonical_records cd'.
Proof.
  induction files as [|f files IH]; cbn [aggregate]; intros cd err Hfiles Hcd.
  - now exists cd, err.
  - destruct (file_canonical fs f cd (Hfiles f (or_introl eq_refl)) Hcd)
      as (cd1 & Hrun & Hcd1).
    destruct (analyze_file fs f) as [file_colors lines]. cbn [fst] in Hrun.
    rewrite Hrun. apply IH; [|exact Hcd1]. intros g Hg. apply Hfiles. now right.
Qed.

(** When every file of the list gives canonical colors only, the run
    ends with a report, and each record is filed under its key, a
    canonical color that is also its [name], with one of the eleven
    categories. *)
Theorem canonical_files_give_a_report :
  forall fs files,
    (forall f, In f files -> canonical_keys (fst (analyze_file fs f))) ->
    exists cd err,
      process_files fs files = (Ok (organize cd), err) /\
      forall k r,
        d_get k cd = Some r ->
        canonical k = true /\ name r = k /\ In (category r) categories.
Proof.
  intros fs files Hfiles.
  destruct (aggregate_canonical fs files [] [] Hfiles) as (cd & err & Hrun & Hcd).
  { intros k r. discriminate. }
  exists cd, err. split; [|exact Hcd].
  unfold process_files. now rewrite Hrun.
Qed.

Lemma canonical_files_witness :
  exists cd err,
    process_files two_files ["a.css"; "b.css"] = (Ok (organize cd), err) /\
    forall k r,
      d_get k cd = Some r ->
      canonical k = true /\ name r = k /\ In (category r) categories.
Proof.
  apply canonical_files_give_a_report.
  intros f [<-|[<-|[]]] key Hin; vm_compute in Hin;
    repeat (destruct Hin as [<-|Hin]; [eexists; split; reflexivity|]);
    destruct Hin.
Defined.

(** * The extractor on a hex literal *)

Lemma scan_sound_suffix ic r : forall s pv skip m,
  In m (scan ic r pv s skip) ->
  exists pv' pre s', s = pre ++ s' /\ match_at ic r pv' s' = Some m.
Proof.
  induction s as [|a s IH]; intros pv skip m.
  - destruct skip as [|n]; cbn [scan]; [|intros []].
    destruct (match_at ic r pv EmptyString) as [m0|] eqn:Hm; [|intros []].
    intros [<-|[]]. now exists pv, EmptyString, EmptyString.
  - assert (Hnext : forall pv1 n, In m (scan ic r pv1 s n) ->
              exists pv' pre s', String a s = pre ++ s' /\ match_at ic r pv' s' = Some m).
    { intros pv1 n Hin. apply IH in Hin as (pv' & pre & s' & -> & Hm).
      now exists pv', (String a pre), s'. }
    destruct skip as [|n]; cbn [scan]; [|apply Hnext].
    destruct (match_at ic r pv (String a s)) as [m0|] eqn:Hm; [|apply Hnext].
    intros [<-|Hin]; [|eapply Hnext, Hin].
    now exists pv, EmptyString, (String a s).
Qed.

Lemma hexish_facts_all c : hexish_facts c = true.
Proof. apply for_all_ascii. vm_compute. reflexivity. Qed.

Lemma names_not_hexish : forallb not_hexish NAMED_COLORS = true.
Proof. vm_compute. reflexivity. Qed.

Lemma lower_hexish w : all_chars hexish w = true -> all_chars hexish (lower w) = true.
Proof.
  induction w as [|c w IH]; cbn [all_chars lower]; [reflexivity|].
  intros H. apply andb_prop in H as [Hc Hw]. rewrite (IH Hw), andb_true_r.
  pose proof (hexish_facts_all c) as H. unfold hexish_facts in H.
  apply andb_prop in H as [H _]. now rewrite Hc in H.
Qed.

Lemma hexdigit_is_word c : is_hexdigit c = true -> is_word c = true.
Proof.
  intros Hc. pose proof (hexish_facts_all c) as H. unfold hexish_facts in H.
  apply andb_prop in H as [_ H]. now rewrite Hc in H.
Qed.

(** No name is found in a text of hexadecimal digits and [#]. *)
Lemma hexish_has_no_name content :
  all_chars hexish content = true ->
  finditer true NAMED_COLOR_REGEX content = [].
Proof.
  intros Hc. destruct (finditer true NAMED_COLOR_REGEX content) as [|m l] eqn:E;
    [reflexivity|exfalso].
  assert (Hin : In m (finditer true NAMED_COLOR_REGEX content)) by (rewrite E; now left).
  apply scan_sound_suffix in Hin as (pv & pre & s' & Hs & Hm).
  pose proof Hm as Hshape. apply named_match_shape in Hshape as (color & Hcolor & Hl).
  apply match_at_sound in Hm as (pv' & s2 & cs' & Hmatch & Hg0 & _).
  apply matches_consumed in Hmatch as (w & ->).
  rewrite taken_app in Hg0. rewrite Hg0 in Hl.
  rewrite Hs, !all_chars_app in Hc.
  apply andb_prop in Hc as [_ Hc]. apply andb_prop in Hc as [Hw _].
  apply lower_hexish in Hw. rewrite Hl in Hw.
  destruct (named_color_facts color Hcolor) as (Hlow & _). rewrite Hlow in Hw.
  apply in_map_iff in Hcolor as ([c hex] & <- & Hin).
  pose proof names_not_hexish as Hall. rewrite forallb_forall in Hall.
  specialize (Hall _ Hin). unfold not_hexish in Hall. cbn [fst] in *.
  rewrite Hw in Hall. discriminate.
Qed.

Lemma hex_literal_chars s :
  valid_hex3 s || valid_hex6 s = true -> all_chars hexish s = true.
Proof.
  intros H.
  assert (Hs : exists t, s = String "#" t /\ all_chars is_hexdigit t = true).
  { unfold valid_hex3, valid_hex6 in H. destruct s as [|c t]; [discriminate|].
    destruct c as [[] [] [] [] [] [] [] []]; try discriminate.
    exists t. split; [reflexivity|]. rewrite all_chars_forallb.
    apply orb_prop in H as [H|H]; now apply andb_prop in H as [_ H]. }
  destruct Hs as (t & -> & Ht). cbn [all_chars]. change (hexish "#") with true.
  cbn [andb]. revert Ht. apply all_chars_impl. intros c Hc. unfold hexish.
  now rewrite Hc.
Qed.

Lemma hex_literal_match s :
  valid_hex3 s || valid_hex6 s = true ->
  match_at false HEX_COLOR_REGEX None s
  = Some {| group0 := s; groups := [Some (tail s)] |}.
Proof.
  intros H. apply orb_prop in H as [H|H].
  - unfold valid_hex3 in H.
    destruct s as [|c0 [|c1 [|c2 [|c3 [|c4 s]]]]];
      try discriminate;
      try (destruct c0 as [[] [] [] [] [] [] [] []]; discriminate).
    destruct c0 as [[] [] [] [] [] [] [] []]; try discriminate.
    cbn [String.length Nat.eqb andb list_ascii_of_string forallb] in H.
    apply andb_prop in H as [X1 H]. apply andb_prop in H as [X2 H].
    apply andb_prop in H as [X3 _].
    unfold match_at, HEX_COLOR_REGEX. cbn [rmatch rep ngroups Nat.add seq map].
    change (chr_matches false "#" "#") with true. cbv iota.
    rewrite X1, X2, X3. unfold at_boundary.
    rewrite (hexdigit_is_word c3 X3). cbn [xorb capture Nat.eqb tail].
    reflexivity.
  - unfold valid_hex6 in H.
    destruct s as [|c0 [|c1 [|c2 [|c3 [|c4 [|c5 [|c6 [|c7 s]]]]]]]];
      try discriminate;
      try (destruct c0 as [[] [] [] [] [] [] [] []]; discriminate).
    destruct c0 as [[] [] [] [] [] [] [] []]; try discriminate.
    cbn [String.length Nat.eqb andb list_ascii_of_string forallb] in H.
    apply andb_prop in H as [X1 H]. apply andb_prop in H as [X2 H].
    apply andb_prop in H as [X3 H]. apply andb_prop in H as [X4 H].
    apply andb_prop in H as [X5 H]. apply andb_prop in H as [X6 _].
    unfold match_at, HEX_COLOR_REGEX. cbn [rmatch rep ngroups Nat.add seq map].
    change (chr_matches false "#" "#") with true. cbv iota.
    rewrite X1, X2, X3, X4, X5, X6. unfold at_boundary.
    rewrite (hexdigit_is_word c3 X3), (hexdigit_is_word c4 X4),
      (hexdigit_is_word c6 X6).
    cbn [xorb capture Nat.eqb tail]. reflexivity.
Qed.

(** A hex literal alone, of three or of six digits in either case, gives
    one key, the literal in lowercase with each digit of the short form
    doubled, and the literal in lowercase as its one spelling. *)
Theorem hex_literal_key :
  forall s,
    valid_hex3 s || valid_hex6 s = true ->
    extract_colors_from_content s
    = Ok [(Some (normalize_hex_color (lower s)), [lower s])] /\
    canonical (normalize_hex_color (lower s)) = true.
Proof.
  intros s H. split; [|now apply normalize_canonical].
  pose proof (hex_literal_chars s H) as Hc.
  unfold extract_colors_from_content.
  assert (Hhex : finditer false HEX_COLOR_REGEX s
                 = [{| group0 := s; groups := [Some (tail s)] |}]).
  { pose proof (hex_literal_match s H) as Hm. unfold finditer.
    destruct s as [|c s]; [discriminate|]. now apply scan_whole. }
  assert (Hnone : forall r, nullable r = false -> no_first false r hexish = true ->
                            finditer false r s = []).
  { intros r Hn Hf. unfold finditer. apply scan_no_first; [exact Hn|].
    now apply (no_first_spec _ _ hexish). }
  assert (Hrgb : finditer false RGB_COLOR_REGEX s = [])
    by (apply Hnone; [reflexivity|vm_compute; reflexivity]).
  assert (Hrgba : finditer false RGBA_COLOR_REGEX s = [])
    by (apply Hnone; [reflexivity|vm_compute; reflexivity]).
  assert (Hhsl : finditer false HSL_COLOR_REGEX s = [])
    by (apply Hnone; [reflexivity|vm_compute; reflexivity]).
  assert (Hhsla : finditer false HSLA_COLOR_REGEX s = [])
    by (apply Hnone; [reflexivity|vm_compute; reflexivity]).
  rewrite Hhex, Hrgb, Hrgba, Hhsl, Hhsla, (hexish_has_no_name s Hc).
  cbn [for_each bind]. unfold extract_hex. cbn [group0].
  now rewrite record_color_first.
Qed.

Lemma hex_literal_key_witness :
  extract_colors_from_content "#AbC" = Ok [(Some "#aabbcc", ["#abc"])].
Proof.
  destruct (hex_literal_key "#AbC" eq_refl) as [H _]. exact H.
Defined.

(** * The extractor on a name *)

Lemma letter_facts_all c : letter_facts c = true.
Proof. apply for_all_ascii. vm_compute. reflexivity. Qed.

Lemma names_small_letters : forallb small_letters NAMED_COLORS = true.
Proof. vm_compute. reflexivity. Qed.

Lemma lower_letters t :
  all_chars (between 97 122) (lower t) = true -> all_chars is_letter t = true.
Proof.
  induction t as [|c t IH]; cbn [lower all_chars]; [reflexivity|].
  intros H. apply andb_prop in H as [Hc Ht]. rewrite (IH Ht), andb_true_r.
  pose proof (letter_facts_all c) as H. unfold letter_facts in H.
  apply andb_prop in H as [H _]. now rewrite Hc in H.
Qed.

Lemma letter_is_word c : is_letter c = true -> is_word c = true.
Proof.
  intros Hc. pose proof (letter_facts_all c) as H. unfold letter_facts in H.
  apply andb_prop in H as [_ H]. rewrite Hc in H. cbn [implb] in H.
  apply andb_prop in H as [H _]. now apply andb_prop in H as [H _].
Qed.

(** With [re.IGNORECASE] a literal takes a text that is the same in
    lowercase. *)
Lemma step_lit_ignorecase {R : Type} n : forall w r pv s cs (k : option ascii -> string -> list (nat * string) -> option R),
  lower w = lower n ->
  rmatch true (Seq (lit n) r) pv (w ++ s) cs k = rmatch true r (last_of pv w) s cs k.
Proof.
  induction n as [|c n IH]; intros w r pv s cs k Hl.
  - destruct w; [reflexivity|discriminate].
  - destruct w as [|a w]; [discriminate|]. cbn [lower] in Hl.
    injection Hl as Ha Hw. cbn [lit append rmatch last_of].
    unfold chr_matches. rewrite <- Ha, Ascii.eqb_refl.
    exact (IH w r (Some a) s cs k Hw).
Qed.

Lemma last_of_letters w pv :
  all_chars is_letter w = true -> w <> EmptyString ->
  exists a, last_of pv w = Some a /\ is_letter a = true.
Proof.
  revert pv. induction w as [|c w IH]; intros pv Hw Hne; [congruence|].
  cbn [all_chars] in Hw. apply andb_prop in Hw as [Hc Hw]. cbn [last_of].
  destruct w as [|c' w']; [now exists c|]. apply IH; [exact Hw|discriminate].
Qed.

Lemma matches_lit_last ic t : forall pv s cs pv' s' cs',
  matches ic (lit t) pv s cs pv' s' cs' ->
  exists w, s = w ++ s' /\ pv' = last_of pv w /\
            (if ic then lower w = lower t else w = t).
Proof.
  induction t as [|c t IH]; intros pv s cs pv' s' cs'; cbn [lit matches].
  - intros (-> & -> & _). exists EmptyString. repeat split. now destruct ic.
  - intros (pv1 & s1 & cs1 & (a & -> & Ha & -> & _) & Ht).
    apply IH in Ht as (w & -> & -> & Hw).
    exists (String a w). repeat split. unfold chr_matches in Ha.
    destruct ic; apply Ascii.eqb_eq in Ha; cbn [lower]; congruence.
Qed.

Lemma name_small_letters color :
  In color (d_keys NAMED_COLORS) ->
  all_chars (between 97 122) color = true /\ color <> EmptyString.
Proof.
  intros Hin. apply in_map_iff in Hin as ([c hex] & <- & Hin).
  pose proof names_small_letters as H. rewrite forallb_forall in H.
  specialize (H _ Hin). unfold small_letters in H. cbn [fst] in *.
  apply andb_prop in H as [H1 H2]. split; [exact H1|]. now destruct c.
Qed.

Lemma string_app_nil w : w ++ EmptyString = w.
Proof. induction w as [|c w IH]; cbn [append]; congruence. Qed.

Lemma boundary_before_letters w :
  all_chars is_letter w = true -> w <> EmptyString -> at_boundary None w = true.
Proof.
  destruct w as [|c w]; [congruence|]. cbn [all_chars]. intros H _.
  apply andb_prop in H as [Hc _]. unfold at_boundary.
  now rewrite (letter_is_word c Hc).
Qed.

Lemma rmatch_alts_cons {R : Type} ic r l pv s cs
      (k : option ascii -> string -> list (nat * string) -> option R) :
  l <> [] ->
  rmatch ic (alts (r :: l)) pv s cs k
  = match rmatch ic r pv s cs k with
    | Some x => Some x
    | None => rmatch ic (alts l) pv s cs k
    end.
Proof. destruct l; [congruence|reflexivity]. Qed.

Lemma rmatch_alts_none {R : Type} ic pv s cs
      (k : option ascii -> string -> list (nat * string) -> option R) :
  forall l,
    (forall r, In r l -> rmatch ic r pv s cs k = None) ->
    rmatch ic (alts l) pv s cs k = None.
Proof.
  induction l as [|r l IH]; intros H.
  - cbn [alts rmatch]. now destruct s.
  - destruct l as [|r' l]; [apply H; now left|].
    rewrite rmatch_alts_cons by discriminate.
    rewrite (H r) by now left. apply IH. intros r0 Hr0. apply H. now right.
Qed.

Section NameAlone.
Variables (text color : string).
Hypothesis Hcolor : In color (d_keys NAMED_COLORS).
Hypothesis Htext : lower text = color.

Lemma name_alone_letters : all_chars is_letter text = true /\ text <> EmptyString.
Proof.
  destruct (name_small_letters color Hcolor) as [Hs Hne]. split.
  - apply lower_letters. now rewrite Htext.
  - intros ->. now apply Hne.
Qed.

(** Another name does not match at the start of the text. *)
Lemma other_name_fails {R : Type} other (k : option ascii -> string -> list (nat * string) -> option R) :
  In other (d_keys NAMED_COLORS) -> other <> color ->
  rmatch true (Seq Bnd (Seq (lit other) Bnd)) None text [] k = None.
Proof.
  intros Hin Hne.
  destruct (rmatch true (Seq Bnd (Seq (lit other) Bnd)) None text [] k) as [x|] eqn:E;
    [exfalso|reflexivity].
  apply rmatch_sound in E as (pv' & s' & cs' & Hm & _).
  apply matches_Seq in Hm as (pv1 & s1 & cs1 & (_ & -> & -> & ->) & Hm).
  apply matches_Seq in Hm as (pv2 & s2 & cs2 & Hlit & (Hb & _ & -> & _)).
  apply matches_lit_last in Hlit as (w & Hs & -> & Hw).
  destruct name_alone_letters as [Hl _]. rewrite Hs, all_chars_app in Hl.
  apply andb_prop in Hl as [Hlw Hl2].
  destruct (named_color_facts other Hin) as (Hlow & _). rewrite Hlow in Hw.
  destruct (name_small_letters other Hin) as [_ Hone].
  assert (Hwne : w <> EmptyString) by (intros ->; now apply Hone).
  destruct (last_of_letters w None Hlw Hwne) as (a & Ea & Ha).
  rewrite Ea in Hb. unfold at_boundary in Hb.
  rewrite (letter_is_word a Ha) in Hb.
  destruct s2 as [|b s2].
  - apply Hne. now rewrite <- Hw, <- Htext, Hs, string_app_nil.
  - cbn [all_chars] in Hl2. apply andb_prop in Hl2 as [Hb2 _].
    rewrite (letter_is_word b Hb2) in Hb. discriminate.
Qed.

(** The name itself takes the whole text. *)
Lemma own_name_matches {R : Type} (k : option ascii -> string -> list (nat * string) -> option R) :
  rmatch true (Seq Bnd (Seq (lit color) Bnd)) None text [] k
  = k (last_of None text) EmptyString [].
Proof.
  destruct name_alone_letters as [Hl Hne].
  change (rmatch true (Seq Bnd (Seq (lit color) Bnd)) None text [] k)
    with (if at_boundary None text
          then rmatch true (Seq (lit color) Bnd) None text [] k else None).
  rewrite (boundary_before_letters text Hl Hne).
  rewrite <- (string_app_nil text) at 1.
  rewrite step_lit_ignorecase
    by (destruct (named_color_facts color Hcolor) as (Hlow & _); congruence).
  cbn [rmatch]. destruct (last_of_letters text None Hl Hne) as (a & -> & Ha).
  unfold at_boundary. now rewrite (letter_is_word a Ha).
Qed.

Lemma alts_first {R : Type} (k : option ascii -> string -> list (nat * string) -> option R) :
  forall l,
    (forall other, In other l -> In other (d_keys NAMED_COLORS)) ->
    In color l ->
    rmatch true (alts (map (fun c => Seq Bnd (Seq (lit c) Bnd)) l)) None text [] k
    = k (last_of None text) EmptyString [].
Proof.
  set (F := fun c => Seq Bnd (Seq (lit c) Bnd)).
  induction l as [|c l IH]; intros Hl Hin; [destruct Hin|].
  assert (Hhead : rmatch true (F c) None text [] k
                  = if String.eqb c color then k (last_of None text) EmptyString []
                    else None).
  { destruct (String.eqb_spec c color) as [->|Hne]; [apply own_name_matches|].
    apply other_name_fails; [apply Hl; now left|exact Hne]. }
  assert (Hl' : forall other, In other l -> In other (d_keys NAMED_COLORS))
    by (intros o Ho; apply Hl; now right).
  destruct l as [|c' l].
  - destruct Hin as [->|[]]. cbn [map alts]. rewrite Hhead.
    now rewrite String.eqb_refl.
  - change (map F (c :: c' :: l)) with (F c :: map F (c' :: l)).
    rewrite rmatch_alts_cons by discriminate. rewrite Hhead.
    destruct (String.eqb_spec c color) as [->|Hne].
    + destruct (k (last_of None text) EmptyString []) eqn:Ek; [reflexivity|].
      destruct (in_dec string_dec color (c' :: l)) as [Hin'|Hout].
      * now rewrite IH.
      * apply rmatch_alts_none. intros r Hr.
        apply in_map_iff in Hr as (o & <- & Ho).
        apply other_name_fails; [now apply Hl'|]. intros ->. now apply Hout.
    + apply IH; [exact Hl'|]. destruct Hin as [->|Hin]; [congruence|exact Hin].
Qed.

Lemma name_alone_match :
  match_at true NAMED_COLOR_REGEX None text
  = Some {| group0 := text; groups := [] |}.
Proof.
  unfold match_at, NAMED_COLOR_REGEX.
  rewrite alts_first; [|auto|exact Hcolor].
  f_equal. f_equal.
  rewrite <- (taken_app text EmptyString) at 2. now rewrite string_app_nil.
Qed.

(** A pattern that starts with a literal holding something else than a
    letter finds nothing in a name. *)
Lemma name_alone_no_call p r :
  all_chars is_letter p = false ->
  finditer false (Seq (lit p) r) text = [].
Proof.
  intros Hp. destruct (finditer false (Seq (lit p) r) text) as [|m l] eqn:E;
    [reflexivity|exfalso].
  assert (Hin : In m (finditer false (Seq (lit p) r) text)) by (rewrite E; now left).
  apply scan_sound_suffix in Hin as (pv & pre & s' & Hs & Hm).
  apply match_at_sound in Hm as (pv' & s2 & cs' & Hm & _).
  apply matches_Seq in Hm as (pv1 & s1 & cs1 & Hlit & _).
  apply matches_lit in Hlit as (w & -> & _ & ->).
  destruct name_alone_letters as [Hl _].
  rewrite Hs, !all_chars_app in Hl.
  apply andb_prop in Hl as [_ Hl]. apply andb_prop in Hl as [Hl _]. congruence.
Qed.
End NameAlone.

(** A name of [NAMED_COLORS] alone, its letters in either case, gives one
    key, the value of the name in the table, and the name in lowercase as
    its one spelling: no other name and no other pattern takes a part
    of it. *)
Theorem named_literal_key :
  forall text hex,
    d_get (lower text) NAMED_COLORS = Some hex ->
    extract_colors_from_content text = Ok [(Some hex, [lower text])].
Proof.
  intros text hex Hhex.
  pose proof (d_get_Some_keys _ _ _ Hhex) as Hcolor.
  destruct (name_alone_letters text (lower text) Hcolor eq_refl) as [Hl Hne].
  unfold extract_colors_from_content.
  assert (Hhexes : finditer false HEX_COLOR_REGEX text = []).
  { unfold finditer. apply scan_no_first; [reflexivity|].
    apply (no_first_spec _ _ is_letter); [vm_compute; reflexivity|exact Hl]. }
  assert (Hrgb : finditer false RGB_COLOR_REGEX text = [])
    by (apply (name_alone_no_call text (lower text) Hcolor eq_refl); reflexivity).
  assert (Hrgba : finditer false RGBA_COLOR_REGEX text = [])
    by (apply (name_alone_no_call text (lower text) Hcolor eq_refl); reflexivity).
  assert (Hhsl : finditer false HSL_COLOR_REGEX text = [])
    by (apply (name_alone_no_call text (lower text) Hcolor eq_refl); reflexivity).
  assert (Hhsla : finditer false HSLA_COLOR_REGEX text = [])
    by (apply (name_alone_no_call text (lower text) Hcolor eq_refl); reflexivity).
  assert (Hnamed : finditer true NAMED_COLOR_REGEX text
                   = [{| group0 := text; groups := [] |}]).
  { pose proof (name_alone_match text (lower text) Hcolor eq_refl) as Hm.
    unfold finditer. destruct text as [|c t]; [congruence|].
    apply scan_whole; [vm_compute; reflexivity|exact Hm|reflexivity]. }
  rewrite Hhexes, Hrgb, Hrgba, Hhsl, Hhsla, Hnamed.
  cbn [for_each bind]. unfold extract_named. cbn [group0].
  now rewrite Hhex, record_color_first.
Qed.

Lemma named_literal_key_witness :
  extract_colors_from_content "DarkGray" = Ok [(Some "#a9a9a9", ["darkgray"])].
Proof. exact (named_literal_key "DarkGray" "#a9a9a9" eq_refl). Defined.
